(** * har-tool: the capture pipeline, embedded and verified

    A shallow embedding of the server side of har-tool (the intercepting
    proxy, the sanitizer, the session store and the report catalog) with the
    properties its specification states about them.

    Conventions of the embedding.
    - A JavaScript string is a [string], a sequence of code units below 256
      (header names and values, URLs, identifiers, JSON member names).  Text
      decoded from UTF-8 bytes (body text, file content) is a [text16], the
      list of its UTF-16 code units.
    - A JavaScript object used as a dictionary is a [gmap string _] when only
      its content matters, and an association list in property order when
      the order is observable (JSON text, [Map] iteration).
    - Counters are [Z]; a byte buffer is the list of its bytes.
    - An assignment [out[k] = v] adds or replaces the member [k]; member
      names that are accessors of [Object.prototype] are not modelled.
    - Run-time services the code calls into (JSON, URLSearchParams, the UTF-8
      decoder) are given as executable definitions next to the code that
      uses them. *)

From Stdlib Require Import ZArith Ascii String List Bool Lia.
From Stdlib Require Import Sorting.Sorted DecimalString.
From stdpp Require Import base option list gmap strings.

Local Open Scope string_scope.
Local Open Scope list_scope.

(** ** JavaScript string primitives *)

Module Js.

Definition code (c : ascii) : N := N_of_ascii c.

Definition between (lo hi : N) (c : ascii) : bool :=
  (N.leb lo (code c) && N.leb (code c) hi)%bool.

(** [String.prototype.toLowerCase] on code units below 256: A-Z and the
    Latin-1 capitals (U+00C0..U+00DE without the multiplication sign). *)
Definition lowerChar (c : ascii) : ascii :=
  if between 65 90 c then ascii_of_N (code c + 32)
  else if (between 192 222 c && negb (N.eqb (code c) 215))%bool
       then ascii_of_N (code c + 32)
  else c.

Fixpoint toLowerCase (s : string) : string :=
  match s with
  | EmptyString => EmptyString
  | String c r => String (lowerChar c) (toLowerCase r)
  end.

(** White space of [String.prototype.trim] below 256. *)
Definition isSpace (c : ascii) : bool :=
  (between 9 13 c || N.eqb (code c) 32 || N.eqb (code c) 160)%bool.

Fixpoint trimStart (s : string) : string :=
  match s with
  | EmptyString => EmptyString
  | String c r => if isSpace c then trimStart r else s
  end.

Fixpoint allSpace (s : string) : bool :=
  match s with
  | EmptyString => true
  | String c r => (isSpace c && allSpace r)%bool
  end.

Fixpoint trimEnd (s : string) : string :=
  match s with
  | EmptyString => EmptyString
  | String c r => if allSpace s then EmptyString else String c (trimEnd r)
  end.

Definition trim (s : string) : string := trimEnd (trimStart s).

Fixpoint startsWith (p s : string) : bool :=
  match p, s with
  | EmptyString, _ => true
  | String a p', String b s' => (Ascii.eqb a b && startsWith p' s')%bool
  | String _ _, EmptyString => false
  end.

Fixpoint includes (p s : string) : bool :=
  (startsWith p s ||
   match s with
   | EmptyString => false
   | String _ r => includes p r
   end)%bool.

Fixpoint endsWith (p s : string) : bool :=
  (String.eqb p s ||
   match s with
   | EmptyString => false
   | String _ r => endsWith p r
   end)%bool.

(** [s.split(sep)] for a one-character separator: never the empty list. *)
Fixpoint split (sep : ascii) (s : string) : list string :=
  match s with
  | EmptyString => [EmptyString]
  | String c r =>
      if Ascii.eqb c sep then EmptyString :: split sep r
      else match split sep r with
           | h :: t => String c h :: t
           | [] => [String c EmptyString]
           end
  end.

(** [parts.join(sep)]. *)
Fixpoint join (sep : string) (parts : list string) : string :=
  match parts with
  | [] => EmptyString
  | [x] => x
  | x :: t => x +:+ sep +:+ join sep t
  end.

Fixpoint forallChars (f : ascii -> bool) (s : string) : bool :=
  match s with
  | EmptyString => true
  | String c r => (f c && forallChars f r)%bool
  end.

Definition truthy (s : string) : bool := negb (String.eqb s EmptyString).

(** *** Arrays *)

(** [array.sort(cmp)]: the sort is stable; an element moves in front of the
    later ones it does not come after. *)
Fixpoint insertWith {A : Type} (cmp : A -> A -> Z) (x : A) (l : list A)
  : list A :=
  match l with
  | [] => [x]
  | y :: t => if (cmp y x <? 0)%Z then y :: insertWith cmp x t else x :: l
  end.

Definition sortWith {A : Type} (cmp : A -> A -> Z) (l : list A) : list A :=
  fold_right (insertWith cmp) [] l.

(** The default order of [array.sort()] on strings: by code unit. *)
Definition compareStrings (a b : string) : Z :=
  match String.compare a b with
  | Lt => (-1)%Z
  | Eq => 0%Z
  | Gt => 1%Z
  end.

(** [Array.from(new Set(l))]: the first occurrence of each element stays. *)
Fixpoint dedupeFrom (seen : list string) (l : list string) : list string :=
  match l with
  | [] => []
  | x :: t =>
      if existsb (String.eqb x) seen then dedupeFrom seen t
      else x :: dedupeFrom (x :: seen) t
  end.

Definition dedupe (l : list string) : list string := dedupeFrom [] l.

(** *** Decoded text: UTF-16 code units *)

Definition text16 : Type := list N.

Definition widen (s : string) : text16 := map code (list_ascii_of_string s).

(** The 8-bit string with the same code units, when there is one. *)
Definition narrow (t : text16) : option string :=
  if forallb (fun n => N.ltb n 256) t
  then Some (string_of_list_ascii (map ascii_of_N t))
  else None.

(** White space and line terminators of ECMAScript, for [trim]. *)
Definition isSpace16 (n : N) : bool :=
  ((N.leb 9 n && N.leb n 13) || N.eqb n 32 || N.eqb n 160 || N.eqb n 5760
   || (N.leb 8192 n && N.leb n 8202) || N.eqb n 8232 || N.eqb n 8233
   || N.eqb n 8239 || N.eqb n 8287 || N.eqb n 12288 || N.eqb n 65279)%bool.

Fixpoint trimStart16 (t : text16) : text16 :=
  match t with
  | [] => []
  | n :: r => if isSpace16 n then trimStart16 r else t
  end.

Fixpoint trimEnd16 (t : text16) : text16 :=
  match t with
  | [] => []
  | n :: r => if forallb isSpace16 t then [] else n :: trimEnd16 r
  end.

Definition trim16 (t : text16) : text16 := trimEnd16 (trimStart16 t).

Fixpoint startsWith16 (p t : text16) : bool :=
  match p, t with
  | [], _ => true
  | a :: p', b :: t' => (N.eqb a b && startsWith16 p' t')%bool
  | _ :: _, [] => false
  end.

(** [t.split(sep)] for a one-unit separator. *)
Fixpoint split16 (sep : N) (t : text16) : list text16 :=
  match t with
  | [] => [[]]
  | n :: r =>
      if N.eqb n sep then [] :: split16 sep r
      else match split16 sep r with
           | h :: tl => (n :: h) :: tl
           | [] => [[n]]
           end
  end.

End Js.

(** ** normalize.ts: path normalisation *)

Module Normalize.
Import Js.

Definition slash : ascii := "/"%char.
Definition dash : ascii := "-"%char.

(** Character classes of the three regular expressions; the [i] flag makes
    the letter ranges match both cases. *)
Definition isDigit (c : ascii) : bool := between 48 57 c.
Definition isHexI (c : ascii) : bool :=
  (between 48 57 c || between 97 102 c || between 65 70 c)%bool.
Definition isDash (c : ascii) : bool := Ascii.eqb c dash.
Definition isVersion (c : ascii) : bool := between 49 53 c.
Definition isVariant (c : ascii) : bool :=
  (between 56 57 c || between 97 98 c || between 65 66 c)%bool.

(** An anchored regular expression that is a fixed sequence of character
    classes: [^c1 c2 ... cn$]. *)
Fixpoint matchClasses (cs : list (ascii -> bool)) (s : string) : bool :=
  match cs, s with
  | [], EmptyString => true
  | f :: cs', String c r => (f c && matchClasses cs' r)%bool
  | _, _ => false
  end.

(** [/^[0-9a-f]{8}-[0-9a-f]{4}-[1-5][0-9a-f]{3}-[89ab][0-9a-f]{3}-[0-9a-f]{12}$/i] *)
Definition uuidRe : list (ascii -> bool) :=
  repeat isHexI 8 ++ [isDash] ++
  repeat isHexI 4 ++ [isDash] ++
  [isVersion] ++ repeat isHexI 3 ++ [isDash] ++
  [isVariant] ++ repeat isHexI 3 ++ [isDash] ++
  repeat isHexI 12.

Definition testUuid (seg : string) : bool := matchClasses uuidRe seg.

(** [/^[0-9a-f]{16,}$/i] *)
Definition testHash (seg : string) : bool :=
  (forallChars isHexI seg && Nat.leb 16 (String.length seg))%bool.

(** [/^\d+$/] *)
Definition testId (seg : string) : bool :=
  (forallChars isDigit seg && Nat.leb 1 (String.length seg))%bool.

(** The callback given to [map]. *)
Definition normalizeSegment (seg : string) : string :=
  if negb (truthy seg) then seg
  else if testUuid seg then ":uuid"
  else if testHash seg then ":hash"
  else if testId seg then ":id"
  else seg.

(** [path.replace(/\/+$/, EmptyString)]: the leftmost place from which only
    slashes run to the end is where the match starts; it is cut there. *)
Fixpoint allSlashes (s : string) : bool :=
  match s with
  | EmptyString => true
  | String c r => (Ascii.eqb c slash && allSlashes r)%bool
  end.

Fixpoint replaceTrailingSlashes (s : string) : string :=
  match s with
  | EmptyString => EmptyString
  | String c r => if allSlashes s then EmptyString
                  else String c (replaceTrailingSlashes r)
  end.

Definition normalizePath (path : string) : string :=
  let clean := if Nat.ltb 1 (String.length path)
               then replaceTrailingSlashes path else path in
  let parts := map normalizeSegment (split slash clean) in
  join "/" parts.

End Normalize.

(** The normaliser as the specification words it (section 4.1), kept apart
    from the code above so that the two can be compared. *)
Module NormalizeSpec.
Import Js.

(** Drop the last character when it is a slash. *)
Fixpoint dropLastSlash (s : string) : string :=
  match s with
  | EmptyString => EmptyString
  | String c EmptyString =>
      if Ascii.eqb c "/" then EmptyString else s
  | String c r => String c (dropLastSlash r)
  end.

(** Strip a single trailing slash except for the root. *)
Definition stripSingle (p : string) : string :=
  if String.eqb p "/" then p else dropLastSlash p.

(** Strip trailing slashes one after the other, as long as there is one;
    a path of at most one character is left alone. *)
Fixpoint dropSlashes (n : nat) (s : string) : string :=
  match n with
  | O => s
  | S n' => dropSlashes n' (dropLastSlash s)
  end.

Definition stripEvery (p : string) : string :=
  if Nat.leb (String.length p) 1 then p
  else dropSlashes (String.length p) p.

Definition hexDigit (c : ascii) : bool :=
  match c with
  | "0" | "1" | "2" | "3" | "4" | "5" | "6" | "7" | "8" | "9"
  | "a" | "b" | "c" | "d" | "e" | "f"
  | "A" | "B" | "C" | "D" | "E" | "F" => true
  | _ => false
  end%char.

Definition decimalDigit (c : ascii) : bool :=
  match c with
  | "0" | "1" | "2" | "3" | "4" | "5" | "6" | "7" | "8" | "9" => true
  | _ => false
  end%char.

(** The 8-4-4-4-12 layout read by position: dashes at 8, 13, 18 and 23, the
    version nibble at 14, the variant nibble at 19, hex digits elsewhere. *)
Definition uuidPosition (i : nat) (c : ascii) : bool :=
  match i with
  | 8 | 13 | 18 | 23 => Ascii.eqb c "-"
  | 14 => match c with
          | "1" | "2" | "3" | "4" | "5" => true
          | _ => false
          end%char
  | 19 => match c with
          | "8" | "9" | "a" | "b" | "A" | "B" => true
          | _ => false
          end%char
  | _ => hexDigit c
  end.

Fixpoint positionsFrom (i : nat) (s : string) : bool :=
  match s with
  | EmptyString => true
  | String c r => (uuidPosition i c && positionsFrom (S i) r)%bool
  end.

Definition isUuid (seg : string) : bool :=
  (Nat.eqb (String.length seg) 36 && positionsFrom 0 seg)%bool.

Definition isHash (seg : string) : bool :=
  (forallChars hexDigit seg && Nat.leb 16 (String.length seg))%bool.

Definition isId (seg : string) : bool :=
  (forallChars decimalDigit seg && negb (String.eqb seg EmptyString))%bool.

(** The checks in the order UUID, hash, id; empty segments stay empty. *)
Definition placeholder (seg : string) : string :=
  if String.eqb seg EmptyString then EmptyString
  else if isUuid seg then ":uuid"
  else if isHash seg then ":hash"
  else if isId seg then ":id"
  else seg.

(** Section 4.1 as written: one trailing slash goes. *)
Definition normalize (p : string) : string :=
  join "/" (map placeholder (split "/" (stripSingle p))).

(** The same with every trailing slash gone. *)
Definition normalizeEvery (p : string) : string :=
  join "/" (map placeholder (split "/" (stripEvery p))).

End NormalizeSpec.

(** ** JSON values *)

Module Json.
Import Js.

#[local] Set Warnings "-register-all".

(** A parsed JSON value.  A number carries the numeral that denotes it; an
    object carries its members in property order. *)
Inductive json : Type :=
| JNull
| JBool (b : bool)
| JNum (numeral : string)
| JStr (s : string)
| JArr (items : list json)
| JObj (members : list (string * json)).

(** Property lookup: the first member of that name. *)
Fixpoint assoc {A : Type} (k : string) (l : list (string * A)) : option A :=
  match l with
  | [] => None
  | (k', v) :: t => if String.eqb k k' then Some v else assoc k t
  end.

(** A place inside a value: a chain of member names and array indices. *)
Inductive step : Type :=
| Key (k : string)
| Idx (i : nat).


(** Truthiness of a parsed value: [null], [false], the empty string and a
    numeral whose mantissa has no digit other than zero are falsy. *)
Definition zeroNumeral (n : string) : bool :=
  forallChars (fun c => negb (between 49 57 c))
              (hd EmptyString (split "e" (toLowerCase n))).

Definition truthyJ (v : json) : bool :=
  match v with
  | JNull => false
  | JBool b => b
  | JNum n => negb (zeroNumeral n)
  | JStr s => truthy s
  | JArr _ | JObj _ => true
  end.

End Json.

(** ** URL and error objects *)

Module Url.
(** The fields of a WHATWG [URL] object the handlers read. *)
Record t : Type := {
  href : string;
  protocol : string;
  host : string;
  hostname : string;
  port : string;
  pathname : string;
  search : string;
  searchParams : list (string * string)
}.
End Url.

Module Err.
(** An error object: [err?.code] and [err?.message]. *)
Record t : Type := { code : option string; message : option string }.
End Err.

(** ** The services of the JavaScript runtime

    [JSON.parse], [JSON.stringify] and [URLSearchParams] belong to the
    runtime, not to this repository.  The code is embedded over a record of
    them, and every general statement holds whatever they compute. *)

Record Runtime : Type := {
  JSON_parse : Js.text16 -> option Json.json;
  JSON_stringify2 : Json.json -> Js.text16;
  URLSearchParams_parse : Js.text16 -> list (string * string);
  URLSearchParams_toString : list (string * string) -> Js.text16
}.

(** ** A reference runtime

    Executable readers and printers for running the embedded code on
    concrete records.  They follow ECMA-404, the serialisation of
    [JSON.stringify(value, null, 2)] and the URL standard's
    [application/x-www-form-urlencoded] format, and are exact on text whose
    code units are below 128, whose numerals are in the form JavaScript
    prints them, and whose [\u] escapes denote code units below 256.  Text
    with a code unit of 256 or more is outside their domain: the JSON
    reader fails on it and the form reader takes it for empty. *)

Module Reference.
Import Js Json.

Definition dq : ascii := ascii_of_nat 34.
Definition backslash : ascii := ascii_of_nat 92.
Definition newline : string := String (ascii_of_nat 10) EmptyString.
Definition str1 (c : ascii) : string := String c EmptyString.

Definition hexVal (c : ascii) : option N :=
  if between 48 57 c then Some (code c - 48)%N
  else if between 97 102 c then Some (code c - 87)%N
  else if between 65 70 c then Some (code c - 55)%N
  else None.

Definition hexDigitOf (upper : bool) (n : N) : ascii :=
  if (n <? 10)%N then ascii_of_N (48 + n)
  else ascii_of_N ((if upper then 55 else 87) + n).

(** *** Reading JSON *)

Fixpoint skipWs (s : string) : string :=
  match s with
  | String c r =>
      if (N.eqb (code c) 32 || N.eqb (code c) 9 || N.eqb (code c) 10
          || N.eqb (code c) 13)%bool
      then skipWs r else s
  | EmptyString => EmptyString
  end.

Definition unescape (e : ascii) : option ascii :=
  if Ascii.eqb e dq then Some dq
  else if Ascii.eqb e backslash then Some backslash
  else if Ascii.eqb e "/" then Some "/"%char
  else if Ascii.eqb e "b" then Some (ascii_of_nat 8)
  else if Ascii.eqb e "f" then Some (ascii_of_nat 12)
  else if Ascii.eqb e "n" then Some (ascii_of_nat 10)
  else if Ascii.eqb e "r" then Some (ascii_of_nat 13)
  else if Ascii.eqb e "t" then Some (ascii_of_nat 9)
  else None.

Definition hex4 (a b c d : ascii) : option N :=
  match hexVal a, hexVal b, hexVal c, hexVal d with
  | Some x, Some y, Some z, Some w => Some (((x * 16 + y) * 16 + z) * 16 + w)%N
  | _, _, _, _ => None
  end.

Definition consTo (c : ascii) (r : option (string * string))
  : option (string * string) :=
  match r with
  | Some (s, rest) => Some (String c s, rest)
  | None => None
  end.

(** The characters of a string, after its opening quote. *)
Fixpoint readString (s : string) : option (string * string) :=
  match s with
  | EmptyString => None
  | String c r =>
      if Ascii.eqb c dq then Some (EmptyString, r)
      else if Ascii.eqb c backslash then
        match r with
        | String e r' =>
            if Ascii.eqb e "u" then
              match r' with
              | String h1 (String h2 (String h3 (String h4 r''))) =>
                  match hex4 h1 h2 h3 h4 with
                  | Some n => if (n <? 256)%N
                              then consTo (ascii_of_N n) (readString r'')
                              else None
                  | None => None
                  end
              | _ => None
              end
            else match unescape e with
                 | Some ch => consTo ch (readString r')
                 | None => None
                 end
        | EmptyString => None
        end
      else if (code c <? 32)%N then None
      else consTo c (readString r)
  end.

Fixpoint takeDigits (s : string) : string * string :=
  match s with
  | String c r =>
      if between 48 57 c
      then let '(d, rest) := takeDigits r in (String c d, rest)
      else (EmptyString, s)
  | EmptyString => (EmptyString, EmptyString)
  end.

(** A numeral: sign, integer part without leading zero, fraction, exponent. *)
Definition readNumber (s : string) : option (string * string) :=
  let '(sign, s1) :=
    match s with
    | String c r => if Ascii.eqb c "-" then ("-", r) else (EmptyString, s)
    | EmptyString => (EmptyString, s)
    end in
  let intPart :=
    match s1 with
    | String c r =>
        if Ascii.eqb c "0" then Some ("0", r)
        else if between 49 57 c then Some (takeDigits s1)
        else None
    | EmptyString => None
    end in
  match intPart with
  | None => None
  | Some (i, s2) =>
      let frac :=
        match s2 with
        | String c r =>
            if Ascii.eqb c "." then
              let '(d, rest) := takeDigits r in
              if truthy d then Some ("." +:+ d, rest) else None
            else Some (EmptyString, s2)
        | EmptyString => Some (EmptyString, s2)
        end in
      match frac with
      | None => None
      | Some (f, s3) =>
          let expo :=
            match s3 with
            | String c r =>
                if (Ascii.eqb c "e" || Ascii.eqb c "E")%bool then
                  let '(sg, r1) :=
                    match r with
                    | String g r0 =>
                        if (Ascii.eqb g "+" || Ascii.eqb g "-")%bool
                        then (str1 g, r0) else (EmptyString, r)
                    | EmptyString => (EmptyString, r)
                    end in
                  let '(d, rest) := takeDigits r1 in
                  if truthy d then Some (str1 c +:+ sg +:+ d, rest) else None
                else Some (EmptyString, s3)
            | EmptyString => Some (EmptyString, s3)
            end in
          match expo with
          | None => None
          | Some (e, s4) => Some (sign +:+ i +:+ f +:+ e, s4)
          end
      end
  end.

(** Object construction: a repeated name keeps its first place and takes
    the last value; array-index names come first, in ascending order. *)
Fixpoint objPut (ms : list (string * json)) (k : string) (v : json)
  : list (string * json) :=
  match ms with
  | [] => [(k, v)]
  | (k', v') :: t =>
      if String.eqb k k' then (k', v) :: t else (k', v') :: objPut t k v
  end.

Fixpoint decimalValue (acc : N) (s : string) : N :=
  match s with
  | EmptyString => acc
  | String c r => decimalValue (acc * 10 + (code c - 48))%N r
  end.

Definition arrayIndex (k : string) : option N :=
  match k with
  | EmptyString => None
  | String c r =>
      if (forallChars (between 48 57) k
          && (negb (Ascii.eqb c "0") || String.eqb r EmptyString)
          && Nat.leb (String.length k) 10)%bool
      then let n := decimalValue 0 k in
           if (n <=? 4294967294)%N then Some n else None
      else None
  end.

Fixpoint insertIndexed (n : N) (kv : string * json)
  (l : list (N * (string * json))) : list (N * (string * json)) :=
  match l with
  | [] => [(n, kv)]
  | (m, kv') :: t =>
      if (n <? m)%N then (n, kv) :: l else (m, kv') :: insertIndexed n kv t
  end.

Definition propertyOrder (ms : list (string * json)) : list (string * json) :=
  let indexed :=
    fold_right
      (fun kv acc => match arrayIndex kv.1 with
                     | Some n => insertIndexed n kv acc
                     | None => acc
                     end) [] ms in
  map snd indexed
  ++ filter (fun kv => arrayIndex kv.1 = None) ms.

Definition mkObject (pairs : list (string * json)) : json :=
  JObj (propertyOrder (fold_left (fun ms kv => objPut ms kv.1 kv.2) pairs [])).

Fixpoint readValue (fuel : nat) (s : string) : option (json * string) :=
  match fuel with
  | O => None
  | S fuel' =>
      match skipWs s with
      | EmptyString => None
      | String c r =>
          if Ascii.eqb c "{" then
            match skipWs r with
            | String c' r' =>
                if Ascii.eqb c' "}" then Some (JObj [], r')
                else readMembers fuel' r []
            | EmptyString => None
            end
          else if Ascii.eqb c "[" then
            match skipWs r with
            | String c' r' =>
                if Ascii.eqb c' "]" then Some (JArr [], r')
                else readItems fuel' r []
            | EmptyString => None
            end
          else if Ascii.eqb c dq then
            match readString r with
            | Some (str, rest) => Some (JStr str, rest)
            | None => None
            end
          else if startsWith "true" (String c r)
               then Some (JBool true, string_of_list_ascii (skipn 4 (list_ascii_of_string (String c r))))
          else if startsWith "false" (String c r)
               then Some (JBool false, string_of_list_ascii (skipn 5 (list_ascii_of_string (String c r))))
          else if startsWith "null" (String c r)
               then Some (JNull, string_of_list_ascii (skipn 4 (list_ascii_of_string (String c r))))
          else match readNumber (String c r) with
               | Some (n, rest) => Some (JNum n, rest)
               | None => None
               end
      end
  end
with readItems (fuel : nat) (s : string) (acc : list json)
  : option (json * string) :=
  match fuel with
  | O => None
  | S fuel' =>
      match readValue fuel' s with
      | Some (v, rest) =>
          match skipWs rest with
          | String c r =>
              if Ascii.eqb c "," then readItems fuel' r (acc ++ [v])
              else if Ascii.eqb c "]" then Some (JArr (acc ++ [v]), r)
              else None
          | EmptyString => None
          end
      | None => None
      end
  end
with readMembers (fuel : nat) (s : string) (acc : list (string * json))
  : option (json * string) :=
  match fuel with
  | O => None
  | S fuel' =>
      match skipWs s with
      | String q r =>
          if Ascii.eqb q dq then
            match readString r with
            | Some (k, rest) =>
                match skipWs rest with
                | String colon r1 =>
                    if Ascii.eqb colon ":" then
                      match readValue fuel' r1 with
                      | Some (v, rest') =>
                          match skipWs rest' with
                          | String c r2 =>
                              if Ascii.eqb c ","
                              then readMembers fuel' r2 (acc ++ [(k, v)])
                              else if Ascii.eqb c "}"
                              then Some (mkObject (acc ++ [(k, v)]), r2)
                              else None
                          | EmptyString => None
                          end
                      | None => None
                      end
                    else None
                | EmptyString => None
                end
            | None => None
            end
          else None
      | EmptyString => None
      end
  end.

Definition parse (text : string) : option json :=
  match readValue (2 * String.length text + 2) text with
  | Some (v, rest) =>
      match skipWs rest with
      | EmptyString => Some v
      | String _ _ => None
      end
  | None => None
  end.

(** *** Printing JSON with a two-space indent *)

Definition escapeChar (c : ascii) : string :=
  if Ascii.eqb c dq then String backslash (str1 dq)
  else if Ascii.eqb c backslash then String backslash (str1 backslash)
  else if N.eqb (code c) 8 then String backslash "b"
  else if N.eqb (code c) 12 then String backslash "f"
  else if N.eqb (code c) 10 then String backslash "n"
  else if N.eqb (code c) 13 then String backslash "r"
  else if N.eqb (code c) 9 then String backslash "t"
  else if (code c <? 32)%N then
    String backslash
      ("u00" +:+ String (hexDigitOf false (code c / 16))
                   (str1 (hexDigitOf false (code c mod 16))))
  else str1 c.

Fixpoint escape (s : string) : string :=
  match s with
  | EmptyString => EmptyString
  | String c r => escapeChar c +:+ escape r
  end.

Definition quote (s : string) : string := String dq (escape s +:+ str1 dq).

Fixpoint print (indent : string) (v : json) : string :=
  let inner := indent +:+ "  " in
  match v with
  | JNull => "null"
  | JBool true => "true"
  | JBool false => "false"
  | JNum n => n
  | JStr s => quote s
  | JArr [] => "[]"
  | JArr items =>
      "[" +:+ newline +:+ inner
      +:+ join ("," +:+ newline +:+ inner) (map (print inner) items)
      +:+ newline +:+ indent +:+ "]"
  | JObj [] => "{}"
  | JObj members =>
      "{" +:+ newline +:+ inner
      +:+ join ("," +:+ newline +:+ inner)
            (map (fun kv : string * json =>
                    let '(k, x) := kv in quote k +:+ ": " +:+ print inner x)
                 members)
      +:+ newline +:+ indent +:+ "}"
  end.

Definition stringify2 (v : json) : string := print EmptyString v.

(** *** application/x-www-form-urlencoded *)

Fixpoint plusToSpace (s : string) : string :=
  match s with
  | EmptyString => EmptyString
  | String c r => String (if Ascii.eqb c "+" then " "%char else c) (plusToSpace r)
  end.

Fixpoint percentDecode (s : string) : string :=
  match s with
  | EmptyString => EmptyString
  | String c r =>
      if Ascii.eqb c "%" then
        match r with
        | String a (String b r') =>
            match hexVal a, hexVal b with
            | Some x, Some y => String (ascii_of_N (x * 16 + y)) (percentDecode r')
            | _, _ => String c (percentDecode r)
            end
        | _ => String c (percentDecode r)
        end
      else String c (percentDecode r)
  end.

(** The part before the first [=] and the part after it. *)
Fixpoint cutAtEquals (s : string) : string * string :=
  match s with
  | EmptyString => (EmptyString, EmptyString)
  | String c r =>
      if Ascii.eqb c "=" then (EmptyString, r)
      else let '(n, v) := cutAtEquals r in (String c n, v)
  end.

Definition formParse (text : string) : list (string * string) :=
  let input := match text with
               | String c r => if Ascii.eqb c "?" then r else text
               | EmptyString => text
               end in
  map (fun item =>
         let '(n, v) := cutAtEquals item in
         (percentDecode (plusToSpace n), percentDecode (plusToSpace v)))
      (filter (fun item => truthy item = true) (split "&" input)).

Definition percentByte (n : N) : string :=
  String "%" (String (hexDigitOf true (n / 16)) (str1 (hexDigitOf true (n mod 16)))).

Definition formEncodeChar (c : ascii) : string :=
  if N.eqb (code c) 32 then "+"
  else if (between 48 57 c || between 65 90 c || between 97 122 c
           || Ascii.eqb c "*" || Ascii.eqb c "-" || Ascii.eqb c "."
           || Ascii.eqb c "_")%bool then str1 c
  else if (code c <? 128)%N then percentByte (code c)
  else percentByte (192 + code c / 64) +:+ percentByte (128 + code c mod 64).

Fixpoint formEncode (s : string) : string :=
  match s with
  | EmptyString => EmptyString
  | String c r => formEncodeChar c +:+ formEncode r
  end.

Definition formToString (ps : list (string * string)) : string :=
  join "&" (map (fun kv : string * string =>
                   formEncode kv.1 +:+ "=" +:+ formEncode kv.2) ps).

(** *** URLs and numbers

    Exact on absolute [http] and [https] URLs in lower case that carry no
    credentials, default port, fragment, dot segment or character in need
    of escaping, and on port texts made of decimal digits. *)

Fixpoint takeUntil (stop : ascii -> bool) (s : string) : string * string :=
  match s with
  | EmptyString => (EmptyString, EmptyString)
  | String c r =>
      if stop c then (EmptyString, s)
      else let '(a, b) := takeUntil stop r in (String c a, b)
  end.

Definition dropChars (n : nat) (s : string) : string :=
  string_of_list_ascii (skipn n (list_ascii_of_string s)).

Definition urlParse (s : string) : option Url.t :=
  let scheme :=
    if startsWith "http://" s then Some ("http:", dropChars 7 s)
    else if startsWith "https://" s then Some ("https:", dropChars 8 s)
    else None in
  match scheme with
  | None => None
  | Some (proto, rest) =>
      let '(authority, rest1) :=
        takeUntil (fun c => (Ascii.eqb c "/" || Ascii.eqb c "?"
                             || Ascii.eqb c "#")%bool) rest in
      let '(path, rest2) :=
        takeUntil (fun c => (Ascii.eqb c "?" || Ascii.eqb c "#")%bool) rest1 in
      let '(query, _) := takeUntil (fun c => Ascii.eqb c "#") rest2 in
      let '(name, portPart) := takeUntil (fun c => Ascii.eqb c ":") authority in
      let pathname := if truthy path then path else "/" in
      let search := if String.eqb query "?" then EmptyString else query in
      if truthy name then
        Some {| Url.href := proto +:+ "//" +:+ authority +:+ pathname +:+ search;
                Url.protocol := proto;
                Url.host := authority;
                Url.hostname := name;
                Url.port := dropChars 1 portPart;
                Url.pathname := pathname;
                Url.search := search;
                Url.searchParams := formParse search |}
      else None
  end.

Definition numberTruthy (s : string) : option string :=
  if (forallChars (between 48 57) s && truthy s)%bool then
    let n := decimalValue 0 s in
    if (n =? 0)%N then None
    else Some (NilZero.string_of_uint (N.to_uint n))
  else None.

Definition runtime : Runtime :=
  {| JSON_parse := fun t => narrow t ≫= parse;
     JSON_stringify2 := fun v => widen (stringify2 v);
     URLSearchParams_parse :=
       fun t => formParse (default EmptyString (narrow t));
     URLSearchParams_toString := fun ps => widen (formToString ps) |}.

End Reference.

(** ** The LogRecord model (packages/shared) *)

Module Body.
Record t : Type := { mime : option string; text : option Js.text16 }.
End Body.

Module Request.
Record t : Type := {
  headers : gmap string string;
  query : option (gmap string string);
  body : option Body.t
}.
End Request.

Module Response.
Record t : Type := {
  headers : option (gmap string string);
  body : option Body.t
}.
End Response.

Module Log.
Record t : Type := {
  id : string;
  ts : Z;
  method : string;
  url : string;
  host : string;
  path : string;
  status : option Z;
  durationMs : option Z;
  request : Request.t;
  response : option Response.t
}.
End Log.

(** ** sanitize.ts *)

Module Sanitize.
Import Js Json.

Definition DEFAULT_MASK : string := "***redacted***".

Definition SENSITIVE_HEADERS : gset string :=
  list_to_set
    ["authorization"; "proxy-authorization"; "cookie"; "set-cookie";
     "x-api-key"; "x-auth-token"; "x-csrf-token"; "x-xsrf-token";
     "x-amz-security-token"].

Definition SENSITIVE_QUERY_KEYS : list string :=
  ["token"; "access_token"; "refresh_token"; "id_token"; "api_key";
   "apikey"; "key"; "code"; "password"; "passwd"; "secret"; "signature";
   "sig"].

Definition SENSITIVE_JSON_KEY_PATTERNS : list string :=
  ["password"; "passwd"; "secret"; "token"; "refresh"; "access";
   "authorization"; "cookie"; "apikey"; "api_key"; "session"; "csrf";
   "xsrf"].

Definition redactValue (_v : json) : string := DEFAULT_MASK.

Definition sensitiveHeader (k : string) : bool :=
  bool_decide (toLowerCase k ∈ SENSITIVE_HEADERS).

Definition maskHeaders (headers : gmap string string) : gmap string string :=
  map_imap
    (fun k v => Some (if sensitiveHeader k then DEFAULT_MASK else v))
    headers.

Definition queryHit (k : string) : bool :=
  let key := toLowerCase k in
  existsb (fun s => (String.eqb key s || endsWith ("_" +:+ s) key
                     || includes s key)%bool)
          SENSITIVE_QUERY_KEYS.

Definition maskQuery (query : gmap string string) : gmap string string :=
  map_imap (fun k v => Some (if queryHit k then DEFAULT_MASK else v)) query.

Definition shouldMaskJsonKey (key : string) : bool :=
  let k := toLowerCase key in
  existsb (fun p => (String.eqb k p || includes p k)%bool)
          SENSITIVE_JSON_KEY_PATTERNS.

Fixpoint deepMaskJson (value : json) : json :=
  match value with
  | JArr items => JArr (map deepMaskJson items)
  | JObj members =>
      JObj (map (fun kv : string * json =>
                   let '(k, v) := kv in
                   (k, if shouldMaskJsonKey k then JStr (redactValue v)
                       else deepMaskJson v))
                members)
  | _ => value
  end.

(** [URLSearchParams.prototype.set]: the first pair of that name takes the
    value and the later ones go; without one, the pair is appended. *)
Fixpoint dropName (name : string) (ps : list (string * string))
  : list (string * string) :=
  match ps with
  | [] => []
  | (k, v) :: t =>
      if String.eqb k name then dropName name t else (k, v) :: dropName name t
  end.

Fixpoint paramsSet (ps : list (string * string)) (name value : string)
  : list (string * string) :=
  match ps with
  | [] => [(name, value)]
  | (k, v) :: t =>
      if String.eqb k name then (k, value) :: dropName name t
      else (k, v) :: paramsSet t name value
  end.

Definition formHit (key : string) : bool :=
  let k := toLowerCase key in
  existsb (fun s => (String.eqb k s || includes s k)%bool)
          SENSITIVE_QUERY_KEYS.

(** [for (const key of params.keys())]: the iterator walks the live list by
    position while [set] rewrites it. *)
Fixpoint maskParams (fuel i : nat) (ps : list (string * string))
  : list (string * string) :=
  match fuel with
  | O => ps
  | S fuel' =>
      match nth_error ps i with
      | None => ps
      | Some (key, _) =>
          maskParams fuel' (S i)
            (if formHit key then paramsSet ps key DEFAULT_MASK else ps)
      end
  end.

Section WithRuntime.
Variable rt : Runtime.

Definition maskJsonText (text : text16) : text16 :=
  match JSON_parse rt text with
  | Some data => JSON_stringify2 rt (deepMaskJson data)
  | None => text
  end.

Definition maskForm (text : text16) : text16 :=
  let params := URLSearchParams_parse rt text in
  URLSearchParams_toString rt (maskParams (length params) 0 params).

(** [(body.mime || EmptyString).toLowerCase()] and [body.text || EmptyString] *)
Definition mimeOf (body : Body.t) : string :=
  toLowerCase (default EmptyString (Body.mime body)).
Definition textOf (body : Body.t) : text16 :=
  default [] (Body.text body).

Definition isForm (body : Body.t) : bool :=
  includes "application/x-www-form-urlencoded" (mimeOf body).

Definition looksJson (body : Body.t) : bool :=
  (includes "application/json" (mimeOf body)
   || startsWith16 (widen "{") (trim16 (textOf body))
   || startsWith16 (widen "[") (trim16 (textOf body)))%bool.

Definition maskBody (body : Body.t) : Body.t :=
  if isForm body then
    {| Body.mime := Body.mime body; Body.text := Some (maskForm (textOf body)) |}
  else if looksJson body then
    {| Body.mime := Body.mime body;
       Body.text := Some (maskJsonText (textOf body)) |}
  else body.

Definition sanitizeLog (log : Log.t) : Log.t :=
  {| Log.id := Log.id log;
     Log.ts := Log.ts log;
     Log.method := Log.method log;
     Log.url := Log.url log;
     Log.host := Log.host log;
     Log.path := Log.path log;
     Log.status := Log.status log;
     Log.durationMs := Log.durationMs log;
     Log.request :=
       {| Request.headers := maskHeaders (Request.headers (Log.request log));
          Request.query := maskQuery <$> Request.query (Log.request log);
          Request.body := maskBody <$> Request.body (Log.request log) |};
     Log.response :=
       (fun r : Response.t =>
          {| Response.headers := maskHeaders <$> Response.headers r;
             Response.body := maskBody <$> Response.body r |})
       <$> Log.response log |}.

End WithRuntime.
End Sanitize.

(** Redaction as the specification words it (section 4.2 and section 8). *)
Module SanitizeSpec.
Import Js Json Sanitize.










End SanitizeSpec.

(** ** Buffers and their UTF-8 reading

    [buf.toString("utf8")]: the decoder of the Encoding standard without its
    byte-order-mark step; an ill-formed sequence gives U+FFFD for each
    maximal part, and a code point above U+FFFF gives a surrogate pair. *)

Module Utf8.

Record dstate : Type := {
  needed : N;
  seen : N;
  codePoint : N;
  lower : N;
  upper : N
}.

Definition initial : dstate :=
  {| needed := 0; seen := 0; codePoint := 0; lower := 128; upper := 191 |}.

Definition replacement : N := 65533.

Definition utf16 (c : N) : list N :=
  if (c <? 65536)%N then [c]
  else [(55296 + (c - 65536) / 1024)%N; (56320 + (c - 65536) mod 1024)%N].

(** A byte met when no sequence is open. *)
Definition lead (b : N) : dstate * list N :=
  if (b <=? 127)%N then (initial, [b])
  else if ((194 <=? b) && (b <=? 223))%N then
    ({| needed := 1; seen := 0; codePoint := N.land b 31;
        lower := 128; upper := 191 |}, [])
  else if ((224 <=? b) && (b <=? 239))%N then
    ({| needed := 2; seen := 0; codePoint := N.land b 15;
        lower := if (b =? 224)%N then 160 else 128;
        upper := if (b =? 237)%N then 159 else 191 |}, [])
  else if ((240 <=? b) && (b <=? 244))%N then
    ({| needed := 3; seen := 0; codePoint := N.land b 7;
        lower := if (b =? 240)%N then 144 else 128;
        upper := if (b =? 244)%N then 143 else 191 |}, [])
  else (initial, [replacement]).

Definition stepByte (st : dstate) (b : N) : dstate * list N :=
  if (needed st =? 0)%N then lead b
  else if ((lower st <=? b) && (b <=? upper st))%N then
    let c := N.lor (N.shiftl (codePoint st) 6) (N.land b 63) in
    if (seen st + 1 =? needed st)%N then (initial, utf16 c)
    else ({| needed := needed st; seen := seen st + 1; codePoint := c;
             lower := 128; upper := 191 |}, [])
  else
    (* the open sequence is given up and the byte is read again *)
    let '(st', out) := lead b in (st', replacement :: out).

Fixpoint decodeFrom (st : dstate) (bs : list Byte.byte) : Js.text16 :=
  match bs with
  | [] => if (needed st =? 0)%N then [] else [replacement]
  | b :: r =>
      let '(st', out) := stepByte st (Byte.to_N b) in
      out ++ decodeFrom st' r
  end.

Definition toString (bs : list Byte.byte) : Js.text16 := decodeFrom initial bs.

End Utf8.


(** ** proxy.ts: the forward proxy *)

Module Proxy.
Import Js.

(** A header value as Node hands it over: one string, or a list of them. *)
Inductive hval : Type :=
| HStr (s : string)
| HArr (l : list string).

(** [String(v)]: an array prints as its items joined by commas. *)
Definition String_ (v : hval) : string :=
  match v with
  | HStr s => s
  | HArr l => join "," l
  end.

(** Truthiness of a header value: only the empty string is falsy. *)
Definition truthyV (v : hval) : bool :=
  match v with
  | HStr s => truthy s
  | HArr _ => true
  end.

Definition HOP_BY_HOP : gset string :=
  list_to_set
    ["connection"; "proxy-connection"; "keep-alive"; "transfer-encoding";
     "te"; "trailer"; "upgrade"].

(** [headers["connection"] ?? headers["Connection"]] *)
Definition connectionValue (headers : gmap string hval) : option hval :=
  match headers !! "connection" with
  | Some v => Some v
  | None => headers !! "Connection"
  end.

(** The names the [Connection] value lists: split at commas, trimmed,
    lower-cased, empty items dropped. *)
Definition connectionTokens (conn : hval) : list string :=
  filter (fun s => truthy s = true)
         (map (fun s => toLowerCase (trim s)) (split "," (String_ conn))).

(** The body of the [forEach]: both deletions. *)
Definition deleteListed (headers : gmap string hval) (h : string)
  : gmap string hval :=
  delete (toLowerCase h) (delete h headers).

(** [stripHopByHop] updates its argument in place; the embedding returns the
    updated map. *)
Definition stripHopByHop (headers : gmap string hval) : gmap string hval :=
  let listed :=
    match connectionValue headers with
    | Some conn =>
        if truthyV conn then foldl deleteListed headers (connectionTokens conn)
        else headers
    | None => headers
    end in
  let fixed :=
    filter (fun kv : string * hval => toLowerCase kv.1 ∉ HOP_BY_HOP) listed in
  delete "Proxy-Connection"
    (delete "proxy-connection"
       (delete "Connection" (delete "connection" fixed))).

Definition headersToRecord (h : gmap string hval) : gmap string string :=
  (fun v => match v with
            | HStr s => s
            | HArr l => join ", " l
            end) <$> h.

(** *** The bounded tee *)

Definition BODY_LIMIT : nat := 64 * 1024.
Definition UPSTREAM_TIMEOUT_MS : Z := 15000.

Module Tee.
Record t : Type := { chunks : list (list Byte.byte); size : nat }.
Definition empty : t := {| chunks := []; size := 0 |}.
End Tee.

(** The [data] listener: [chunk.subarray(0, remain)] is kept while the
    running size is below the limit; the size always grows by the whole
    chunk. *)
Definition onData (t : Tee.t) (chunk : list Byte.byte) : Tee.t :=
  {| Tee.chunks :=
       if Nat.ltb (Tee.size t) BODY_LIMIT
       then Tee.chunks t ++ [firstn (BODY_LIMIT - Tee.size t) chunk]
       else Tee.chunks t;
     Tee.size := Tee.size t + length chunk |}.

Definition captureLimitedText (chunks : list (list Byte.byte)) : text16 :=
  match chunks with
  | [] => []
  | _ => Utf8.toString (concat chunks)
  end.

(** *** The request handler *)

Module ClientReq.
Record t : Type := {
  method : option string;
  url : option string;
  headers : gmap string hval
}.
End ClientReq.

(** [a || b] on strings that may be missing. *)
Definition orElse (a : option string) (b : string) : string :=
  match a with
  | Some s => if truthy s then s else b
  | None => b
  end.

(** [String(headers["content-type"] || EmptyString)] *)
Definition contentType (h : gmap string hval) : string :=
  match h !! "content-type" with
  | Some v => if truthyV v then String_ v else EmptyString
  | None => EmptyString
  end.

(** [Object.fromEntries]: a later entry replaces an earlier one. *)
Definition fromEntries (entries : list (string * string)) : gmap string string :=
  foldl (fun m kv => <[kv.1 := kv.2]> m) ∅ entries.

Module Ctx.
(** What the closures of one exchange share: [id], [ts], [start], the client
    request and the target URL. *)
Record t : Type := {
  id : string;
  ts : Z;
  start : Z;
  clientReq : ClientReq.t;
  targetUrl : Url.t
}.
End Ctx.

Module Upstream.
(** The upstream response once its headers are in. *)
Record t : Type := {
  statusCode : option Z;
  headers : gmap string hval;
  body : Tee.t
}.
End Upstream.

Module Exchange.
(** The mutable state of one exchange: the [done] flag, what the client
    response has been told, both tees, and the records pushed so far. *)
Record t : Type := {
  done : bool;
  headersSent : bool;
  clientStatus : option Z;
  clientDestroyed : bool;
  reqBody : Tee.t;
  upstream : option Upstream.t;
  pushed : list Log.t
}.
Definition fresh : t :=
  {| done := false; headersSent := false; clientStatus := None;
     clientDestroyed := false; reqBody := Tee.empty; upstream := None;
     pushed := [] |}.
End Exchange.

Module Connect.
Record ctx : Type := {
  id : string;
  ts : Z;
  start : Z;
  url : option string;
  headers : gmap string hval
}.
Record state : Type := { finished : bool; pushed : list Log.t }.
Definition fresh : state := {| finished := false; pushed := [] |}.
End Connect.

Section Handlers.
(** [new URL(text)], with [None] for the exception. *)
Variable URL_parse : string -> option Url.t.
(** The printed form of [Number(text)] when that number is neither zero nor
    NaN. *)
Variable Number_truthy : string -> option string.

Definition safeUrlFromRequest (req : ClientReq.t) : option Url.t :=
  let raw := default EmptyString (ClientReq.url req) in
  match URL_parse raw with
  | Some u => Some u
  | None =>
      match ClientReq.headers req !! "host" with
      | Some host =>
          if truthyV host then
            URL_parse ("http://" +:+ String_ host
                       +:+ (if startsWith "/" raw then raw else "/" +:+ raw))
          else None
      | None => None
      end
  end.



(** How the request listener starts: no usable URL is answered with 400 and
    nothing else happens; a protocol other than that of the agent makes
    [request] throw; otherwise the exchange is under way. *)
Inductive accepted : Type :=
| BadRequest
| RequestThrew
| Started (c : Ctx.t).

Definition accept (id : string) (ts start : Z) (req : ClientReq.t) : accepted :=
  match safeUrlFromRequest req with
  | None => BadRequest
  | Some u =>
      if (String.eqb (Url.protocol u) "https:"
          || String.eqb (Url.protocol u) "http:")%bool
      then Started {| Ctx.id := id; Ctx.ts := ts; Ctx.start := start;
                      Ctx.clientReq := req; Ctx.targetUrl := u |}
      else RequestThrew
  end.

(** The record of the success path ([upstreamRes] has ended). *)
Definition successLog (c : Ctx.t) (now : Z) (reqBodyChunks : list (list Byte.byte))
  (up : Upstream.t) : Log.t :=
  {| Log.id := Ctx.id c;
     Log.ts := Ctx.ts c;
     Log.method := orElse (ClientReq.method (Ctx.clientReq c)) "GET";
     Log.url := Url.href (Ctx.targetUrl c);
     Log.host := Url.host (Ctx.targetUrl c);
     Log.path := Url.pathname (Ctx.targetUrl c);
     Log.status := Upstream.statusCode up;
     Log.durationMs := Some (now - Ctx.start c)%Z;
     Log.request :=
       {| Request.headers := headersToRecord (ClientReq.headers (Ctx.clientReq c));
          Request.query := Some (fromEntries (Url.searchParams (Ctx.targetUrl c)));
          Request.body :=
            Some {| Body.mime := Some (contentType (ClientReq.headers (Ctx.clientReq c)));
                    Body.text := Some (captureLimitedText reqBodyChunks) |} |};
     Log.response :=
       Some {| Response.headers := Some (headersToRecord (Upstream.headers up));
               Response.body :=
                 Some {| Body.mime := Some (contentType (Upstream.headers up));
                         Body.text :=
                           Some (captureLimitedText (Tee.chunks (Upstream.body up))) |} |} |}.

(** The minimal record pushed by the [error] listener of [upstreamReq]. *)
Definition failureLog (c : Ctx.t) (now : Z) (err : Err.t) : Log.t :=
  {| Log.id := Ctx.id c;
     Log.ts := Ctx.ts c;
     Log.method := orElse (ClientReq.method (Ctx.clientReq c)) "GET";
     Log.url := Url.href (Ctx.targetUrl c);
     Log.host := Url.host (Ctx.targetUrl c);
     Log.path := Url.pathname (Ctx.targetUrl c);
     Log.status := Some 502%Z;
     Log.durationMs := Some (now - Ctx.start c)%Z;
     Log.request :=
       {| Request.headers := headersToRecord (ClientReq.headers (Ctx.clientReq c));
          Request.query := Some (fromEntries (Url.searchParams (Ctx.targetUrl c)));
          Request.body := None |};
     Log.response :=
       Some {| Response.headers := Some ∅;
               Response.body :=
                 Some {| Body.mime := Some "text/plain";
                         Body.text :=
                           Some (widen ("Bad Gateway: "
                                        +:+ default EmptyString (Err.code err)
                                        +:+ " "
                                        +:+ default EmptyString (Err.message err))) |} |} |}.


(** What the runtime delivers to the listeners of one exchange.  The timer
    of [setTimeout] destroys the upstream request with an [ETIMEDOUT] error,
    which the runtime delivers to the [error] listener. *)
Inductive event : Type :=
| ClientData (chunk : list Byte.byte)
| UpstreamResponse (statusCode : option Z) (headers : gmap string hval)
| UpstreamData (chunk : list Byte.byte)
| UpstreamEnd (now : Z)
| UpstreamResError (err : Err.t)
| UpstreamReqError (now : Z) (err : Err.t)
| UpstreamTimeout (now : Z).

Definition timeoutError : Err.t :=
  {| Err.code := Some "ETIMEDOUT"; Err.message := Some "upstream timeout" |}.

(** [finishOnce]: [false] when the exchange is already done; otherwise it
    is marked done and the answer is [true]. *)
Definition finishOnce (st : Exchange.t) : Exchange.t * bool :=
  if Exchange.done st then (st, false)
  else ({| Exchange.done := true;
           Exchange.headersSent := Exchange.headersSent st;
           Exchange.clientStatus := Exchange.clientStatus st;
           Exchange.clientDestroyed := Exchange.clientDestroyed st;
           Exchange.reqBody := Exchange.reqBody st;
           Exchange.upstream := Exchange.upstream st;
           Exchange.pushed := Exchange.pushed st |}, true).

(** [safeFail]: at most once; a response already started is torn down,
    otherwise the status is written. *)
Definition safeFail (st : Exchange.t) (status : Z) : Exchange.t :=
  let '(st1, first) := finishOnce st in
  if negb first then st1
  else if Exchange.headersSent st1 then
    {| Exchange.done := Exchange.done st1;
       Exchange.headersSent := Exchange.headersSent st1;
       Exchange.clientStatus := Exchange.clientStatus st1;
       Exchange.clientDestroyed := true;
       Exchange.reqBody := Exchange.reqBody st1;
       Exchange.upstream := Exchange.upstream st1;
       Exchange.pushed := Exchange.pushed st1 |}
  else
    {| Exchange.done := Exchange.done st1;
       Exchange.headersSent := true;
       Exchange.clientStatus := Some status;
       Exchange.clientDestroyed := Exchange.clientDestroyed st1;
       Exchange.reqBody := Exchange.reqBody st1;
       Exchange.upstream := Exchange.upstream st1;
       Exchange.pushed := Exchange.pushed st1 |}.

Definition pushLog (st : Exchange.t) (log : Log.t) : Exchange.t :=
  {| Exchange.done := Exchange.done st;
     Exchange.headersSent := Exchange.headersSent st;
     Exchange.clientStatus := Exchange.clientStatus st;
     Exchange.clientDestroyed := Exchange.clientDestroyed st;
     Exchange.reqBody := Exchange.reqBody st;
     Exchange.upstream := Exchange.upstream st;
     Exchange.pushed := Exchange.pushed st ++ [log] |}.

(** The [error] listener of [upstreamReq]. *)
Definition onUpstreamReqError (c : Ctx.t) (st : Exchange.t) (now : Z)
  (err : Err.t) : Exchange.t :=
  pushLog (safeFail st 502) (failureLog c now err).

Definition step (c : Ctx.t) (st : Exchange.t) (e : event) : Exchange.t :=
  match e with
  | ClientData chunk =>
      {| Exchange.done := Exchange.done st;
         Exchange.headersSent := Exchange.headersSent st;
         Exchange.clientStatus := Exchange.clientStatus st;
         Exchange.clientDestroyed := Exchange.clientDestroyed st;
         Exchange.reqBody := onData (Exchange.reqBody st) chunk;
         Exchange.upstream := Exchange.upstream st;
         Exchange.pushed := Exchange.pushed st |}
  | UpstreamResponse sc hs =>
      {| Exchange.done := Exchange.done st;
         Exchange.headersSent := true;
         Exchange.clientStatus :=
           if Exchange.headersSent st then Exchange.clientStatus st
           else Some (default 0%Z sc);
         Exchange.clientDestroyed := Exchange.clientDestroyed st;
         Exchange.reqBody := Exchange.reqBody st;
         Exchange.upstream :=
           Some {| Upstream.statusCode := sc; Upstream.headers := hs;
                   Upstream.body := Tee.empty |};
         Exchange.pushed := Exchange.pushed st |}
  | UpstreamData chunk =>
      match Exchange.upstream st with
      | Some up =>
          {| Exchange.done := Exchange.done st;
             Exchange.headersSent := Exchange.headersSent st;
             Exchange.clientStatus := Exchange.clientStatus st;
             Exchange.clientDestroyed := Exchange.clientDestroyed st;
             Exchange.reqBody := Exchange.reqBody st;
             Exchange.upstream :=
               Some {| Upstream.statusCode := Upstream.statusCode up;
                       Upstream.headers := Upstream.headers up;
                       Upstream.body := onData (Upstream.body up) chunk |};
             Exchange.pushed := Exchange.pushed st |}
      | None => st
      end
  | UpstreamEnd now =>
      match Exchange.upstream st with
      | Some up =>
          let '(st1, first) := finishOnce st in
          if negb first then st1
          else pushLog st1
                 (successLog c now (Tee.chunks (Exchange.reqBody st1)) up)
      | None => st
      end
  | UpstreamResError err =>
      match Exchange.upstream st with
      | Some _ => safeFail st 502
      | None => st
      end
  | UpstreamReqError now err => onUpstreamReqError c st now err
  | UpstreamTimeout now => onUpstreamReqError c st now timeoutError
  end.

Definition run (c : Ctx.t) (events : list event) : Exchange.t :=
  foldl (step c) Exchange.fresh events.

(** *** The CONNECT handler *)


(** [const [host, portStr] = (req.url || EmptyString).split(":")] *)
Definition connectHost (c : Connect.ctx) : string :=
  hd EmptyString (split ":" (orElse (Connect.url c) EmptyString)).

Definition connectPortStr (c : Connect.ctx) : option string :=
  nth_error (split ":" (orElse (Connect.url c) EmptyString)) 1.

(** [Number(portStr || 443) || 443], printed. *)
Definition connectPort (c : Connect.ctx) : string :=
  match connectPortStr c with
  | Some s => if truthy s then default "443" (Number_truthy s) else "443"
  | None => "443"
  end.

Definition connectLog (c : Connect.ctx) (now : Z) (status : Z) : Log.t :=
  {| Log.id := Connect.id c;
     Log.ts := Connect.ts c;
     Log.method := "CONNECT";
     Log.url := "https://" +:+ connectHost c +:+ ":" +:+ connectPort c;
     Log.host := connectHost c +:+ ":" +:+ connectPort c;
     Log.path := EmptyString;
     Log.status := Some status;
     Log.durationMs := Some (now - Connect.start c)%Z;
     Log.request :=
       {| Request.headers := headersToRecord (Connect.headers c);
          Request.query := None;
          Request.body := None |};
     Log.response :=
       Some {| Response.headers := Some ∅;
               Response.body :=
                 Some {| Body.mime := Some EmptyString;
                         Body.text := Some [] |} |} |}.

Definition finish (c : Connect.ctx) (st : Connect.state) (now status : Z)
  : Connect.state :=
  if Connect.finished st then st
  else {| Connect.finished := true;
          Connect.pushed := Connect.pushed st ++ [connectLog c now status] |}.

(** The tunnel is up ([finish(200)]) or a socket failed ([finish(502)]). *)
Inductive connectEvent : Type :=
| Connected (now : Z)
| SocketError (now : Z).

Definition connectStep (c : Connect.ctx) (st : Connect.state)
  (e : connectEvent) : Connect.state :=
  match e with
  | Connected now => finish c st now 200
  | SocketError now => finish c st now 502
  end.

Definition connectRun (c : Connect.ctx) (events : list connectEvent)
  : Connect.state :=
  foldl (connectStep c) Connect.fresh events.

End Handlers.

End Proxy.

(** ** mitmProxy.ts *)

Module Mitm.
Import Js Proxy.

Definition BODY_LIMIT : nat := 64 * 1024.

(** [toRecord]: names are lower-cased on the way; a later header of the same
    lower-case name replaces the earlier one. *)
Definition toRecord (headers : option (list (string * hval)))
  : gmap string string :=
  match headers with
  | None => ∅
  | Some entries =>
      foldl (fun out kv =>
               <[toLowerCase kv.1 :=
                   match kv.2 with
                   | HStr s => s
                   | HArr l => join ", " l
                   end]> out)
            ∅ entries
  end.

Definition captureLimited (buf : list (list Byte.byte)) : text16 :=
  Utf8.toString (firstn BODY_LIMIT (concat buf)).

(** The [data] listeners: the whole chunk is kept while what has been kept
    is below the limit. *)
Definition onChunk (kept : list (list Byte.byte)) (chunk : list Byte.byte)
  : list (list Byte.byte) :=
  if Nat.ltb (length (concat kept)) BODY_LIMIT then kept ++ [chunk] else kept.

Module Req.
Record t : Type := {
  method : option string;
  url : option string;
  headers : list (string * hval)
}.
End Req.

Module Res.
Record t : Type := {
  statusCode : option Z;
  headers : option (list (string * hval))
}.
End Res.

Definition headerOf (name : string) (entries : list (string * hval)) : string :=
  match Json.assoc name entries with
  | Some v => if truthyV v then String_ v else EmptyString
  | None => EmptyString
  end.

Section WithUrl.
Variable URL_parse : string -> option Url.t.

Definition fullUrl (isSSL : bool) (req : Req.t) : string :=
  (if isSSL then "https" else "http") +:+ "://"
  +:+ headerOf "host" (Req.headers req)
  +:+ default EmptyString (Req.url req).

(** The record built by [onResponseEnd]; [new URL(fullUrl)] may throw, and
    then nothing is pushed. *)
Definition log (id : string) (ts start now : Z) (isSSL : bool) (req : Req.t)
  (res : option Res.t) (reqChunks resChunks : list (list Byte.byte))
  : option Log.t :=
  match URL_parse (fullUrl isSSL req) with
  | None => None
  | Some urlObj =>
      Some
        {| Log.id := id;
           Log.ts := ts;
           Log.method := orElse (Req.method req) "GET";
           Log.url := fullUrl isSSL req;
           Log.host := Url.host urlObj;
           Log.path := Url.pathname urlObj;
           Log.status := res ≫= Res.statusCode;
           Log.durationMs := Some (now - start)%Z;
           Log.request :=
             {| Request.headers := toRecord (Some (Req.headers req));
                Request.query := Some (fromEntries (Url.searchParams urlObj));
                Request.body :=
                  Some {| Body.mime :=
                            Some (headerOf "content-type" (Req.headers req));
                          Body.text := Some (captureLimited reqChunks) |} |};
           Log.response :=
             Some {| Response.headers := Some (toRecord (res ≫= Res.headers));
                     Response.body :=
                       Some {| Body.mime :=
                                 Some (headerOf "content-type"
                                         (default [] (res ≫= Res.headers)));
                               Body.text := Some (captureLimited resChunks) |} |} |}
  end.

End WithUrl.
End Mitm.

(** Hop-by-hop removal as the specification words it. *)
Module ProxySpec.
Import Js Proxy.




End ProxySpec.

(** Invariants of the LogRecord as the specification states them
    (sections 3 and 8). *)
Module LogSpec.

(** Body text, where there is one, is at most [limit] code units long. *)
Definition requestTextWithin (limit : Z) (log : Log.t) : Prop :=
  forall b t,
    Request.body (Log.request log) = Some b -> Body.text b = Some t ->
    (Z.of_nat (length t) <= limit)%Z.

Definition responseTextWithin (limit : Z) (log : Log.t) : Prop :=
  forall r b t,
    Log.response log = Some r -> Response.body r = Some b ->
    Body.text b = Some t ->
    (Z.of_nat (length t) <= limit)%Z.

(** The text fields that are never empty. *)
Definition namedFieldsFilled (log : Log.t) : Prop :=
  Log.url log <> EmptyString /\ Log.host log <> EmptyString
  /\ Log.method log <> EmptyString /\ Log.id log <> EmptyString.

Definition pathFilled (log : Log.t) : Prop := Log.path log <> EmptyString.

(** What the URL standard gives for every parsed URL: a non-empty [href],
    and for [http] and [https] a non-empty host and a path that begins with
    a slash. *)
Definition standardUrls (URL_parse : string -> option Url.t) : Prop :=
  forall s u,
    URL_parse s = Some u ->
    Url.href u <> EmptyString
    /\ (Url.protocol u = "http:" \/ Url.protocol u = "https:" ->
        Url.host u <> EmptyString
        /\ Js.startsWith "/" (Url.pathname u) = true).

End LogSpec.

(** ** routeReport.ts: the report types *)

Module Sample.
Record t : Type := {
  url : string;
  ts : Z;
  status : option Z;
  request : Request.t;
  response : option Response.t
}.
End Sample.

Module Endpoint.
(** [EndpointSummary]. *)
Record t : Type := {
  key : string;
  method : string;
  host : string;
  path : string;
  count : Z;
  statuses : gmap string Z;
  queryKeys : list string;
  mimeReq : gmap string Z;
  mimeRes : gmap string Z;
  sample : option Sample.t
}.
End Endpoint.

Module Report.
(** [RouteReport]. *)
Record t : Type := {
  routeKey : string;
  sessionId : string;
  createdAt : Z;
  totalLogs : Z;
  endpoints : list Endpoint.t
}.
End Report.

Module Session.
(** [SessionMetaLite]. *)
Record t : Type := { id : string; name : string; routeKey : option string }.
End Session.

Module Catalog.
Record t : Type := { createdAt : Z; routeReports : list Report.t }.
End Catalog.

(** ** catalog.ts *)

Module CatalogBuilder.
Import Js.

Definition mergeCountMap (a b : gmap string Z) : gmap string Z :=
  map_fold (fun k v out => <[k := (default 0 (out !! k) + v)%Z]> out) a b.

(** A [Map] from endpoint key to summary, in insertion order. *)
Fixpoint mapGet (k : string) (m : list (string * Endpoint.t))
  : option Endpoint.t :=
  match m with
  | [] => None
  | (k', v) :: t => if String.eqb k k' then Some v else mapGet k t
  end.

(** The entry of that key is replaced where it stands. *)
Fixpoint mapReplace (k : string) (v : Endpoint.t)
  (m : list (string * Endpoint.t)) : list (string * Endpoint.t) :=
  match m with
  | [] => []
  | (k', v') :: t =>
      if String.eqb k k' then (k', v) :: t else (k', v') :: mapReplace k v t
  end.

(** The update of [prev] in the [else] branch. *)
Definition absorb (prev e : Endpoint.t) : Endpoint.t :=
  {| Endpoint.key := Endpoint.key prev;
     Endpoint.method := Endpoint.method prev;
     Endpoint.host := Endpoint.host prev;
     Endpoint.path := Endpoint.path prev;
     Endpoint.count := (Endpoint.count prev + Endpoint.count e)%Z;
     Endpoint.statuses :=
       mergeCountMap (Endpoint.statuses prev) (Endpoint.statuses e);
     Endpoint.queryKeys :=
       sortWith compareStrings
         (dedupe (Endpoint.queryKeys prev ++ Endpoint.queryKeys e));
     Endpoint.mimeReq :=
       mergeCountMap (Endpoint.mimeReq prev) (Endpoint.mimeReq e);
     Endpoint.mimeRes :=
       mergeCountMap (Endpoint.mimeRes prev) (Endpoint.mimeRes e);
     Endpoint.sample := Endpoint.sample prev |}.

(** One turn of the inner loop. *)
Definition addEndpoint (m : list (string * Endpoint.t)) (e : Endpoint.t)
  : list (string * Endpoint.t) :=
  match mapGet (Endpoint.key e) m with
  | None => m ++ [(Endpoint.key e, e)]
  | Some prev => mapReplace (Endpoint.key e) (absorb prev e) m
  end.

Definition sessionsLabel (routeKey : string) (n : nat) : string :=
  routeKey +:+ " (" +:+ NilZero.string_of_uint (Nat.to_uint n)
  +:+ " sessions)".

Definition mergeReports (now : Z) (routeKey : string) (reports : list Report.t)
  : Report.t :=
  let byKey :=
    fold_left (fun m r => fold_left addEndpoint (Report.endpoints r) m)
              reports [] in
  let totalLogs :=
    fold_left (fun n r => (n + Report.totalLogs r)%Z) reports 0%Z in
  {| Report.routeKey := routeKey;
     Report.sessionId := sessionsLabel routeKey (length reports);
     Report.createdAt := now;
     Report.totalLogs := totalLogs;
     Report.endpoints :=
       sortWith (fun a b => (Endpoint.count b - Endpoint.count a)%Z)
                (map snd byKey) |}.

(** [(s.routeKey || s.name || "/").trim() || "/"] *)
Definition routeKeyOf (s : Session.t) : string :=
  let first :=
    match Session.routeKey s with
    | Some k => if truthy k then k
                else if truthy (Session.name s) then Session.name s else "/"
    | None => if truthy (Session.name s) then Session.name s else "/"
    end in
  if truthy (trim first) then trim first else "/".

(** [byRoute]: a [Map] from route key to the reports of that key, in
    insertion order. *)
Fixpoint groupAdd (k : string) (r : Report.t)
  (groups : list (string * list Report.t)) : list (string * list Report.t) :=
  match groups with
  | [] => [(k, [r])]
  | (k', rs) :: t =>
      if String.eqb k k' then (k', rs ++ [r]) :: t
      else (k', rs) :: groupAdd k r t
  end.

Section Build.
(** The collaborators handed to [buildRouteCatalog], taken to resolve, the
    report builder of routeReport.ts, [localeCompare], and the clock. *)
Variable readReport : string -> option Report.t.
Variable readLogs : string -> Z -> list Json.json.
Variable buildRouteReport : string -> string -> list Json.json -> Report.t.
Variable localeCompare : string -> string -> Z.
Variable now : Z.

(** The report of a session, and whether it had to be built (and is then
    written back). *)
Definition reportFor (s : Session.t) : Report.t * bool :=
  match readReport (Session.id s) with
  | Some r => (r, false)
  | None =>
      (buildRouteReport (routeKeyOf s) (Session.id s)
         (readLogs (Session.id s) 200000), true)
  end.

Definition byRoute (sessions : list Session.t)
  : list (string * list Report.t) :=
  fold_left (fun groups s => groupAdd (routeKeyOf s) (reportFor s).1 groups)
            sessions [].

(** The calls of [writeReport], in order. *)
Definition written (sessions : list Session.t) : list (string * Report.t) :=
  omap (fun s => if (reportFor s).2
                 then Some (Session.id s, (reportFor s).1) else None)
       sessions.

Definition buildRouteCatalog (sessions : list Session.t) : Catalog.t :=
  {| Catalog.createdAt := now;
     Catalog.routeReports :=
       sortWith (fun a b => localeCompare (Report.routeKey a) (Report.routeKey b))
                (map (fun g : string * list Report.t => mergeReports now g.1 g.2)
                     (byRoute sessions)) |}.

End Build.
End CatalogBuilder.

(** The merge as the specification words it (section 4.7). *)
Module CatalogSpec.
Import Js.

(** The endpoints of a group of reports, in the order they are met. *)
Definition endpointsOf (reports : list Report.t) : list Endpoint.t :=
  concat (map Report.endpoints reports).


Definition total (f : Endpoint.t -> Z) (es : list Endpoint.t) : Z :=
  fold_right (fun e acc => (f e + acc)%Z) 0%Z es.

(** An entry of a count map; a missing entry counts for nothing. *)
Definition entry (m : gmap string Z) (s : string) : Z := default 0%Z (m !! s).


(** Sorted by code unit without repetition. *)
Definition sortedKeys (l : list string) : Prop :=
  Sorted (fun a b => (compareStrings a b < 0)%Z) l.

(** The data model's invariant on the query keys of a summary. *)
Definition wellFormed (e : Endpoint.t) : Prop := sortedKeys (Endpoint.queryKeys e).





End CatalogSpec.

(** ** sessionStore.ts *)

(** How an operation ends: with a value, or with an exception (for an
    [async] function, a rejected promise). *)
Module Completion.

Inductive t (A : Type) : Type :=
| Normal (a : A)
| Thrown.
Arguments Normal {A} a.
Arguments Thrown {A}.

Definition bind {A B : Type} (c : t A) (k : A -> t B) : t B :=
  match c with
  | Normal a => k a
  | Thrown => Thrown
  end.

(** [try { c } catch { h }] and [promise.catch(() => h)]. *)
Definition tryCatch {A : Type} (c : t A) (h : t A) : t A :=
  match c with
  | Normal a => Normal a
  | Thrown => h
  end.

Definition ofOption {A : Type} (o : option A) : t A :=
  match o with
  | Some a => Normal a
  | None => Thrown
  end.

End Completion.

Notation "'do' x <- c ; k" := (Completion.bind c (fun x => k))
  (at level 10, x name, c at level 100, k at level 200, only parsing).

Module SessionStore.
Import Js Json Completion.

Section Store.
Variable rt : Runtime.
(** The files the store can read: [fsp.readFile(path, "utf8")] gives the
    text of the file at [path], or is rejected. *)
Variable files : string -> option text16.
(** [path.join] of three parts. *)
Variable path_join : string -> string -> string -> string.
Variable rootDir : string.

(** [fsp.readFile] with whatever stands for the path: anything but a string
    is refused. *)
Definition readFile (path : option json) : Completion.t text16 :=
  match path with
  | Some (JStr p) => ofOption (files p)
  | _ => Thrown
  end.

Definition JSON_parse_ (text : text16) : Completion.t json :=
  ofOption (JSON_parse rt text).

(** [value.name] on a truthy value: the member of an object, [undefined]
    on anything else. *)
Definition member (name : string) (value : json) : option json :=
  match value with
  | JObj ms => assoc name ms
  | _ => None
  end.

(** [read(id)]: the parsed meta file, [null] on any error. *)
Definition read (id : string) : Completion.t json :=
  tryCatch
    (do txt <- readFile (Some (JStr (path_join rootDir id "meta.json")));
     JSON_parse_ txt)
    (Normal JNull).

Definition newline16 : N := 10.

(** [txt.trim().split("\n").filter(Boolean)] *)
Definition linesOf (txt : text16) : list text16 :=
  filter (fun line => line <> []) (split16 newline16 (trim16 txt)).

(** [lines.slice(Math.max(0, lines.length - limit))] for an integer
    [limit]. *)
Definition lastLines (limit : Z) (lines : list text16) : list text16 :=
  skipn (Z.to_nat (Z.max 0 (Z.of_nat (length lines) - limit))) lines.

(** The loop over the slice: a line that does not parse is passed over. *)
Definition parseLines (slice : list text16) : list json :=
  fold_left
    (fun items line =>
       match tryCatch (do v <- JSON_parse_ line; Normal (items ++ [v]))
                      (Normal items) with
       | Normal items' => items'
       | Thrown => items
       end)
    slice [].

Definition readLogs (id : string) (limit : Z) : Completion.t (list json) :=
  do meta <- read id;
  if negb (truthyJ meta) then Normal []
  else
    do txt <- tryCatch (readFile (member "logsPath" meta)) (Normal []);
    let lines := linesOf txt in
    let slice := lastLines limit lines in
    Normal (parseLines slice).

End Store.
End SessionStore.

(** Reading a session log as the specification words it (section 4.5). *)
Module SessionSpec.
Import Js Json.




End SessionSpec.

From Stdlib Require Structures.OrderedTypeEx.

(** ** Readings of the proxy's state used by the properties below *)

Module ProxyViews.
Import Js Proxy.

(** The events that run the [error] listener of [upstreamReq]: an error of
    the upstream request, or the timer that destroys it. *)
Definition requestFailure (e : event) : bool :=
  match e with
  | UpstreamReqError _ _ | UpstreamTimeout _ => true
  | _ => false
  end.

Definition failures (events : list event) : nat :=
  length (filter (fun e => requestFailure e = true) events).

(** The clock reading and the status a CONNECT event hands to [finish]. *)
Definition connectTime (e : connectEvent) : Z :=
  match e with
  | Connected now | SocketError now => now
  end.

Definition connectStatus (e : connectEvent) : Z :=
  match e with
  | Connected _ => 200%Z
  | SocketError _ => 502%Z
  end.

(** The names [stripHopByHop] reads from the [Connection] value: those of
    [headers["connection"] ?? headers["Connection"]] when that value is
    truthy, none otherwise. *)
Definition listed (h : gmap string hval) : list string :=
  match connectionValue h with
  | Some conn => if truthyV conn then connectionTokens conn else []
  | None => []
  end.

(** The text [toRecord] stores for a header value: the value itself, or
    the items of an array joined with a comma and a space. *)
Definition recordText (v : hval) : string :=
  match v with
  | HStr s => s
  | HArr l => join ", " l
  end.

End ProxyViews.

(** ** Readings of the sanitizer's tests used by the properties below *)

Module SanitizeViews.
Import Js Json Sanitize.





End SanitizeViews.

(** ** normalize.ts: [queryKeys] *)

Module QueryKeys.
Import Js.

(** [Array.from(url.searchParams.keys())], sorted by [sort()] (by code
    unit), then passed through a [Set]. *)
Definition queryKeys (u : Url.t) : list string :=
  dedupe (sortWith compareStrings (map fst (Url.searchParams u))).

End QueryKeys.

(** ** routeReport.ts *)

Module RouteReport.
Import Js Normalize QueryKeys CatalogBuilder.

Definition MAX_SAMPLE_BODY : nat := 2048.

(** The text added to a cut body: a line feed, an ellipsis (U+2026) and
    [(truncated)]. *)
Definition truncatedMark : text16 := [10%N; 8230%N] ++ widen "(truncated)".

Definition trimText (s : text16) (max : nat) : text16 :=
  match s with
  | [] => s
  | _ => if Nat.ltb max (length s) then firstn max s ++ truncatedMark else s
  end.

(** [map[key] = (map[key] ?? 0) + 1] *)
Definition bump (m : gmap string Z) (k : string) : gmap string Z :=
  <[k := (default 0 (m !! k) + 1)%Z]> m.

(** [String(v ?? EmptyString).toLowerCase().split(";")[0].trim()] *)
Definition pickMime (v : option string) : string :=
  trim (hd EmptyString (split ";" (toLowerCase (default EmptyString v)))).

Section Build.
(** The services of the runtime: [new URL], [toUpperCase] (which leaves the
    code units below 256 for two letters), the printing of a number,
    [localeCompare], the entries of an object in property order, and the
    clock. *)
Variable URL_parse : string -> option Url.t.
Variable toUpperCase : string -> string.
Variable Number_toString : Z -> string.
Variable localeCompare : string -> string -> Z.
Variable Object_entries : gmap string string -> list (string * string).
Variable now : Z.

(** [pickHeaders]: the entries sorted by name, the first [limit] of them
    made into an object again. *)
Definition pickHeaders (headers : option (gmap string string)) (limit : nat)
  : gmap string string :=
  Proxy.fromEntries
    (firstn limit
       (sortWith (fun a b : string * string => localeCompare a.1 b.1)
                 (Object_entries (default ∅ headers)))).

(** [{ ...body, text: trimText(body.text ?? EmptyString) }] *)
Definition sampleBody (b : Body.t) : Body.t :=
  {| Body.mime := Body.mime b;
     Body.text := Some (trimText (default [] (Body.text b)) MAX_SAMPLE_BODY) |}.

Definition sampleOf (l : Log.t) : Sample.t :=
  {| Sample.url := Log.url l;
     Sample.ts := Log.ts l;
     Sample.status := Log.status l;
     Sample.request :=
       {| Request.headers :=
            pickHeaders (Some (Request.headers (Log.request l))) 30;
          Request.query := Some (default ∅ (Request.query (Log.request l)));
          Request.body := sampleBody <$> Request.body (Log.request l) |};
     Sample.response :=
       (fun r : Response.t =>
          {| Response.headers := Some (pickHeaders (Response.headers r) 30);
             Response.body := sampleBody <$> Response.body r |})
       <$> Log.response l |}.

(** [String(l.method || "GET").toUpperCase()] *)
Definition methodOf (l : Log.t) : string :=
  toUpperCase (if truthy (Log.method l) then Log.method l else "GET").

(** The key of a record whose URL parses as [u]. *)
Definition keyOf (l : Log.t) (u : Url.t) : string :=
  methodOf l +:+ " " +:+ Url.host u +:+ " " +:+ normalizePath (Url.pathname u).

(** [String(l.status ?? "0")] *)
Definition statusOf (l : Log.t) : string :=
  match Log.status l with
  | Some n => Number_toString n
  | None => "0"
  end.

Definition reqMimeOf (l : Log.t) : string :=
  pickMime (Request.body (Log.request l) ≫= Body.mime).

Definition resMimeOf (l : Log.t) : string :=
  pickMime ((Log.response l ≫= Response.body) ≫= Body.mime).

(** The summary created for a key met for the first time. *)
Definition created (l : Log.t) (u : Url.t) : Endpoint.t :=
  {| Endpoint.key := keyOf l u;
     Endpoint.method := methodOf l;
     Endpoint.host := Url.host u;
     Endpoint.path := normalizePath (Url.pathname u);
     Endpoint.count := 0;
     Endpoint.statuses := ∅;
     Endpoint.queryKeys := [];
     Endpoint.mimeReq := ∅;
     Endpoint.mimeRes := ∅;
     Endpoint.sample := Some (sampleOf l) |}.

(** The updates every record makes to the summary of its key. *)
Definition tally (s : Endpoint.t) (l : Log.t) (u : Url.t) : Endpoint.t :=
  {| Endpoint.key := Endpoint.key s;
     Endpoint.method := Endpoint.method s;
     Endpoint.host := Endpoint.host s;
     Endpoint.path := Endpoint.path s;
     Endpoint.count := (Endpoint.count s + 1)%Z;
     Endpoint.statuses := bump (Endpoint.statuses s) (statusOf l);
     Endpoint.queryKeys :=
       sortWith compareStrings (dedupe (Endpoint.queryKeys s ++ queryKeys u));
     Endpoint.mimeReq := bump (Endpoint.mimeReq s) (reqMimeOf l);
     Endpoint.mimeRes := bump (Endpoint.mimeRes s) (resMimeOf l);
     Endpoint.sample := Endpoint.sample s |}.

(** One turn of the loop over the records; a record whose URL does not
    parse is passed over. *)
Definition observe (byKey : list (string * Endpoint.t)) (l : Log.t)
  : list (string * Endpoint.t) :=
  match URL_parse (Log.url l) with
  | None => byKey
  | Some u =>
      match mapGet (keyOf l u) byKey with
      | None => byKey ++ [(keyOf l u, tally (created l u) l u)]
      | Some s => mapReplace (keyOf l u) (tally s l u) byKey
      end
  end.

Definition buildRouteReport (routeKey sessionId : string) (logs : list Log.t)
  : Report.t :=
  let byKey := fold_left observe logs [] in
  {| Report.routeKey := routeKey;
     Report.sessionId := sessionId;
     Report.createdAt := now;
     Report.totalLogs := Z.of_nat (length logs);
     Report.endpoints :=
       sortWith (fun a b => (Endpoint.count b - Endpoint.count a)%Z)
                (map snd byKey) |}.

End Build.
End RouteReport.

(** Readings of a list of records used to state what the report holds. *)
Module ReportViews.
Import Js RouteReport.

Section Views.
Variable URL_parse : string -> option Url.t.
Variable toUpperCase : string -> string.

(** The records filed under the key [k], in the order of the log. *)
Definition filedUnder (k : string) (logs : list Log.t) : list Log.t :=
  filter (fun l => keyOf toUpperCase l <$> URL_parse (Log.url l) = Some k) logs.

(** How many of the records give [x] under the reading [f]. *)
Definition howMany (f : Log.t -> string) (x : string) (logs : list Log.t) : Z :=
  Z.of_nat (length (filter (fun l => f l = x) logs)).

(** The entry for [x] of a count map that tallies the reading [f] over the
    records: the number of records that give [x], and no entry when there
    is none. *)
Definition tallyOf (f : Log.t -> string) (logs : list Log.t) (x : string)
  : option Z :=
  if (howMany f x logs =? 0)%Z then None else Some (howMany f x logs).

(** How many of the records have a URL that parses. *)
Definition parsed (logs : list Log.t) : Z :=
  Z.of_nat (length (filter (fun l => is_Some (URL_parse (Log.url l))) logs)).

(** [q] is the name of a query parameter of one of the records. *)
Definition parameterOf (logs : list Log.t) (q : string) : Prop :=
  exists l u, l ∈ logs /\ URL_parse (Log.url l) = Some u
              /\ q ∈ map fst (Url.searchParams u).

End Views.

(** The character [sep] does not stand in [s]. *)
Definition without (sep : ascii) (s : string) : bool :=
  forallChars (fun c => negb (Ascii.eqb c sep)) s.

End ReportViews.

(** ** index.ts: the server *)

Module Index.
Import Js.

Definition MAX_LOGS : nat := 2000.

Module Server.
(** The state the handlers share: the in-memory [logs], the ids of the SSE
    clients in the order of the [clients] map, the records handed to
    [sessionStore.append], and what has been written to the clients, each
    payload with the id of its client. *)
Record t : Type := {
  logs : list Log.t;
  clients : list string;
  appended : list Log.t;
  written : list (string * text16)
}.
Definition fresh : t :=
  {| logs := []; clients := []; appended := []; written := [] |}.
End Server.

(** [array.slice(0, end)] for an integer [end]: a negative one counts from
    the end of the array. *)
Definition slice0 {A : Type} (end_ : Z) (l : list A) : list A :=
  if (end_ <? 0)%Z then firstn (Z.to_nat (Z.of_nat (length l) + end_)) l
  else firstn (Z.to_nat end_) l.

(** [clients.set(id, ...)]: a new id goes to the end of the map, a known
    one keeps its place. *)
Definition setClient (id : string) (clients : list string) : list string :=
  if existsb (String.eqb id) clients then clients else clients ++ [id].

Section Handlers.
Variable rt : Runtime.
(** [JSON.stringify] of a record and of the object [{ clientId: id }]. *)
Variable stringifyLog : Log.t -> text16.
Variable stringifyHello : string -> text16.

Definition logPayload (safe : Log.t) : text16 :=
  widen "event: log" ++ [10%N] ++ widen "data: " ++ stringifyLog safe
  ++ [10%N; 10%N].

Definition helloPayload (id : string) : text16 :=
  widen "event: hello" ++ [10%N] ++ widen "data: " ++ stringifyHello id
  ++ [10%N; 10%N].

Definition pushLog (st : Server.t) (log : Log.t) : Server.t :=
  let safe := Sanitize.sanitizeLog rt log in
  {| Server.logs := firstn MAX_LOGS (safe :: Server.logs st);
     Server.clients := Server.clients st;
     Server.appended := Server.appended st ++ [safe];
     Server.written :=
       Server.written st
       ++ map (fun id => (id, logPayload safe)) (Server.clients st) |}.

(** GET /events for the client that [nanoid] names [id]. *)
Definition onEvents (st : Server.t) (id : string) : Server.t :=
  {| Server.logs := Server.logs st;
     Server.clients := setClient id (Server.clients st);
     Server.appended := Server.appended st;
     Server.written := Server.written st ++ [(id, helloPayload id)] |}.

(** The [close] listener of that request. *)
Definition onClose (st : Server.t) (id : string) : Server.t :=
  {| Server.logs := Server.logs st;
     Server.clients :=
       filter (fun c => c <> id) (Server.clients st);
     Server.appended := Server.appended st;
     Server.written := Server.written st |}.

(** POST /api/clear *)
Definition onClear (st : Server.t) : Server.t :=
  {| Server.logs := [];
     Server.clients := Server.clients st;
     Server.appended := Server.appended st;
     Server.written := Server.written st |}.

(** GET /api/logs: [Math.min(Number(req.query.limit ?? 200), 2000)] for a
    limit that is an integer. *)
Definition apiLogs (st : Server.t) (limit : option Z) : list Log.t :=
  slice0 (Z.min (default 200%Z limit) 2000) (Server.logs st).

(** What reaches the server: a record from the proxy, a new SSE client, the
    close of one, a clear. *)
Inductive request : Type :=
| Push (log : Log.t)
| Events (id : string)
| Close (id : string)
| Clear.

(** The records pushed, and those pushed since the last clear. *)
Definition pushes (requests : list request) : list Log.t :=
  omap (fun r => match r with Push log => Some log | _ => None end) requests.

Definition sinceClear (requests : list request) : list Log.t :=
  foldl (fun acc r => match r with
                      | Push log => acc ++ [log]
                      | Clear => []
                      | _ => acc
                      end) [] requests.

Definition step (st : Server.t) (r : request) : Server.t :=
  match r with
  | Push log => pushLog st log
  | Events id => onEvents st id
  | Close id => onClose st id
  | Clear => onClear st
  end.

Definition run (requests : list request) : Server.t :=
  foldl step Server.fresh requests.

End Handlers.

(** *** [sanitizeFilename] *)

(** [/^\/+/]: the slashes at the start. *)
Fixpoint dropLeadingSlashes (t : text16) : text16 :=
  match t with
  | [] => []
  | n :: r => if N.eqb n 47 then dropLeadingSlashes r else t
  end.

(** [/[\/\\]/]: a slash or a backslash. *)
Definition separatorUnit (n : N) : bool := (N.eqb n 47 || N.eqb n 92)%bool.

(** [/[a-zA-Z0-9._-]/] *)
Definition safeUnit (n : N) : bool :=
  ((N.leb 97 n && N.leb n 122) || (N.leb 65 n && N.leb n 90)
   || (N.leb 48 n && N.leb n 57)
   || N.eqb n 46 || N.eqb n 95 || N.eqb n 45)%bool.

Definition underscore : N := 95.

Definition sanitizeFilename (s : text16) : text16 :=
  let named := match s with [] => widen "route" | _ => s end in
  let a := dropLeadingSlashes named in
  let b := map (fun n => if separatorUnit n then underscore else n) a in
  let c := map (fun n => if safeUnit n then n else underscore) b in
  match firstn 80 c with
  | [] => widen "route"
  | cut => cut
  end.

(** *** [toHar] *)

Module Har.
Record post : Type := { postMime : string; postText : text16 }.
Record request : Type := {
  method : string;
  url : string;
  requestVersion : string;
  requestHeaders : list (string * string);
  queryString : list (string * string);
  postData : option post
}.
Record content : Type := { mimeType : string; text : text16 }.
Record response : Type := {
  status : Z;
  statusText : string;
  responseVersion : string;
  responseHeaders : list (string * string);
  content_ : content;
  redirectURL : string;
  headersSize : Z;
  bodySize : Z
}.
Record timings : Type := { send : Z; wait : Z; receive : Z }.
Record entry : Type := {
  startedDateTime : string;
  time : Z;
  request_ : request;
  response_ : response;
  cache : list (string * string);
  timings_ : timings
}.
Record log : Type := {
  version : string;
  creatorName : string;
  creatorVersion : string;
  pages : list string;
  entries : list entry
}.
End Har.

Section ToHar.
(** [new Date(ts).toISOString()], which throws for a time value out of
    range, and the entries of an object in property order. *)
Variable toISOString : Z -> option string.
Variable Object_entries : gmap string string -> list (string * string).

Definition requestText (l : Log.t) : text16 :=
  default [] (Request.body (Log.request l) ≫= Body.text).

Definition entryOf (l : Log.t) (startedDateTime : string) : Har.entry :=
  let time := default 0%Z (Log.durationMs l) in
  let postText := requestText l in
  let postMime :=
    default "text/plain" (Request.body (Log.request l) ≫= Body.mime) in
  let resHeaders :=
    Object_entries (default ∅ (Log.response l ≫= Response.headers)) in
  let resText :=
    default [] ((Log.response l ≫= Response.body) ≫= Body.text) in
  let resMime :=
    default EmptyString ((Log.response l ≫= Response.body) ≫= Body.mime) in
  {| Har.startedDateTime := startedDateTime;
     Har.time := time;
     Har.request_ :=
       {| Har.method := Log.method l;
          Har.url := Log.url l;
          Har.requestVersion := "HTTP/1.1";
          Har.requestHeaders := Object_entries (Request.headers (Log.request l));
          Har.queryString :=
            Object_entries (default ∅ (Request.query (Log.request l)));
          Har.postData :=
            match postText with
            | [] => None
            | _ => Some {| Har.postMime := postMime; Har.postText := postText |}
            end |};
     Har.response_ :=
       {| Har.status := default 0%Z (Log.status l);
          Har.statusText := EmptyString;
          Har.responseVersion := "HTTP/1.1";
          Har.responseHeaders := resHeaders;
          Har.content_ := {| Har.mimeType := resMime; Har.text := resText |};
          Har.redirectURL := EmptyString;
          Har.headersSize := (-1)%Z;
          Har.bodySize := (-1)%Z |};
     Har.cache := [];
     Har.timings_ := {| Har.send := 0; Har.wait := time; Har.receive := 0 |} |}.

(** [items.map(...)]: the first date that cannot be printed ends it. *)
Fixpoint entriesOf (items : list Log.t) : Completion.t (list Har.entry) :=
  match items with
  | [] => Completion.Normal []
  | l :: rest =>
      do started <- Completion.ofOption (toISOString (Log.ts l));
      do later <- entriesOf rest;
      Completion.Normal (entryOf l started :: later)
  end.

Definition toHar (items : list Log.t) : Completion.t Har.log :=
  do entries <- entriesOf items;
  Completion.Normal
    {| Har.version := "1.2"; Har.creatorName := "har-tool";
       Har.creatorVersion := "0.0.0"; Har.pages := [];
       Har.entries := entries |}.

End ToHar.

End Index.

(** ** sessionStore.ts: the writing side *)

Module Store.
Import Js Json Completion.

Module Meta.
(** [SessionMeta]. *)
Record t : Type := {
  id : string;
  name : string;
  createdAt : Z;
  endedAt : option Z;
  logCount : Z;
  dir : string;
  logsPath : string
}.
End Meta.

Module Stream.
(** A write stream opened for appending: its path, and the chunks written
    to it that wait to reach the file. *)
Record t : Type := { path : string; pending : list text16 }.
End Stream.

Module State.
(** The files on disk, by path, and the two fields of the store. *)
Record t : Type := {
  files : gmap string text16;
  current : option Meta.t;
  writeStream : option Stream.t
}.
End State.

(** The numeral of an integer. *)
Definition numeral (z : Z) : string := NilZero.string_of_int (Z.to_int z).

(** The meta object as [JSON.stringify] walks it: the properties in the
    order [start] wrote them, [endedAt] last when [stop] has added it. *)
Definition toJson (m : Meta.t) : json :=
  JObj ([("id", JStr (Meta.id m));
         ("name", JStr (Meta.name m));
         ("createdAt", JNum (numeral (Meta.createdAt m)));
         ("logCount", JNum (numeral (Meta.logCount m)));
         ("dir", JStr (Meta.dir m));
         ("logsPath", JStr (Meta.logsPath m))]
        ++ match Meta.endedAt m with
           | Some t => [("endedAt", JNum (numeral t))]
           | None => []
           end).

(** An operation of the store: it ends with a value or is rejected, and
    leaves a state either way. *)
Definition Op (A : Type) : Type := State.t -> Completion.t A * State.t.

Definition ret {A : Type} (a : A) : Op A := fun st => (Normal a, st).

Definition andThen {A B : Type} (m : Op A) (k : A -> Op B) : Op B :=
  fun st =>
    match m st with
    | (Normal a, st') => k a st'
    | (Thrown, st') => (Thrown, st')
    end.

Notation "'await' x <- m ; k" := (andThen m (fun x => k))
  (at level 10, x name, m at level 100, k at level 200, only parsing).

Definition setFiles (files : gmap string text16) : Op unit :=
  fun st =>
    (Normal tt,
     {| State.files := files; State.current := State.current st;
        State.writeStream := State.writeStream st |}).

Definition setCurrent (current : option Meta.t) : Op unit :=
  fun st =>
    (Normal tt,
     {| State.files := State.files st; State.current := current;
        State.writeStream := State.writeStream st |}).

Definition setWriteStream (stream : option Stream.t) : Op unit :=
  fun st =>
    (Normal tt,
     {| State.files := State.files st; State.current := State.current st;
        State.writeStream := stream |}).

Section Store.
Variable rt : Runtime.
(** [JSON.stringify(log)] *)
Variable stringifyLog : Log.t -> text16.
(** [path.join] of two and of three parts. *)
Variable join2 : string -> string -> string.
Variable join3 : string -> string -> string -> string.
(** The paths at which the file system refuses to make a directory or to
    write a file. *)
Variable refused : string -> bool.
Variable rootDir : string.

(** [fsp.mkdir(dir, { recursive: true })] *)
Definition mkdir (dir : string) : Op unit :=
  fun st => if refused dir then (Thrown, st) else (Normal tt, st).

(** [fsp.writeFile(path, text, "utf8")] *)
Definition writeFile (path : string) (text : text16) : Op unit :=
  fun st =>
    if refused path then (Thrown, st)
    else setFiles (<[path := text]> (State.files st)) st.

(** [writeStream.write(chunk)] *)
Definition streamWrite (s : Stream.t) (chunk : text16) : Stream.t :=
  {| Stream.path := Stream.path s;
     Stream.pending := Stream.pending s ++ [chunk] |}.

(** [writeStream.end(callback)]: what was written is in the file, after
    what the file held, when the callback runs. *)
Definition streamEnd (s : Stream.t) : Op unit :=
  fun st =>
    setFiles
      (<[Stream.path s :=
           default [] (State.files st !! Stream.path s)
           ++ concat (Stream.pending s)]> (State.files st)) st.

Definition writeMeta (m : Meta.t) : Op unit :=
  writeFile (join2 (Meta.dir m) "meta.json") (JSON_stringify2 rt (toJson m)).

Definition init : Op unit := mkdir rootDir.

Definition withEndedAt (m : Meta.t) (endedAt : Z) : Meta.t :=
  {| Meta.id := Meta.id m; Meta.name := Meta.name m;
     Meta.createdAt := Meta.createdAt m; Meta.endedAt := Some endedAt;
     Meta.logCount := Meta.logCount m; Meta.dir := Meta.dir m;
     Meta.logsPath := Meta.logsPath m |}.

Definition withOneMore (m : Meta.t) : Meta.t :=
  {| Meta.id := Meta.id m; Meta.name := Meta.name m;
     Meta.createdAt := Meta.createdAt m; Meta.endedAt := Meta.endedAt m;
     Meta.logCount := (Meta.logCount m + 1)%Z; Meta.dir := Meta.dir m;
     Meta.logsPath := Meta.logsPath m |}.

(** [stop()], with the reading of the clock. *)
Definition stop (endedAt : Z) : Op (option Meta.t) :=
  fun st =>
    match State.current st with
    | None => (Normal None, st)
    | Some current =>
        let meta := withEndedAt current endedAt in
        (await _ <- writeMeta meta;
         await _ <- (fun st' =>
                       match State.writeStream st' with
                       | None => (Normal tt, st')
                       | Some s => streamEnd s st'
                       end);
         await _ <- setWriteStream None;
         await _ <- setCurrent None;
         ret (Some meta)) st
    end.

(** [name?.trim() || unnamed] *)
Definition sessionNameOf (name : option string) (unnamed : string) : string :=
  match name with
  | Some n => if truthy (trim n) then trim n else unnamed
  | None => unnamed
  end.

(** [start(name)], with what [nanoid], the clock and the locale give: the
    id, the time (and the time of the [stop] it may have to do first), and
    the name of a session started without one. *)
Definition start (name : option string) (id : string) (createdAt : Z)
  (unnamed : string) (stoppedAt : Z) : Op Meta.t :=
  await _ <- init;
  await _ <- (fun st =>
                match State.current st with
                | Some _ => (await _ <- stop stoppedAt; ret tt) st
                | None => (Normal tt, st)
                end);
  let sessionName := sessionNameOf name unnamed in
  let dir := join2 rootDir id in
  await _ <- mkdir dir;
  let logsPath := join2 dir "logs.ndjson" in
  let meta :=
    {| Meta.id := id; Meta.name := sessionName; Meta.createdAt := createdAt;
       Meta.endedAt := None; Meta.logCount := 0; Meta.dir := dir;
       Meta.logsPath := logsPath |} in
  await _ <- writeFile (join2 dir "meta.json") (JSON_stringify2 rt (toJson meta));
  await _ <- setWriteStream (Some {| Stream.path := logsPath;
                                     Stream.pending := [] |});
  await _ <- setCurrent (Some meta);
  ret meta.

(** [append(log)] *)
Definition append (log : Log.t) : Op unit :=
  fun st =>
    match State.current st, State.writeStream st with
    | Some current, Some s =>
        let updated := withOneMore current in
        (await _ <- setWriteStream
                      (Some (streamWrite s (stringifyLog log ++ [10%N])));
         await _ <- setCurrent (Some updated);
         writeMeta updated) st
    | _, _ => (Normal tt, st)
    end.

(** What [fsp.readFile] finds on the disk of a state. *)
Definition filesOf (st : State.t) (path : string) : option text16 :=
  State.files st !! path.

(** [path.join(meta.dir, "report.json")]: it throws when [meta.dir] is not
    a string. *)
Definition reportPath (meta : json) : Completion.t string :=
  match SessionStore.member "dir" meta with
  | Some (JStr d) => Normal (join2 d "report.json")
  | _ => Thrown
  end.

(** [readReport(id)] *)
Definition readReport (files : string -> option text16) (id : string)
  : Completion.t json :=
  do meta <- SessionStore.read rt files join3 rootDir id;
  if negb (truthyJ meta) then Normal JNull
  else
    tryCatch
      (do path <- reportPath meta;
       do txt <- SessionStore.readFile files (Some (JStr path));
       SessionStore.JSON_parse_ rt txt)
      (Normal JNull).

(** [writeReport(id, report)] *)
Definition writeReport (id : string) (report : json) : Op unit :=
  fun st =>
    match SessionStore.read rt (filesOf st) join3 rootDir id with
    | Normal meta =>
        if negb (truthyJ meta) then (Normal tt, st)
        else
          match reportPath meta with
          | Normal path => writeFile path (JSON_stringify2 rt report) st
          | Thrown => (Thrown, st)
          end
    | Thrown => (Thrown, st)
    end.

(** The calls of a session, awaited one after the other: [start], an
    [append] for each record, [stop]. *)
Definition appendAll (logs : list Log.t) : Op unit :=
  fold_right (fun log rest => await _ <- append log; rest) (ret tt) logs.

Definition session (name : option string) (id : string)
  (createdAt : Z) (unnamed : string) (logs : list Log.t) (endedAt : Z)
  : Op (option Meta.t) :=
  await _ <- start name id createdAt unnamed createdAt;
  await _ <- appendAll logs;
  stop endedAt.

End Store.

(** A text that is one line of an NDJSON file: not empty, without a line
    feed, without white space at its ends. *)
Definition oneLine (t : text16) : Prop :=
  t <> []
  /\ ~ In 10%N t
  /\ isSpace16 (hd 0%N t) = false
  /\ isSpace16 (List.last t 0%N) = false.

End Store.

(** ** markdown.ts: escaping *)

Module Markdown.
Import Js.

Definition backslash : ascii := ascii_of_nat 92.
Definition pipe : ascii := "|"%char.
Definition backtick : ascii := "`"%char.

(** [s.replace(/c/g, "\\c")] for a character [c]: a backslash goes in
    front of every [c]. *)
Fixpoint escapeEvery (c : ascii) (s : string) : string :=
  match s with
  | EmptyString => EmptyString
  | String x r =>
      if Ascii.eqb x c then String backslash (String x (escapeEvery c r))
      else String x (escapeEvery c r)
  end.

Definition mdEscape (s : string) : string := escapeEvery pipe s.

Definition mdCode (s : string) : string :=
  String backtick (escapeEvery backtick s +:+ String backtick EmptyString).

(** The number of times [c] stands in [s]. *)
Fixpoint occurrences (c : ascii) (s : string) : nat :=
  match s with
  | EmptyString => 0
  | String x r => (if Ascii.eqb x c then 1 else 0) + occurrences c r
  end.

(** [c] stands in [s] without a backslash right in front of it. *)
Fixpoint bareAfter (c previous : ascii) (s : string) : bool :=
  match s with
  | EmptyString => false
  | String x r =>
      ((Ascii.eqb x c && negb (Ascii.eqb previous backslash))
       || bareAfter c x r)%bool
  end.

Definition bare (c : ascii) (s : string) : bool :=
  match s with
  | EmptyString => false
  | String x r => (Ascii.eqb x c || bareAfter c x r)%bool
  end.

End Markdown.

(** ** Stand-ins for runtime services in the examples
    ([JSON.stringify] without indent, [toUpperCase] and the printing of
    integers on ASCII, [path.join] of parts that need no normalisation). *)

Module ReferenceText.
Import Js Json.

Fixpoint compact (v : json) : string :=
  match v with
  | JNull => "null"
  | JBool true => "true"
  | JBool false => "false"
  | JNum n => n
  | JStr s => Reference.quote s
  | JArr items => "[" +:+ join "," (map compact items) +:+ "]"
  | JObj members =>
      "{" +:+ join ","
                (map (fun kv : string * json =>
                        let '(k, x) := kv in
                        Reference.quote k +:+ ":" +:+ compact x)
                     members)
      +:+ "}"
  end.

Definition upperChar (c : ascii) : ascii :=
  if between 97 122 c then ascii_of_N (code c - 32) else c.

Fixpoint toUpperCase (s : string) : string :=
  match s with
  | EmptyString => EmptyString
  | String c r => String (upperChar c) (toUpperCase r)
  end.

Definition showNumber (z : Z) : string := NilZero.string_of_int (Z.to_int z).

Definition join2 (a b : string) : string := a +:+ "/" +:+ b.
Definition join3 (a b c : string) : string := a +:+ "/" +:+ b +:+ "/" +:+ c.

(** A record as [JSON.stringify] prints it, for records without headers,
    query and bodies. *)
Definition stringifyLog (l : Log.t) : text16 :=
  widen (compact (JObj [("id", JStr (Log.id l));
                        ("ts", JNum (showNumber (Log.ts l)));
                        ("method", JStr (Log.method l));
                        ("url", JStr (Log.url l));
                        ("host", JStr (Log.host l));
                        ("path", JStr (Log.path l));
                        ("request", JObj [("headers", JObj [])])])).

End ReferenceText.

(** * Properties *)

(** ** Path normalisation *)

Module NormalizeFacts.
Import Js Normalize.

Example normalize_scenario_uuid :
  normalizePath "/users/550e8400-e29b-41d4-a716-446655440000/orders/42"
  = "/users/:uuid/orders/:id".
Proof. vm_compute. reflexivity. Qed.

Example normalize_root : normalizePath "/" = "/".
Proof. reflexivity. Qed.

Example normalize_long_digits :
  normalizePath "/t/1234567890123456" = "/t/:hash".
Proof. vm_compute. reflexivity. Qed.

Ltac each_char c := destruct c as [[] [] [] [] [] [] [] []].

(** *** Character classes *)

Lemma isHexI_hexDigit c : isHexI c = NormalizeSpec.hexDigit c.
Proof. each_char c; reflexivity. Qed.

Lemma isDigit_decimalDigit c : isDigit c = NormalizeSpec.decimalDigit c.
Proof. each_char c; reflexivity. Qed.

Lemma forallChars_ext f g s :
  (forall c, f c = g c) -> forallChars f s = forallChars g s.
Proof. intros E. induction s as [|c r IH]; simpl; [reflexivity|]. now rewrite E, IH. Qed.

(** *** The UUID expression against the positional reading *)

Lemma uuid_class_at k :
  k < 36 ->
  exists f, skipn k uuidRe = f :: skipn (S k) uuidRe
            /\ forall c, f c = NormalizeSpec.uuidPosition k c.
Proof.
  intros Hk.
  do 36 (destruct k as [|k];
         [ eexists; split; [reflexivity|];
           intros c; each_char c; reflexivity |]).
  lia.
Qed.

Lemma matchClasses_positions s : forall k,
  k <= 36 ->
  matchClasses (skipn k uuidRe) s
  = (Nat.eqb (String.length s) (36 - k) && NormalizeSpec.positionsFrom k s)%bool.
Proof.
  induction s as [|c r IH]; intros k Hk.
  - destruct (decide (k = 36)) as [->|Hne]; [reflexivity|].
    destruct (uuid_class_at k) as (f & -> & _); [lia|].
    simpl. destruct (36 - k) eqn:E; [lia|reflexivity].
  - destruct (decide (k = 36)) as [->|Hne]; [reflexivity|].
    destruct (uuid_class_at k) as (f & -> & Hf); [lia|].
    cbn [matchClasses NormalizeSpec.positionsFrom String.length].
    rewrite Hf, IH by lia.
    replace (36 - k) with (S (36 - S k)) by lia.
    cbn [Nat.eqb]. destruct (NormalizeSpec.uuidPosition k c); simpl; [|now rewrite andb_false_r].
    reflexivity.
Qed.

Lemma testUuid_isUuid seg : testUuid seg = NormalizeSpec.isUuid seg.
Proof. apply (matchClasses_positions seg 0). lia. Qed.

Lemma testHash_isHash seg : testHash seg = NormalizeSpec.isHash seg.
Proof.
  unfold testHash, NormalizeSpec.isHash.
  now rewrite (forallChars_ext _ _ seg isHexI_hexDigit).
Qed.

Lemma testId_isId seg : testId seg = NormalizeSpec.isId seg.
Proof.
  unfold testId, NormalizeSpec.isId.
  rewrite (forallChars_ext _ _ seg isDigit_decimalDigit).
  destruct seg; reflexivity.
Qed.

Lemma normalizeSegment_placeholder seg :
  normalizeSegment seg = NormalizeSpec.placeholder seg.
Proof.
  unfold normalizeSegment, NormalizeSpec.placeholder, truthy.
  rewrite testUuid_isUuid, testHash_isHash, testId_isId.
  rewrite negb_involutive.
  destruct (String.eqb_spec seg EmptyString) as [->|]; reflexivity.
Qed.

(** *** Trailing slashes *)

Lemma app_cons c (a b : string) : String c a +:+ b = String c (a +:+ b).
Proof. reflexivity. Qed.

Lemma app_empty_l (b : string) : EmptyString +:+ b = b.
Proof. reflexivity. Qed.

Lemma allSlashes_drop s :
  allSlashes (NormalizeSpec.dropLastSlash s) = allSlashes s.
Proof.
  induction s as [|c r IH]; [reflexivity|].
  destruct r as [|d r'].
  - simpl. unfold slash.
    destruct (Ascii.eqb c "/") eqn:E; simpl; unfold slash; rewrite ?E; reflexivity.
  - change (NormalizeSpec.dropLastSlash (String c (String d r')))
      with (String c (NormalizeSpec.dropLastSlash (String d r'))).
    cbn [allSlashes] in *. now rewrite IH.
Qed.

Lemma replace_drop s :
  replaceTrailingSlashes (NormalizeSpec.dropLastSlash s)
  = replaceTrailingSlashes s.
Proof.
  induction s as [|c r IH]; [reflexivity|].
  destruct r as [|d r'].
  - simpl. unfold slash. destruct (Ascii.eqb c "/") eqn:E; simpl; [reflexivity|].
    unfold slash. now rewrite E.
  - change (NormalizeSpec.dropLastSlash (String c (String d r')))
      with (String c (NormalizeSpec.dropLastSlash (String d r'))).
    cbn [replaceTrailingSlashes].
    rewrite IH.
    change (allSlashes (String c (NormalizeSpec.dropLastSlash (String d r'))))
      with (Ascii.eqb c slash && allSlashes (NormalizeSpec.dropLastSlash (String d r')))%bool.
    rewrite allSlashes_drop. reflexivity.
Qed.

Lemma drop_fixed_replace s :
  NormalizeSpec.dropLastSlash s = s -> replaceTrailingSlashes s = s.
Proof.
  induction s as [|c r IH]; [reflexivity|].
  destruct r as [|d r'].
  - simpl. unfold slash. destruct (Ascii.eqb c "/"); [discriminate|reflexivity].
  - change (NormalizeSpec.dropLastSlash (String c (String d r')))
      with (String c (NormalizeSpec.dropLastSlash (String d r'))).
    intros H. injection H as H. specialize (IH H).
    cbn [replaceTrailingSlashes] in *.
    destruct (allSlashes (String d r')) eqn:A; [discriminate|].
    change (allSlashes (String c (String d r')))
      with (Ascii.eqb c slash && allSlashes (String d r'))%bool.
    rewrite A, andb_false_r. now rewrite IH.
Qed.

Lemma drop_length s :
  NormalizeSpec.dropLastSlash s = s
  \/ S (String.length (NormalizeSpec.dropLastSlash s)) = String.length s.
Proof.
  induction s as [|c r IH]; [now left|].
  destruct r as [|d r'].
  - simpl. destruct (Ascii.eqb c "/"); [now right|now left].
  - change (NormalizeSpec.dropLastSlash (String c (String d r')))
      with (String c (NormalizeSpec.dropLastSlash (String d r'))).
    destruct IH as [->|IH]; [now left|right].
    cbn [String.length] in *. now rewrite IH.
Qed.

Lemma dropSlashes_fixed n s :
  NormalizeSpec.dropLastSlash s = s -> NormalizeSpec.dropSlashes n s = s.
Proof. intros H. induction n as [|n IH]; simpl; [reflexivity|]. now rewrite H. Qed.

Lemma dropSlashes_replace n : forall s,
  String.length s <= n ->
  NormalizeSpec.dropSlashes n s = replaceTrailingSlashes s.
Proof.
  induction n as [|n IH]; intros s Hn.
  - destruct s; [reflexivity|simpl in Hn; lia].
  - simpl. destruct (drop_length s) as [Hfix|Hlen].
    + rewrite Hfix, dropSlashes_fixed by exact Hfix.
      symmetry. now apply drop_fixed_replace.
    + rewrite IH by lia. apply replace_drop.
Qed.

Lemma clean_stripEvery p :
  (if Nat.ltb 1 (String.length p) then replaceTrailingSlashes p else p)
  = NormalizeSpec.stripEvery p.
Proof.
  unfold NormalizeSpec.stripEvery.
  destruct (Nat.ltb_spec 1 (String.length p)) as [H|H];
    destruct (Nat.leb_spec (String.length p) 1) as [H'|H']; try lia.
  - symmetry. now apply dropSlashes_replace.
  - reflexivity.
Qed.

(** **** C5 (counterexample).  On [/a//] the code removes both trailing
    slashes and yields [/a]; removing a single one, as section 4.1 words it,
    leaves the empty last segment and yields [/a/]. *)
Lemma C5_single_slash_counterexample :
  normalizePath "/a//" = "/a"
  /\ NormalizeSpec.normalize "/a//" = "/a/"
  /\ normalizePath "/a//" <> NormalizeSpec.normalize "/a//".
Proof. vm_compute. repeat split. discriminate. Qed.

(** **** C5 (amended).  For every path [p], [normalizePath p] removes every
    trailing slash of a path longer than one character (not a single one),
    then replaces each non-empty slash-separated segment by [:uuid] when it
    has the 8-4-4-4-12 hexadecimal layout with version nibble 1..5 and
    variant nibble 8, 9, a or b, else by [:hash] when it is purely
    hexadecimal and at least 16 characters long, else by [:id] when it is
    purely decimal, and leaves any other segment as it is. *)
Theorem C5_normalizePath_amended p :
  normalizePath p = NormalizeSpec.normalizeEvery p.
Proof.
  unfold normalizePath, NormalizeSpec.normalizeEvery.
  rewrite clean_stripEvery. f_equal.
  apply map_ext. intros seg. apply normalizeSegment_placeholder.
Qed.

(** Where the path has at most one trailing slash, cutting one slash and
    cutting them all is the same, and the code does what section 4.1 says
    word for word. *)
Lemma drop_twice p :
  endsWith "//" p = false ->
  NormalizeSpec.dropLastSlash (NormalizeSpec.dropLastSlash p)
  = NormalizeSpec.dropLastSlash p.
Proof.
  induction p as [|c r IH]; [reflexivity|].
  destruct r as [|d r'].
  - intros _. simpl. destruct (Ascii.eqb c "/") eqn:E; simpl; [reflexivity|].
    now rewrite E.
  - intros H. cbn [endsWith] in H. apply orb_false_iff in H as [H1 H2].
    specialize (IH H2).
    change (NormalizeSpec.dropLastSlash (String c (String d r')))
      with (String c (NormalizeSpec.dropLastSlash (String d r'))).
    destruct (NormalizeSpec.dropLastSlash (String d r')) as [|d' r''] eqn:D.
    + (* the tail was a lone slash *)
      destruct r' as [|e r3].
      * simpl in D. destruct (Ascii.eqb d "/") eqn:Ed; [|discriminate D].
        apply Ascii.eqb_eq in Ed. subst d.
        simpl. destruct (Ascii.eqb c "/") eqn:Ec; [|reflexivity].
        apply Ascii.eqb_eq in Ec. subst c. discriminate H1.
      * change (NormalizeSpec.dropLastSlash (String d (String e r3)))
          with (String d (NormalizeSpec.dropLastSlash (String e r3))) in D.
        discriminate D.
    + change (NormalizeSpec.dropLastSlash (String c (String d' r'')))
        with (String c (NormalizeSpec.dropLastSlash (String d' r''))).
      now rewrite IH.
Qed.

Lemma normalizePath_as_specified p :
  endsWith "//" p = false -> normalizePath p = NormalizeSpec.normalize p.
Proof.
  intros H. unfold normalizePath, NormalizeSpec.normalize.
  rewrite clean_stripEvery. f_equal.
  rewrite (map_ext _ _ normalizeSegment_placeholder). do 2 f_equal.
  unfold NormalizeSpec.stripEvery, NormalizeSpec.stripSingle.
  destruct (Nat.leb_spec (String.length p) 1) as [L|L].
  - destruct p as [|c [|d r]]; [reflexivity| |simpl in L; lia].
    simpl. destruct (Ascii.eqb_spec c "/") as [->|N]; [reflexivity|].
    destruct (String.eqb_spec (String c EmptyString) "/") as [E|_]; [congruence|].
    reflexivity.
  - destruct (String.eqb_spec p "/") as [->|_]; [simpl in L; lia|].
    rewrite dropSlashes_replace by lia.
    rewrite <- replace_drop. apply drop_fixed_replace. now apply drop_twice.
Qed.

(** *** Splitting and joining *)

Definition noSlash (s : string) : bool :=
  forallChars (fun c => negb (Ascii.eqb c slash)) s.

Lemma split_nonempty sep s : split sep s <> [].
Proof.
  destruct s as [|c r]; simpl; [discriminate|].
  destruct (Ascii.eqb c sep); [discriminate|].
  destruct (split sep r); discriminate.
Qed.

Lemma split_noSlash s : Forall (fun x => noSlash x = true) (split slash s).
Proof.
  induction s as [|c r IH]; simpl.
  - repeat constructor.
  - destruct (Ascii.eqb c slash) eqn:E.
    + constructor; [reflexivity|exact IH].
    + destruct (split slash r) as [|h t].
      * constructor; [|constructor]. unfold noSlash. simpl. now rewrite E.
      * inversion IH as [|? ? Hh Ht]; subst. constructor; [|assumption].
        unfold noSlash in *. simpl. now rewrite E.
Qed.

Lemma split_noSlash_single x :
  noSlash x = true -> split slash x = [x].
Proof.
  induction x as [|c r IH]; [reflexivity|].
  unfold noSlash. simpl. intros H. apply andb_true_iff in H as [Hc Hr].
  apply negb_true_iff in Hc. rewrite Hc, (IH Hr). reflexivity.
Qed.

Lemma split_app_noSlash x rest :
  noSlash x = true ->
  split slash (x +:+ String slash rest) = x :: split slash rest.
Proof.
  induction x as [|c r IH]; intros H.
  - reflexivity.
  - unfold noSlash in H. simpl in H. apply andb_true_iff in H as [Hc Hr].
    apply negb_true_iff in Hc.
    rewrite app_cons. cbn [split]. rewrite Hc, (IH Hr). reflexivity.
Qed.

Lemma split_join parts :
  parts <> [] ->
  Forall (fun x => noSlash x = true) parts ->
  split slash (join "/" parts) = parts.
Proof.
  induction parts as [|x t IH]; [congruence|].
  intros _ HF. inversion HF as [|? ? Hx Ht]; subst.
  destruct t as [|y t'].
  - simpl. now apply split_noSlash_single.
  - change (join "/" (x :: y :: t')) with (x +:+ String slash (join "/" (y :: t'))).
    rewrite split_app_noSlash by assumption.
    rewrite IH; [reflexivity|discriminate|assumption].
Qed.

(** *** What the trailing-slash cut leaves behind *)

Lemma allSlashes_app a b :
  allSlashes (a +:+ b) = (allSlashes a && allSlashes b)%bool.
Proof.
  induction a as [|c r IH]; [reflexivity|].
  rewrite app_cons. cbn [allSlashes]. rewrite IH. now rewrite andb_assoc.
Qed.

Lemma replace_app a b :
  allSlashes b = false ->
  replaceTrailingSlashes (a +:+ b) = a +:+ replaceTrailingSlashes b.
Proof.
  intros Hb. induction a as [|c r IH]; [reflexivity|].
  rewrite !app_cons. cbn [replaceTrailingSlashes]. rewrite IH.
  change (allSlashes (String c (r +:+ b)))
    with (Ascii.eqb c slash && allSlashes (r +:+ b))%bool.
  now rewrite allSlashes_app, Hb, !andb_false_r.
Qed.

Lemma noSlash_not_allSlashes x :
  noSlash x = true -> x <> EmptyString -> allSlashes x = false.
Proof.
  destruct x as [|c r]; [congruence|].
  unfold noSlash. simpl. intros H _. apply andb_true_iff in H as [Hc _].
  apply negb_true_iff in Hc. now rewrite Hc.
Qed.

Lemma replace_noSlash x : noSlash x = true -> replaceTrailingSlashes x = x.
Proof.
  induction x as [|c r IH]; [reflexivity|].
  unfold noSlash. simpl. intros H. apply andb_true_iff in H as [Hc Hr].
  apply negb_true_iff in Hc. rewrite Hc. simpl. now rewrite (IH Hr).
Qed.

Lemma join_last_not_allSlashes parts :
  noSlash (List.last parts EmptyString) = true ->
  List.last parts EmptyString <> EmptyString ->
  allSlashes (join "/" parts) = false.
Proof.
  induction parts as [|x t IH]; [simpl; congruence|].
  destruct t as [|y t'].
  - simpl. apply noSlash_not_allSlashes.
  - intros H1 H2.
    change (join "/" (x :: y :: t')) with (x +:+ String slash (join "/" (y :: t'))).
    rewrite allSlashes_app. cbn [allSlashes].
    rewrite (IH H1 H2). now rewrite !andb_false_r.
Qed.

Lemma replace_join parts :
  noSlash (List.last parts EmptyString) = true ->
  List.last parts EmptyString <> EmptyString ->
  replaceTrailingSlashes (join "/" parts) = join "/" parts.
Proof.
  induction parts as [|x t IH]; [reflexivity|].
  destruct t as [|y t'].
  - simpl. intros H _. now apply replace_noSlash.
  - intros H1 H2.
    change (join "/" (x :: y :: t')) with (x +:+ String slash (join "/" (y :: t'))).
    assert (A : allSlashes (join "/" (y :: t')) = false)
      by (apply join_last_not_allSlashes; assumption).
    rewrite replace_app by (cbn [allSlashes]; now rewrite A, andb_false_r).
    cbn [replaceTrailingSlashes allSlashes]. rewrite A, andb_false_r.
    now rewrite (IH H1 H2).
Qed.

Lemma replace_empty_allSlashes s :
  replaceTrailingSlashes s = EmptyString -> allSlashes s = true.
Proof.
  destruct s as [|c r]; [reflexivity|].
  cbn [replaceTrailingSlashes]. destruct (allSlashes (String c r)); [reflexivity|discriminate].
Qed.

Lemma last_split_replace s :
  List.last (split slash (replaceTrailingSlashes s)) EmptyString = EmptyString ->
  replaceTrailingSlashes s = EmptyString.
Proof.
  induction s as [|c r IH]; [reflexivity|].
  cbn [replaceTrailingSlashes].
  destruct (allSlashes (String c r)) eqn:A; [reflexivity|].
  cbn [split]. intros H. exfalso.
  destruct (Ascii.eqb c slash) eqn:E.
  - assert (L : List.last (split slash (replaceTrailingSlashes r)) EmptyString = EmptyString).
    { revert H. generalize (split_nonempty slash (replaceTrailingSlashes r)).
      destruct (split slash (replaceTrailingSlashes r)); [congruence|trivial]. }
    apply IH, replace_empty_allSlashes in L.
    cbn [allSlashes] in A. now rewrite E, L in A.
  - destruct (split slash (replaceTrailingSlashes r)) as [|h t] eqn:S;
      [discriminate H|].
    destruct t as [|h' t']; [discriminate H|].
    assert (L : List.last (h :: h' :: t') EmptyString = EmptyString) by exact H.
    apply IH in L. rewrite L in S. discriminate S.
Qed.

(** *** Segments *)

Lemma normalizeSegment_noSlash x :
  noSlash x = true -> noSlash (normalizeSegment x) = true.
Proof.
  intros H. unfold normalizeSegment.
  repeat match goal with |- context [if ?b then _ else _] => destruct b end;
    solve [assumption | reflexivity].
Qed.

Lemma normalizeSegment_empty x :
  normalizeSegment x = EmptyString -> x = EmptyString.
Proof.
  unfold normalizeSegment, truthy.
  destruct (String.eqb_spec x EmptyString) as [->|]; [reflexivity|]. simpl.
  repeat match goal with |- context [if ?b then _ else _] => destruct b end;
    solve [discriminate | trivial].
Qed.

Lemma normalizeSegment_cases x :
  normalizeSegment x = x \/ normalizeSegment x = ":uuid"
  \/ normalizeSegment x = ":hash" \/ normalizeSegment x = ":id".
Proof.
  unfold normalizeSegment.
  repeat match goal with |- context [if ?b then _ else _] => destruct b end;
    auto.
Qed.

Lemma normalizeSegment_idem x :
  normalizeSegment (normalizeSegment x) = normalizeSegment x.
Proof.
  destruct (normalizeSegment_cases x) as [E|[E|[E|E]]]; rewrite E; try reflexivity.
  exact E.
Qed.

Lemma last_map_normalizeSegment l :
  List.last (map normalizeSegment l) EmptyString
  = normalizeSegment (List.last l EmptyString).
Proof.
  induction l as [|x t IH]; [reflexivity|].
  destruct t; [reflexivity|]. exact IH.
Qed.

(** The cleaned path is either empty or has a non-empty last segment, apart
    from the root itself. *)
Lemma clean_last p :
  let clean := if Nat.ltb 1 (String.length p)
               then replaceTrailingSlashes p else p in
  List.last (split slash clean) EmptyString = EmptyString ->
  clean = EmptyString \/ clean = "/".
Proof.
  cbv zeta. destruct (Nat.ltb 1 (String.length p)) eqn:L.
  - intros H. left. now apply last_split_replace.
  - apply Nat.ltb_ge in L.
    destruct p as [|c [|d r]]; [now left| |simpl in L; lia].
    simpl. destruct (Ascii.eqb_spec c slash) as [->|]; [now right|].
    discriminate.
Qed.

Lemma normalizePath_fixed_clean p :
  let out := normalizePath p in
  (if Nat.ltb 1 (String.length out) then replaceTrailingSlashes out else out)
  = out.
Proof.
  cbv zeta. destruct (Nat.ltb 1 (String.length (normalizePath p))) eqn:L;
    [|reflexivity].
  unfold normalizePath in *.
  set (clean := if Nat.ltb 1 (String.length p)
                then replaceTrailingSlashes p else p) in *.
  destruct (string_dec (List.last (split slash clean) EmptyString) EmptyString)
    as [E|NE].
  - apply (clean_last p) in E. fold clean in E.
    destruct E as [E|E]; rewrite E in L; vm_compute in L; discriminate L.
  - apply replace_join; rewrite last_map_normalizeSegment.
    + apply normalizeSegment_noSlash.
      pose proof (split_noSlash clean) as F.
      pose proof (split_nonempty slash clean) as N.
      destruct (split slash clean) as [|h t]; [congruence|].
      rewrite Forall_forall in F.
      apply F. change (List.last (h :: t) EmptyString ∈ h :: t).
      clear. revert h. induction t as [|y t IH]; intros h.
      * apply list_elem_of_here.
      * apply list_elem_of_further. exact (IH y).
    + intros E. now apply normalizeSegment_empty in E.
Qed.

(** **** C9.  Normalising a path twice gives what normalising it once
    gives: [normalize (normalize p) = normalize p] for every path [p]. *)
Theorem C9_normalizePath_idempotent p :
  normalizePath (normalizePath p) = normalizePath p.
Proof.
  unfold normalizePath at 1.
  rewrite (normalizePath_fixed_clean p).
  unfold normalizePath.
  set (clean := if Nat.ltb 1 (String.length p)
                then replaceTrailingSlashes p else p).
  rewrite split_join.
  - f_equal. rewrite map_map. apply map_ext. intros x. apply normalizeSegment_idem.
  - pose proof (split_nonempty slash clean).
    destruct (split slash clean); [congruence|discriminate].
  - pose proof (split_noSlash clean) as F.
    induction F as [|x l Hx Hl IH]; constructor; [|exact IH].
    now apply normalizeSegment_noSlash.
Qed.

End NormalizeFacts.

(** ** The sanitizer *)

Module SanitizeFacts.
Import Js Json Sanitize SanitizeSpec.

(** *** Headers and query *)





(** *** Sensitive member names *)



(** *** Walking a masked value *)












(** *** Bodies *)



Definition quoted (s : string) : string :=
  String Reference.dq (s +:+ String Reference.dq EmptyString).






(** Scenarios 2 and 3 of section 8 in one record. *)
Definition scenarioBody : Body.t :=
  {| Body.mime := Some "application/json";
     Body.text :=
       Some (widen
               ("{" +:+ quoted "password" +:+ ":" +:+ quoted "p" +:+ ","
                +:+ quoted "user" +:+ ":{" +:+ quoted "token" +:+ ":"
                +:+ quoted "x" +:+ "," +:+ quoted "name" +:+ ":"
                +:+ quoted "y" +:+ "}}")) |}.

Definition scenarioLog : Log.t :=
  {| Log.id := "V1StGXR8_Z5jdHi6B-myT"; Log.ts := 1700000000000;
     Log.method := "POST"; Log.url := "http://example.com/login?code=1";
     Log.host := "example.com"; Log.path := "/login";
     Log.status := Some 200%Z; Log.durationMs := Some 12%Z;
     Log.request :=
       {| Request.headers :=
            <["Authorization" := "Bearer abc"]> (<["X-Trace" := "t1"]> ∅);
          Request.query := Some (<["code" := "1"]> ∅);
          Request.body := Some scenarioBody |};
     Log.response :=
       Some {| Response.headers := Some (<["set-cookie" := "sid=1"]> ∅);
               Response.body := None |} |}.

Example scenario_headers :
  Request.headers (Log.request (sanitizeLog Reference.runtime scenarioLog))
  = <["Authorization" := "***redacted***"]> (<["X-Trace" := "t1"]> ∅).
Proof. vm_compute. reflexivity. Qed.

Example scenario_body_masked :
  (Request.body (Log.request (sanitizeLog Reference.runtime scenarioLog))
     ≫= Body.text) ≫= JSON_parse Reference.runtime
  = Some (JObj [("password", JStr "***redacted***");
                ("user", JObj [("token", JStr "***redacted***");
                               ("name", JStr "y")])]).
Proof. vm_compute. reflexivity. Qed.



End SanitizeFacts.

(** ** Hop-by-hop headers *)

Module HopByHopFacts.
Import Js Proxy ProxySpec.

Example strip_scenario_4 :
  stripHopByHop
    (<["connection" := HStr "X-Custom, Keep-Alive"]>
       (<["x-custom" := HStr "v"]> (<["accept" := HStr "*/*"]> ∅)))
  = <["accept" := HStr "*/*"]> ∅.
Proof. vm_compute. reflexivity. Qed.

Lemma deleteListed_lookup (m : gmap string hval) t k v :
  deleteListed m t !! k = Some v -> m !! k = Some v /\ k <> t.
Proof.
  unfold deleteListed. intros H.
  apply lookup_delete_Some in H as [_ H].
  apply lookup_delete_Some in H as [Hne H]. split; [exact H|congruence].
Qed.

Lemma foldl_deleteListed_lookup ts : forall (m : gmap string hval) k v,
  foldl deleteListed m ts !! k = Some v -> m !! k = Some v /\ ~ In k ts.
Proof.
  induction ts as [|t ts IH]; intros m k v H; simpl in *.
  - split; [exact H|tauto].
  - apply IH in H as [H Hn]. apply deleteListed_lookup in H as [H Hne].
    split; [exact H|]. intros [E|E]; [congruence|contradiction].
Qed.

(** What survives was there before, is not one of the fixed names, and is
    not spelled like a token of the value the code read. *)
Lemma stripHopByHop_lookup (h : gmap string hval) k v :
  stripHopByHop h !! k = Some v ->
  h !! k = Some v /\ (toLowerCase k ∉ HOP_BY_HOP) /\
  (forall conn, connectionValue h = Some conn -> truthyV conn = true ->
                ~ In k (connectionTokens conn)).
Proof.
  unfold stripHopByHop. intros H.
  do 4 (apply lookup_delete_Some in H as [_ H]).
  apply map_lookup_filter_Some in H as [H Hfix]. simpl in Hfix.
  destruct (connectionValue h) as [conn|] eqn:C.
  - destruct (truthyV conn) eqn:T.
    + apply foldl_deleteListed_lookup in H as [H Hn].
      repeat split; try assumption.
      intros conn' [= <-] _. exact Hn.
    + repeat split; try assumption. intros conn' [= <-]. congruence.
  - repeat split; try assumption. intros conn' [=].
Qed.

Lemma truthy_true s : truthy s = true <-> s <> EmptyString.
Proof.
  unfold truthy. destruct (String.eqb_spec s EmptyString); simpl; split;
    congruence.
Qed.






End HopByHopFacts.

(** ** Captured text *)

Module CaptureFacts.
Import Js Proxy LogSpec.

(** *** The decoder never gives more code units than it reads bytes *)

Definition pending (st : Utf8.dstate) : nat :=
  if (Utf8.needed st =? 0)%N then 0 else 1.

Lemma utf16_length c : length (Utf8.utf16 c) <= 2.
Proof. unfold Utf8.utf16. destruct (c <? 65536)%N; simpl; lia. Qed.

Lemma lead_bound b :
  length (Utf8.lead b).2 + pending (Utf8.lead b).1 <= 1.
Proof.
  unfold Utf8.lead.
  repeat match goal with
         | |- context [if ?c then _ else _] => destruct c
         end; unfold pending; simpl; lia.
Qed.

Lemma stepByte_bound st b :
  length (Utf8.stepByte st b).2 + pending (Utf8.stepByte st b).1
  <= 1 + pending st.
Proof.
  unfold Utf8.stepByte, pending at 2.
  destruct (Utf8.needed st =? 0)%N eqn:E.
  - pose proof (lead_bound b). lia.
  - destruct ((Utf8.lower st <=? b)%N && (b <=? Utf8.upper st)%N).
    + destruct (Utf8.seen st + 1 =? Utf8.needed st)%N; simpl.
      * pose proof (utf16_length
                      (N.lor (N.shiftl (Utf8.codePoint st) 6) (N.land b 63))).
        unfold pending. simpl. lia.
      * unfold pending. simpl. rewrite E. lia.
    + pose proof (lead_bound b) as H.
      destruct (Utf8.lead b) as [st' out]. simpl in *. lia.
Qed.

Lemma decodeFrom_length bs : forall st,
  length (Utf8.decodeFrom st bs) <= length bs + pending st.
Proof.
  induction bs as [|b r IH]; intros st; simpl.
  - unfold pending. destruct (Utf8.needed st =? 0)%N; simpl; lia.
  - pose proof (stepByte_bound st (Byte.to_N b)) as H.
    destruct (Utf8.stepByte st (Byte.to_N b)) as [st' out]. simpl in H.
    rewrite length_app. specialize (IH st'). lia.
Qed.

Lemma toString_length bs : length (Utf8.toString bs) <= length bs.
Proof.
  unfold Utf8.toString. pose proof (decodeFrom_length bs Utf8.initial) as H.
  unfold pending in H. simpl in H. lia.
Qed.

(** *** The tee keeps the first [BODY_LIMIT] bytes *)

Definition teeOk (t : Tee.t) : Prop :=
  length (concat (Tee.chunks t)) = Nat.min (Tee.size t) BODY_LIMIT.

Lemma teeOk_empty : teeOk Tee.empty.
Proof. reflexivity. Qed.

Lemma teeOk_onData t chunk : teeOk t -> teeOk (onData t chunk).
Proof.
  unfold teeOk, onData. simpl. intros H.
  destruct (Nat.ltb_spec (Tee.size t) BODY_LIMIT) as [L|L].
  - rewrite concat_app, length_app. simpl. rewrite app_nil_r, length_firstn. lia.
  - lia.
Qed.

Definition exchangeOk (st : Exchange.t) : Prop :=
  teeOk (Exchange.reqBody st)
  /\ forall up, Exchange.upstream st = Some up -> teeOk (Upstream.body up).

Lemma exchangeOk_safeFail st status :
  exchangeOk st -> exchangeOk (safeFail st status).
Proof.
  unfold safeFail, finishOnce. intros H.
  destruct (Exchange.done st); [exact H|]. simpl.
  destruct (Exchange.headersSent st); exact H.
Qed.

Lemma exchangeOk_step c st e : exchangeOk st -> exchangeOk (step c st e).
Proof.
  intros H. pose proof H as [Hr Hu]. destruct e; simpl.
  - split; [now apply teeOk_onData|exact Hu].
  - split; [exact Hr|]. intros up [= <-]. apply teeOk_empty.
  - destruct (Exchange.upstream st) as [up|] eqn:U; [|exact H].
    split; [exact Hr|]. intros up' [= <-]. simpl. apply teeOk_onData.
    now apply (proj2 H).
  - destruct (Exchange.upstream st) as [up|] eqn:U; [|exact H].
    unfold finishOnce. destruct (Exchange.done st); [exact H|].
    split; simpl; [exact Hr|].
    intros up' E. apply (proj2 H). congruence.
  - destruct (Exchange.upstream st); [|exact H].
    now apply exchangeOk_safeFail.
  - unfold onUpstreamReqError.
    destruct (exchangeOk_safeFail st 502 H) as [A B]. now split.
  - unfold onUpstreamReqError.
    destruct (exchangeOk_safeFail st 502 H) as [A B]. now split.
Qed.

Lemma exchangeOk_foldl c events : forall st,
  exchangeOk st -> exchangeOk (foldl (step c) st events).
Proof.
  induction events as [|e r IH]; intros st H; simpl; [exact H|].
  apply IH. now apply exchangeOk_step.
Qed.

Lemma exchangeOk_run c events : exchangeOk (run c events).
Proof.
  apply exchangeOk_foldl. split; [apply teeOk_empty|discriminate].
Qed.

Lemma BODY_LIMIT_Z : Z.of_nat BODY_LIMIT = 65536%Z.
Proof. unfold BODY_LIMIT. rewrite Nat2Z.inj_mul. reflexivity. Qed.

Lemma captureLimitedText_within chunks :
  length (concat chunks) <= BODY_LIMIT ->
  (Z.of_nat (length (captureLimitedText chunks)) <= 65536)%Z.
Proof.
  intros H. rewrite <- BODY_LIMIT_Z. apply Nat2Z.inj_le.
  unfold captureLimitedText. destruct chunks as [|c r]; [simpl; lia|].
  etransitivity; [apply toString_length|exact H].
Qed.

Lemma captureLimited_within buf :
  (Z.of_nat (length (Mitm.captureLimited buf)) <= 65536)%Z.
Proof.
  rewrite <- BODY_LIMIT_Z. apply Nat2Z.inj_le. unfold Mitm.captureLimited.
  etransitivity; [apply toString_length|].
  rewrite length_firstn. change Mitm.BODY_LIMIT with BODY_LIMIT. lia.
Qed.

Lemma teeOk_within t : teeOk t -> length (concat (Tee.chunks t)) <= BODY_LIMIT.
Proof. unfold teeOk. lia. Qed.

(** What holds of every record the plain-HTTP handler pushes. *)
Definition captured (c : Ctx.t) (log : Log.t) : Prop :=
  requestTextWithin 65536 log
  /\ (responseTextWithin 65536 log
      \/ exists now err, log = failureLog c now err).

Lemma captured_successLog c now (reqBody : Tee.t) up :
  teeOk reqBody -> teeOk (Upstream.body up) ->
  captured c (successLog c now (Tee.chunks reqBody) up).
Proof.
  intros Hr Hu. split; [|left].
  - intros b t [= <-] [= <-].
    apply captureLimitedText_within. now apply teeOk_within.
  - intros r b t [= <-] [= <-] [= <-].
    apply captureLimitedText_within. now apply teeOk_within.
Qed.

Lemma captured_failureLog c now err : captured c (failureLog c now err).
Proof.
  split; [|right; eauto]. intros b t H. discriminate H.
Qed.

Lemma pushed_safeFail st status :
  Exchange.pushed (safeFail st status) = Exchange.pushed st.
Proof.
  unfold safeFail, finishOnce. destruct (Exchange.done st); [reflexivity|].
  simpl. destruct (Exchange.headersSent st); reflexivity.
Qed.

Lemma captured_step c st e :
  exchangeOk st ->
  Forall (captured c) (Exchange.pushed st) ->
  Forall (captured c) (Exchange.pushed (step c st e)).
Proof.
  intros [Hr Hu] H. destruct e; simpl; try exact H.
  - destruct (Exchange.upstream st); exact H.
  - destruct (Exchange.upstream st) as [up|] eqn:U; [|exact H].
    unfold finishOnce. destruct (Exchange.done st); [exact H|]. simpl.
    apply Forall_app. split; [exact H|]. constructor; [|constructor].
    apply captured_successLog; [exact Hr|now apply Hu].
  - destruct (Exchange.upstream st); [|exact H]. now rewrite pushed_safeFail.
  - rewrite pushed_safeFail. apply Forall_app. split; [exact H|].
    constructor; [apply captured_failureLog|constructor].
  - rewrite pushed_safeFail. apply Forall_app. split; [exact H|].
    constructor; [apply captured_failureLog|constructor].
Qed.

Lemma captured_foldl c events : forall st,
  exchangeOk st ->
  Forall (captured c) (Exchange.pushed st) ->
  Forall (captured c) (Exchange.pushed (foldl (step c) st events)).
Proof.
  induction events as [|e r IH]; intros st Hok H; simpl; [exact H|].
  apply IH; [now apply exchangeOk_step|now apply captured_step].
Qed.

(** An exchange with [http://example.com/a?x=1]. *)
Definition sampleCtx : Ctx.t :=
  {| Ctx.id := "V1StGXR8_Z5jdHi6B-myT"; Ctx.ts := 1700000000000;
     Ctx.start := 1700000000000;
     Ctx.clientReq :=
       {| ClientReq.method := Some "POST";
          ClientReq.url := Some "http://example.com/a?x=1";
          ClientReq.headers :=
            <["host" := HStr "example.com"]>
              (<["content-type" := HStr "text/plain"]> ∅) |};
     Ctx.targetUrl :=
       {| Url.href := "http://example.com/a?x=1"; Url.protocol := "http:";
          Url.host := "example.com"; Url.hostname := "example.com";
          Url.port := EmptyString; Url.pathname := "/a"; Url.search := "?x=1";
          Url.searchParams := [("x", "1")] |} |}.

Definition longError : Err.t :=
  {| Err.code := Some "ERR_TLS_CERT_ALTNAME_INVALID";
     Err.message := Some (string_of_list_ascii (repeat "x"%char BODY_LIMIT)) |}.

(** **** C4 (counterexample).  The upstream request fails with an error
    whose message is 65536 characters long (a certificate error lists every
    name of the certificate).  The record pushed by the error listener
    carries the line [Bad Gateway: code message] as response body text,
    which is longer than 65536. *)
Lemma C4_error_text_counterexample :
  let log := failureLog sampleCtx 1700000000500 longError in
  Exchange.pushed (run sampleCtx [UpstreamReqError 1700000000500 longError])
  = [log]
  /\ ~ responseTextWithin 65536 log.
Proof.
  cbv zeta. split; [reflexivity|].
  intros H.
  specialize (H _ _ _ eq_refl eq_refl eq_refl).
  vm_compute in H. apply H. reflexivity.
Qed.

(** **** C4 (amended).  For all captured exchanges, in both the plain-HTTP
    forward proxy and the MITM proxy, the request body text and the response
    body text captured from the wire (when present) have length at most
    65536; the one record that is not bounded is the failure record of the
    plain-HTTP proxy, which has no request body and whose response body text
    is the proxy's own line made of the error's code and message. *)
Theorem C4_body_text_amended :
  (forall c events log,
      In log (Exchange.pushed (run c events)) ->
      requestTextWithin 65536 log
      /\ (responseTextWithin 65536 log
          \/ exists now err, log = failureLog c now err))
  /\ (forall URL_parse id ts start now isSSL req res reqChunks resChunks log,
        Mitm.log URL_parse id ts start now isSSL req res reqChunks resChunks
        = Some log ->
        requestTextWithin 65536 log /\ responseTextWithin 65536 log).
Proof.
  split.
  - intros c events log Hin.
    assert (F : Forall (captured c) (Exchange.pushed (run c events))).
    { apply captured_foldl; [|constructor].
      split; [apply teeOk_empty|discriminate]. }
    rewrite Forall_forall in F. apply F. now apply list_elem_of_In.
  - intros URL_parse id ts start now isSSL req res reqChunks resChunks log H.
    unfold Mitm.log in H.
    destruct (URL_parse (Mitm.fullUrl isSSL req)) as [u|]; [|discriminate H].
    injection H as <-. split.
    + intros b t [= <-] [= <-]. apply captureLimited_within.
    + intros r b t [= <-] [= <-] [= <-]. apply captureLimited_within.
Qed.

Definition sampleEvents : list event :=
  [ClientData [Byte.x68; Byte.x69];
   UpstreamResponse (Some 200%Z) (<["content-type" := HStr "text/plain"]> ∅);
   UpstreamData [Byte.xe2; Byte.x82; Byte.xac];
   UpstreamEnd 1700000000042].

Example sample_success_texts :
  map (fun log => (Request.body (Log.request log) ≫= Body.text,
                   (Log.response log ≫= Response.body) ≫= Body.text))
      (Exchange.pushed (run sampleCtx sampleEvents))
  = [(Some [104; 105]%N, Some [8364]%N)].
Proof. vm_compute. reflexivity. Qed.

Lemma C4_body_text_amended_witness :
  let log := successLog sampleCtx 1700000000042 [[Byte.x68; Byte.x69]]
               {| Upstream.statusCode := Some 200%Z;
                  Upstream.headers := <["content-type" := HStr "text/plain"]> ∅;
                  Upstream.body :=
                    {| Tee.chunks := [[Byte.xe2; Byte.x82; Byte.xac]];
                       Tee.size := 3 |} |} in
  In log (Exchange.pushed (run sampleCtx sampleEvents))
  /\ requestTextWithin 65536 log
  /\ (responseTextWithin 65536 log
      \/ exists now err, log = failureLog sampleCtx now err).
Proof.
  cbv zeta.
  assert (I : In (successLog sampleCtx 1700000000042 [[Byte.x68; Byte.x69]]
                    {| Upstream.statusCode := Some 200%Z;
                       Upstream.headers :=
                         <["content-type" := HStr "text/plain"]> ∅;
                       Upstream.body :=
                         {| Tee.chunks := [[Byte.xe2; Byte.x82; Byte.xac]];
                            Tee.size := 3 |} |})
                (Exchange.pushed (run sampleCtx sampleEvents))).
  { left. reflexivity. }
  split; [exact I|].
  exact (proj1 C4_body_text_amended sampleCtx sampleEvents _ I).
Defined.

End CaptureFacts.

(** ** Emission of records *)

Module EmissionFacts.
Import Js Proxy LogSpec.

(** *** The plain-HTTP handler *)

(** The fields every record of an exchange takes from its context. *)
Definition fieldsOf (c : Ctx.t) (log : Log.t) : Prop :=
  Log.id log = Ctx.id c
  /\ Log.ts log = Ctx.ts c
  /\ Log.method log = orElse (ClientReq.method (Ctx.clientReq c)) "GET"
  /\ Log.url log = Url.href (Ctx.targetUrl c)
  /\ Log.host log = Url.host (Ctx.targetUrl c)
  /\ Log.path log = Url.pathname (Ctx.targetUrl c).

Lemma fieldsOf_step c st e :
  Forall (fieldsOf c) (Exchange.pushed st) ->
  Forall (fieldsOf c) (Exchange.pushed (step c st e)).
Proof.
  intros H. destruct e; simpl; try exact H.
  - destruct (Exchange.upstream st); exact H.
  - destruct (Exchange.upstream st) as [up|]; [|exact H].
    unfold finishOnce. destruct (Exchange.done st); [exact H|]. simpl.
    apply Forall_app. split; [exact H|].
    constructor; [repeat split|constructor].
  - destruct (Exchange.upstream st); [|exact H].
    now rewrite CaptureFacts.pushed_safeFail.
  - rewrite CaptureFacts.pushed_safeFail. apply Forall_app. split; [exact H|].
    constructor; [repeat split|constructor].
  - rewrite CaptureFacts.pushed_safeFail. apply Forall_app. split; [exact H|].
    constructor; [repeat split|constructor].
Qed.

Lemma fieldsOf_foldl c events : forall st,
  Forall (fieldsOf c) (Exchange.pushed st) ->
  Forall (fieldsOf c) (Exchange.pushed (foldl (step c) st events)).
Proof.
  induction events as [|e r IH]; intros st H; simpl; [exact H|].
  apply IH. now apply fieldsOf_step.
Qed.

Lemma fieldsOf_run c events :
  Forall (fieldsOf c) (Exchange.pushed (run c events)).
Proof. apply fieldsOf_foldl. constructor. Qed.

Lemma orElse_filled a b : b <> EmptyString -> orElse a b <> EmptyString.
Proof.
  intros Hb. unfold orElse. destruct a as [s|]; [|exact Hb].
  destruct (truthy s) eqn:T; [|exact Hb].
  now apply HopByHopFacts.truthy_true.
Qed.

Lemma safeUrl_parsed URL_parse req u :
  safeUrlFromRequest URL_parse req = Some u ->
  exists s, URL_parse s = Some u.
Proof.
  unfold safeUrlFromRequest.
  destruct (URL_parse (default EmptyString (ClientReq.url req))) eqn:E.
  - intros [= <-]. eauto.
  - destruct (ClientReq.headers req !! "host") as [h|]; [|discriminate].
    destruct (truthyV h); [|discriminate]. eauto.
Qed.

Lemma accept_started URL_parse id ts start req c :
  accept URL_parse id ts start req = Started c ->
  Ctx.id c = id /\ Ctx.ts c = ts
  /\ (exists s, URL_parse s = Some (Ctx.targetUrl c))
  /\ (Url.protocol (Ctx.targetUrl c) = "http:"
      \/ Url.protocol (Ctx.targetUrl c) = "https:").
Proof.
  unfold accept.
  destruct (safeUrlFromRequest URL_parse req) as [u|] eqn:E; [|discriminate].
  destruct (String.eqb_spec (Url.protocol u) "https:") as [P|P]; simpl.
  - intros [= <-]. simpl. repeat split; [eapply safeUrl_parsed; eassumption|now right].
  - destruct (String.eqb_spec (Url.protocol u) "http:") as [Q|Q]; [|discriminate].
    intros [= <-]. simpl. repeat split; [eapply safeUrl_parsed; eassumption|now left].
Qed.

Lemma startsWith_filled p s :
  p <> EmptyString -> startsWith p s = true -> s <> EmptyString.
Proof. destruct p; [congruence|]. destruct s; [discriminate|discriminate]. Qed.

(** *** The CONNECT handler *)

Lemma append_filled_r a c b : a +:+ String c b <> EmptyString.
Proof. destruct a; discriminate. Qed.

Definition connectFields (c : Connect.ctx) (log : Log.t) : Prop :=
  Log.id log = Connect.id c /\ Log.ts log = Connect.ts c
  /\ Log.method log = "CONNECT"
  /\ Log.url log <> EmptyString /\ Log.host log <> EmptyString
  /\ Log.path log = EmptyString.

Lemma connectFields_log Number_truthy c now status :
  connectFields c (connectLog Number_truthy c now status).
Proof.
  repeat split; simpl.
  - discriminate.
  - apply append_filled_r.
Qed.

Lemma connectFields_foldl Number_truthy c events : forall st,
  Forall (connectFields c) (Connect.pushed st) ->
  Forall (connectFields c)
         (Connect.pushed (foldl (connectStep Number_truthy c) st events)).
Proof.
  induction events as [|e r IH]; intros st H; simpl; [exact H|].
  apply IH. destruct e; simpl; unfold finish;
    (destruct (Connect.finished st); [exact H|]); simpl;
    (apply Forall_app; split; [exact H|]);
    (constructor; [apply connectFields_log|constructor]).
Qed.

(** The tunnel handler pushes one record at most. *)
Lemma connect_once Number_truthy c events : forall st,
  length (Connect.pushed st) <= (if Connect.finished st then 1 else 0) ->
  length (Connect.pushed (foldl (connectStep Number_truthy c) st events)) <= 1.
Proof.
  induction events as [|e r IH]; intros st H; simpl.
  - destruct (Connect.finished st); lia.
  - apply IH. destruct e; simpl; unfold finish;
      destruct (Connect.finished st) eqn:F; simpl; rewrite ?F, ?length_app;
      simpl; lia.
Qed.

Definition tunnelCtx : Connect.ctx :=
  {| Connect.id := "V1StGXR8_Z5jdHi6B-myT"; Connect.ts := 1700000000000;
     Connect.start := 1700000000000; Connect.url := Some "example.com:443";
     Connect.headers := <["host" := HStr "example.com:443"]> ∅ |}.

(** **** C2 (counterexample).  The record of the tunnel to
    [example.com:443] (scenario 5 of section 8) has the empty string as its
    path: the CONNECT handler writes the path field as an empty literal. *)
Lemma C2_connect_path_counterexample :
  exists log,
    Connect.pushed
      (connectRun Reference.numberTruthy tunnelCtx [Connected 1700000000007])
    = [log]
    /\ Log.method log = "CONNECT"
    /\ Log.url log = "https://example.com:443"
    /\ Log.status log = Some 200%Z
    /\ Log.path log = EmptyString
    /\ ~ pathFilled log.
Proof.
  eexists. split; [reflexivity|]. repeat split.
  intros H. apply H. reflexivity.
Qed.

(** **** C2 (amended).  For every LogRecord emitted by the proxy handlers
    (plain-HTTP success and failure records, and CONNECT tunnel records),
    the fields url, host, method, id and ts are never empty; path is never
    empty in the plain-HTTP records, and is always the empty string in
    the CONNECT tunnel records.  (The id is the non-empty string nanoid
    gives, ts is the stamp taken when the handler starts, and URL objects
    are those of the URL standard.) *)
Theorem C2_fields_filled_amended :
  (forall URL_parse id ts start req c events log,
      standardUrls URL_parse -> id <> EmptyString ->
      accept URL_parse id ts start req = Started c ->
      In log (Exchange.pushed (run c events)) ->
      namedFieldsFilled log /\ pathFilled log /\ Log.ts log = ts)
  /\ (forall Number_truthy c events log,
        Connect.id c <> EmptyString ->
        In log (Connect.pushed (connectRun Number_truthy c events)) ->
        namedFieldsFilled log /\ Log.path log = EmptyString
        /\ Log.ts log = Connect.ts c).
Proof.
  split.
  - intros URL_parse id ts start req c events log Hstd Hid Hacc Hin.
    apply accept_started in Hacc as (Eid & Ets & (s & Hs) & Hproto).
    destruct (Hstd _ _ Hs) as [Hhref Hhttp].
    destruct (Hhttp Hproto) as [Hhost Hpath].
    pose proof (fieldsOf_run c events) as F. rewrite Forall_forall in F.
    destruct (F log) as (Fi & Ft & Fm & Fu & Fh & Fp);
      [now apply list_elem_of_In|].
    unfold namedFieldsFilled, pathFilled.
    rewrite Fi, Ft, Fm, Fu, Fh, Fp, Eid, Ets.
    repeat split; try assumption.
    + apply orElse_filled. discriminate.
    + eapply startsWith_filled; [|exact Hpath]. discriminate.
  - intros Number_truthy c events log Hid Hin.
    assert (F : Forall (connectFields c)
                  (Connect.pushed (connectRun Number_truthy c events))).
    { apply connectFields_foldl. constructor. }
    rewrite Forall_forall in F.
    destruct (F log) as (Fi & Ft & Fm & Fu & Fh & Fp);
      [now apply list_elem_of_In|].
    unfold namedFieldsFilled. rewrite Fi, Fm.
    repeat split; try assumption. discriminate.
Qed.

(** *** The reference URL reader meets the standard's guarantees *)

Lemma takeUntil_rest stop s a b :
  Reference.takeUntil stop s = (a, b) ->
  b = EmptyString \/ exists c r, b = String c r /\ stop c = true.
Proof.
  revert a b. induction s as [|c r IH]; intros a b H; simpl in H.
  - injection H as <- <-. now left.
  - destruct (stop c) eqn:S.
    + injection H as <- <-. right. eauto.
    + destruct (Reference.takeUntil stop r) as [a' b'] eqn:E.
      injection H as <- <-. eapply IH. reflexivity.
Qed.

Lemma takeUntil_empty stop s b :
  Reference.takeUntil stop s = (EmptyString, b) -> b = s.
Proof.
  destruct s as [|c r]; simpl; [now intros [= <-]|].
  destruct (stop c); [now intros [= <-]|].
  destruct (Reference.takeUntil stop r). discriminate.
Qed.

Lemma reference_urls_standard : standardUrls Reference.urlParse.
Proof.
  intros s u H. unfold Reference.urlParse in H.
  assert (G : forall proto rest,
    proto <> EmptyString ->
    (let '(authority, rest1) :=
       Reference.takeUntil (fun c => (Ascii.eqb c "/" || Ascii.eqb c "?"
                                      || Ascii.eqb c "#")%bool) rest in
     let '(path, rest2) :=
       Reference.takeUntil (fun c => (Ascii.eqb c "?" || Ascii.eqb c "#")%bool)
                           rest1 in
     let '(query, _) := Reference.takeUntil (fun c => Ascii.eqb c "#") rest2 in
     let '(name, portPart) :=
       Reference.takeUntil (fun c => Ascii.eqb c ":") authority in
     let pathname := if truthy path then path else "/" in
     let search := if String.eqb query "?" then EmptyString else query in
     if truthy name then
       Some {| Url.href := proto +:+ "//" +:+ authority +:+ pathname +:+ search;
               Url.protocol := proto;
               Url.host := authority;
               Url.hostname := name;
               Url.port := Reference.dropChars 1 portPart;
               Url.pathname := pathname;
               Url.search := search;
               Url.searchParams := Reference.formParse search |}
     else None) = Some u ->
    Url.href u <> EmptyString
    /\ (Url.protocol u = "http:" \/ Url.protocol u = "https:" ->
        Url.host u <> EmptyString
        /\ startsWith "/" (Url.pathname u) = true)).
  { clear. intros proto rest Hp H.
    destruct (Reference.takeUntil _ rest) as [authority rest1] eqn:E1.
    destruct (Reference.takeUntil _ rest1) as [path rest2] eqn:E2.
    destruct (Reference.takeUntil _ rest2) as [query rest3] eqn:E3.
    destruct (Reference.takeUntil _ authority) as [name portPart] eqn:E4.
    cbv zeta in H. destruct (truthy name) eqn:T; [|discriminate H].
    injection H as <-. simpl. split.
    - destruct proto; [congruence|discriminate].
    - intros _. split.
      + intros ->. simpl in E4. injection E4 as <- <-. discriminate T.
      + destruct (truthy path) eqn:Tp; [|reflexivity].
        apply takeUntil_rest in E1 as [->|(c & r & -> & Hc)].
        * simpl in E2. injection E2 as <- <-. discriminate Tp.
        * simpl in E2.
          destruct (Ascii.eqb_spec c "?") as [->|N1]; simpl in E2;
            [injection E2 as <- <-; discriminate Tp|].
          destruct (Ascii.eqb_spec c "#") as [->|N2]; simpl in E2;
            [injection E2 as <- <-; discriminate Tp|].
          destruct (Ascii.eqb_spec c "/") as [->|N3];
            [|rewrite !orb_false_r in Hc; simpl in Hc;
              destruct (Ascii.eqb_spec c "?"); [contradiction|];
              destruct (Ascii.eqb_spec c "#"); [contradiction|discriminate Hc]].
          destruct (Reference.takeUntil _ r) as [a' b'].
          injection E2 as <- <-. reflexivity. }
  destruct (startsWith "http://" s).
  - apply (G "http:" _ ltac:(discriminate) H).
  - destruct (startsWith "https://" s); [|discriminate H].
    apply (G "https:" _ ltac:(discriminate) H).
Qed.

Lemma C2_fields_filled_amended_witness :
  let req := Ctx.clientReq CaptureFacts.sampleCtx in
  let log := failureLog CaptureFacts.sampleCtx 1700000015003 timeoutError in
  standardUrls Reference.urlParse
  /\ accept Reference.urlParse "V1StGXR8_Z5jdHi6B-myT" 1700000000000
            1700000000000 req
     = Started CaptureFacts.sampleCtx
  /\ In log (Exchange.pushed
               (run CaptureFacts.sampleCtx [UpstreamTimeout 1700000015003]))
  /\ namedFieldsFilled log /\ pathFilled log
  /\ Log.ts log = 1700000000000%Z.
Proof.
  cbv zeta.
  assert (A : accept Reference.urlParse "V1StGXR8_Z5jdHi6B-myT" 1700000000000
                1700000000000 (Ctx.clientReq CaptureFacts.sampleCtx)
              = Started CaptureFacts.sampleCtx).
  { vm_compute. reflexivity. }
  assert (I : In (failureLog CaptureFacts.sampleCtx 1700000015003 timeoutError)
                (Exchange.pushed
                   (run CaptureFacts.sampleCtx [UpstreamTimeout 1700000015003]))).
  { left. reflexivity. }
  split; [exact reference_urls_standard|].
  split; [exact A|]. split; [exact I|].
  refine (proj1 C2_fields_filled_amended Reference.urlParse _ _ _ _ _ _ _
            reference_urls_standard _ A I).
  discriminate.
Defined.

(** *** How many records an exchange pushes *)

(** **** C3 (the code at the failing inputs).  When the upstream response
    fails after its headers (the [error] listener of [upstreamRes] runs and
    nothing else), no record is pushed; and when the [error] listener of
    [upstreamReq] runs after the response has ended, a second record is
    pushed: the push of the failure record is not under [finishOnce]. *)
Theorem C3_emission_not_single c sc hs chunk err now now' :
  Exchange.pushed
    (run c [UpstreamResponse sc hs; UpstreamData chunk; UpstreamResError err])
  = []
  /\ length
       (Exchange.pushed
          (run c [UpstreamResponse sc hs; UpstreamEnd now;
                  UpstreamReqError now' err]))
     = 2.
Proof. split; reflexivity. Qed.

(** The success path is under [finishOnce]: once [done] is set, the [end]
    listener pushes nothing. *)
Lemma end_after_done c st now :
  Exchange.done st = true -> step c st (UpstreamEnd now) = st.
Proof.
  intros D. simpl. destruct (Exchange.upstream st); [|reflexivity].
  unfold finishOnce. now rewrite D.
Qed.

(** The failure path is not: the [error] listener of [upstreamReq] pushes
    a record in every state. *)
Lemma reqError_always_pushes c st now err :
  Exchange.pushed (step c st (UpstreamReqError now err))
  = Exchange.pushed st ++ [failureLog c now err].
Proof. simpl. now rewrite CaptureFacts.pushed_safeFail. Qed.

End EmissionFacts.

(** ** Sorting *)

Module SortFacts.
Import Js.

Lemma insertWith_perm {A} (cmp : A -> A -> Z) x l :
  insertWith cmp x l ≡ₚ x :: l.
Proof.
  induction l as [|y t IH]; simpl; [reflexivity|].
  destruct (cmp y x <? 0)%Z; [|reflexivity].
  rewrite IH. apply Permutation_swap.
Qed.

Lemma sortWith_perm {A} (cmp : A -> A -> Z) l : sortWith cmp l ≡ₚ l.
Proof.
  induction l as [|x t IH]; simpl; [reflexivity|].
  rewrite insertWith_perm. now rewrite IH.
Qed.

Lemma sortWith_elem {A} (cmp : A -> A -> Z) l x : x ∈ sortWith cmp l <-> x ∈ l.
Proof. now rewrite sortWith_perm. Qed.

Lemma insertWith_sorted {A} (cmp : A -> A -> Z) x l :
  (forall a b, (cmp a b < 0 \/ cmp b a <= 0)%Z) ->
  Sorted (fun a b => (cmp a b <= 0)%Z) l ->
  Sorted (fun a b => (cmp a b <= 0)%Z) (insertWith cmp x l).
Proof.
  intros T H. induction H as [|y t Ht IH Hd]; simpl.
  - repeat constructor.
  - destruct (Z.ltb_spec (cmp y x) 0) as [L|L].
    + constructor; [exact IH|].
      destruct t as [|z t']; simpl.
      * constructor. lia.
      * destruct (cmp z x <? 0)%Z.
        -- constructor. now inversion Hd.
        -- constructor. lia.
    + constructor; [now constructor|]. constructor.
      destruct (T y x); lia.
Qed.

Lemma sortWith_sorted {A} (cmp : A -> A -> Z) l :
  (forall a b, (cmp a b < 0 \/ cmp b a <= 0)%Z) ->
  Sorted (fun a b => (cmp a b <= 0)%Z) (sortWith cmp l).
Proof.
  intros T. induction l as [|x t IH]; simpl; [constructor|].
  now apply insertWith_sorted.
Qed.

(** *** Strings by code unit *)

Lemma compareStrings_total a b :
  (compareStrings a b < 0 \/ compareStrings b a <= 0)%Z.
Proof.
  unfold compareStrings. rewrite (String.compare_antisym a b).
  destruct (String.compare b a); simpl; lia.
Qed.

Lemma compareStrings_zero a b : compareStrings a b = 0%Z -> a = b.
Proof.
  unfold compareStrings. destruct (String.compare a b) eqn:E; try discriminate.
  intros _. now apply String.compare_eq_iff.
Qed.

Lemma dedupeFrom_elem l : forall seen x,
  x ∈ dedupeFrom seen l <-> x ∈ l /\ x ∉ seen.
Proof.
  induction l as [|y t IH]; intros seen x; simpl.
  - split; [intros H; inversion H|intros [H _]; inversion H].
  - destruct (existsb (String.eqb y) seen) eqn:E.
    + rewrite IH. apply existsb_exists in E as (z & Hz & Ez).
      apply String.eqb_eq in Ez. subst z. apply list_elem_of_In in Hz.
      split; [intros [H1 H2]; split; [now right|exact H2]|].
      intros [H1 H2]. split; [|exact H2].
      apply elem_of_cons in H1 as [->|H1]; [contradiction|exact H1].
    + assert (Hy : y ∉ seen).
      { intros Hy. apply list_elem_of_In in Hy.
        assert (existsb (String.eqb y) seen = true)
          by (apply existsb_exists; exists y; split; [exact Hy|apply String.eqb_refl]).
        congruence. }
      split.
      * intros H. apply elem_of_cons in H as [->|H].
        -- split; [now left|exact Hy].
        -- apply IH in H as [H1 H2]. split; [now right|].
           intros H. apply H2. now right.
      * intros [H1 H2]. apply elem_of_cons in H1 as [->|H1]; [now left|].
        destruct (decide (x = y)) as [->|N]; [now left|right].
        apply IH. split; [exact H1|].
        intros H. apply elem_of_cons in H as [?|?]; congruence.
Qed.

Lemma dedupeFrom_NoDup l : forall seen, NoDup (dedupeFrom seen l).
Proof.
  induction l as [|y t IH]; intros seen; simpl; [constructor|].
  destruct (existsb (String.eqb y) seen); [apply IH|].
  apply NoDup_cons. split; [|apply IH].
  rewrite dedupeFrom_elem. intros [_ H]. apply H. now left.
Qed.

Lemma dedupe_elem l x : x ∈ dedupe l <-> x ∈ l.
Proof.
  unfold dedupe. rewrite dedupeFrom_elem. split; [tauto|].
  intros H. split; [exact H|]. intros H'. inversion H'.
Qed.

(** A sorted list without repetition is strictly sorted. *)
Lemma sorted_NoDup_strict l :
  Sorted (fun a b => (compareStrings a b <= 0)%Z) l -> NoDup l ->
  Sorted (fun a b => (compareStrings a b < 0)%Z) l.
Proof.
  intros S. induction S as [|x t St IH Hd]; intros N; [constructor|].
  apply NoDup_cons in N as [Hx Nt].
  constructor; [now apply IH|].
  destruct Hd as [|y t' Hxy]; constructor.
  destruct (Z.eq_dec (compareStrings x y) 0%Z) as [E|E]; [|lia].
  apply compareStrings_zero in E. subst y. exfalso. apply Hx. now left.
Qed.

Lemma sorted_union_keys a b :
  Sorted (fun x y => (compareStrings x y < 0)%Z)
         (sortWith compareStrings (dedupe (a ++ b))).
Proof.
  apply sorted_NoDup_strict.
  - apply sortWith_sorted, compareStrings_total.
  - rewrite sortWith_perm. apply dedupeFrom_NoDup.
Qed.

Lemma union_keys_elem a b q :
  q ∈ sortWith compareStrings (dedupe (a ++ b)) <-> q ∈ a \/ q ∈ b.
Proof. now rewrite sortWith_elem, dedupe_elem, elem_of_app. Qed.

End SortFacts.

(** ** The catalog *)

Module CatalogFacts.
Import Js CatalogBuilder CatalogSpec.

(** *** Count maps *)




(** *** Groups and totals *)

Lemma total_app f a b : total f (a ++ b) = (total f a + total f b)%Z.
Proof.
  unfold total. induction a as [|x t IH]; simpl; [reflexivity|].
  rewrite IH. lia.
Qed.





(** *** The map of summaries *)

Lemma mapGet_None k m : mapGet k m = None <-> k ∉ map fst m.
Proof.
  induction m as [|[k' v] t IH]; simpl.
  - split; [intros _ H; inversion H|reflexivity].
  - destruct (String.eqb_spec k k') as [->|N].
    + split; [discriminate|]. intros H. exfalso. apply H. now left.
    + rewrite IH, not_elem_of_cons. tauto.
Qed.

Lemma mapGet_Some k m v : mapGet k m = Some v -> (k, v) ∈ m.
Proof.
  induction m as [|[k' v'] t IH]; simpl; [discriminate|].
  destruct (String.eqb_spec k k') as [->|N].
  - intros [= ->]. now left.
  - intros H. right. now apply IH.
Qed.

Lemma mapReplace_keys k v m : map fst (mapReplace k v m) = map fst m.
Proof.
  induction m as [|[k' v'] t IH]; simpl; [reflexivity|].
  destruct (String.eqb k k'); simpl; [reflexivity|]. now rewrite IH.
Qed.

Lemma mapReplace_elem k v m k' v' :
  NoDup (map fst m) ->
  (k', v') ∈ mapReplace k v m ->
  (k' = k /\ v' = v) \/ (k' <> k /\ (k', v') ∈ m).
Proof.
  induction m as [|[k0 v0] t IH]; simpl; intros N H; [inversion H|].
  apply NoDup_cons in N as [N0 N].
  destruct (String.eqb_spec k k0) as [->|Ne].
  - apply elem_of_cons in H as [[= -> ->]|H]; [now left|].
    right. split; [|now right].
    intros ->. apply N0. apply list_elem_of_fmap. exists (k0, v'). now split.
  - apply elem_of_cons in H as [[= -> ->]|H].
    + right. split; [congruence|now left].
    + destruct (IH N H) as [?|[? ?]]; [now left|right]. split; [assumption|now right].
Qed.

(** *** One more endpoint *)











Lemma fold_reports reports : forall byKey,
  fold_left (fun m r => fold_left addEndpoint (Report.endpoints r) m)
            reports byKey
  = fold_left addEndpoint (endpointsOf reports) byKey.
Proof.
  unfold endpointsOf.
  induction reports as [|r t IH]; intros byKey; simpl; [reflexivity|].
  rewrite IH. now rewrite fold_left_app.
Qed.


(** *** Grouping the sessions by route key *)

Section Groups.
Variable readReport : string -> option Report.t.
Variable readLogs : string -> Z -> list Json.json.
Variable buildRouteReport : string -> string -> list Json.json -> Report.t.












End Groups.


(** Two sessions of the route [/shop] and one of [/admin]. *)
Definition shopEndpoint (n : Z) (status : string) (keys : list string)
  : Endpoint.t :=
  {| Endpoint.key := "GET example.com /items/:id";
     Endpoint.method := "GET"; Endpoint.host := "example.com";
     Endpoint.path := "/items/:id"; Endpoint.count := n;
     Endpoint.statuses := {[ status := n ]};
     Endpoint.queryKeys := keys;
     Endpoint.mimeReq := {[ EmptyString := n ]};
     Endpoint.mimeRes := {[ "application/json" := n ]};
     Endpoint.sample := None |}.

Definition sampleReports (id : string) : option Report.t :=
  if String.eqb id "s1" then
    Some {| Report.routeKey := "/shop"; Report.sessionId := "s1";
            Report.createdAt := 1; Report.totalLogs := 3;
            Report.endpoints := [shopEndpoint 3 "200" ["page"]] |}
  else if String.eqb id "s2" then
    Some {| Report.routeKey := "/shop"; Report.sessionId := "s2";
            Report.createdAt := 2; Report.totalLogs := 2;
            Report.endpoints := [shopEndpoint 2 "404" ["lang"; "page"]] |}
  else
    Some {| Report.routeKey := "/admin"; Report.sessionId := id;
            Report.createdAt := 3; Report.totalLogs := 0;
            Report.endpoints := [] |}.

Definition sampleSessions : list Session.t :=
  [{| Session.id := "s1"; Session.name := "first"; Session.routeKey := Some "/shop" |};
   {| Session.id := "s3"; Session.name := "/admin"; Session.routeKey := None |};
   {| Session.id := "s2"; Session.name := "second"; Session.routeKey := Some "/shop " |}].

Definition sampleCatalog : Catalog.t :=
  buildRouteCatalog sampleReports (fun _ _ => [])
    (fun k id _ => {| Report.routeKey := k; Report.sessionId := id;
                      Report.createdAt := 0; Report.totalLogs := 0;
                      Report.endpoints := [] |})
    compareStrings 1700000000000 sampleSessions.

Example sample_catalog_keys :
  map (fun r => (Report.routeKey r, Report.sessionId r, Report.totalLogs r,
                 map (fun e => (Endpoint.count e, Endpoint.queryKeys e))
                     (Report.endpoints r)))
      (Catalog.routeReports sampleCatalog)
  = [("/admin", "/admin (1 sessions)", 0%Z, []);
     ("/shop", "/shop (2 sessions)", 5%Z, [(5%Z, ["lang"; "page"])])].
Proof. vm_compute. reflexivity. Qed.


End CatalogFacts.

(** ** Reading a session log *)

Module SessionFacts.
Import Js Json Completion SessionStore SessionSpec.

Section Store.
Variable rt : Runtime.
Variable files : string -> option text16.
Variable path_join : string -> string -> string -> string.
Variable rootDir : string.

Lemma parseLines_from slice : forall items,
  fold_left
    (fun items line =>
       match tryCatch (do v <- JSON_parse_ rt line; Normal (items ++ [v]))
                      (Normal items) with
       | Normal items' => items'
       | Thrown => items
       end)
    slice items
  = items ++ omap (JSON_parse rt) slice.
Proof.
  induction slice as [|line t IH]; intros items; simpl.
  - now rewrite app_nil_r.
  - rewrite IH. unfold JSON_parse_.
    destruct (JSON_parse rt line) as [v|]; simpl; [|reflexivity].
    now rewrite <- app_assoc.
Qed.

Lemma parseLines_omap slice : parseLines rt slice = omap (JSON_parse rt) slice.
Proof. unfold parseLines. now rewrite parseLines_from. Qed.



(** [read] always returns: the parsed meta, or [null]. *)
Lemma read_returns id :
  read rt files path_join rootDir id
  = Normal (default JNull
              (files (path_join rootDir id "meta.json") ≫= JSON_parse rt)).
Proof.
  unfold read, readFile, JSON_parse_. simpl.
  destruct (files (path_join rootDir id "meta.json")) as [txt|]; simpl;
    [|reflexivity].
  destruct (JSON_parse rt txt); reflexivity.
Qed.


End Store.

(** A store with one session, whose log has a malformed second line. *)
Definition line (s : string) : text16 := widen s ++ [10%N].

Definition sampleFiles (path : string) : option text16 :=
  if String.eqb path "data/sessions/s1/meta.json" then
    Some (widen ("{" +:+ SanitizeFacts.quoted "id" +:+ ":"
                 +:+ SanitizeFacts.quoted "s1" +:+ ","
                 +:+ SanitizeFacts.quoted "logsPath" +:+ ":"
                 +:+ SanitizeFacts.quoted "data/sessions/s1/logs.ndjson"
                 +:+ "}"))
  else if String.eqb path "data/sessions/s1/logs.ndjson" then
    Some (line "[1]" ++ line "{oops" ++ line "[3]" ++ line "[4]")
  else None.

Definition samplePath (a b c : string) : string := a +:+ "/" +:+ b +:+ "/" +:+ c.

Example readLogs_last_three :
  readLogs Reference.runtime sampleFiles samplePath "data/sessions" "s1" 3
  = Normal [JArr [JNum "3"]; JArr [JNum "4"]].
Proof. vm_compute. reflexivity. Qed.

Example readLogs_unknown_session :
  readLogs Reference.runtime sampleFiles samplePath "data/sessions" "nope" 3
  = Normal [].
Proof. vm_compute. reflexivity. Qed.

End SessionFacts.

(** ** What the tees keep *)

Module TeeFacts.
Import Js Proxy.

(** The tee after the bytes [s] have gone by. *)
Definition teeOf (t : Tee.t) (s : list Byte.byte) : Prop :=
  concat (Tee.chunks t) = firstn BODY_LIMIT s /\ Tee.size t = length s.

Lemma teeOf_onData t s chunk :
  teeOf t s -> teeOf (onData t chunk) (s ++ chunk).
Proof.
  unfold teeOf, onData. generalize BODY_LIMIT. intros L [C S]. simpl.
  rewrite S, length_app. split; [|reflexivity].
  rewrite firstn_app.
  destruct (Nat.ltb_spec (length s) L) as [Lt|Ge].
  - rewrite concat_app, C. simpl. now rewrite app_nil_r.
  - rewrite C. replace (L - length s) with 0 by lia.
    simpl. now rewrite app_nil_r.
Qed.

Lemma teeOf_foldl chunks : forall t s,
  teeOf t s -> teeOf (foldl onData t chunks) (s ++ concat chunks).
Proof.
  induction chunks as [|c r IH]; intros t s H; simpl.
  - now rewrite app_nil_r.
  - rewrite app_assoc. apply IH. now apply teeOf_onData.
Qed.

Lemma teeOf_empty : teeOf Tee.empty [].
Proof. split; [|reflexivity]. symmetry. apply firstn_nil. Qed.

(** **** X1.  Whatever the chunks the [data] listener is given, the tee
    holds the first 64 KiB of the stream, byte for byte (the chunk that
    crosses the limit is cut, the later ones are dropped), and its size
    counter is the length of the whole stream. *)
Theorem X1_tee_first_bytes (chunks : list (list Byte.byte)) :
  let t := foldl onData Tee.empty chunks in
  concat (Tee.chunks t) = firstn BODY_LIMIT (concat chunks)
  /\ Tee.size t = length (concat chunks).
Proof.
  exact (teeOf_foldl chunks Tee.empty [] teeOf_empty).
Qed.

(** What the MITM listener has kept after the bytes [s] have gone by: a
    prefix of them, and all of them while it is below the limit. *)
Definition keptOf (kept : list (list Byte.byte)) (s : list Byte.byte) : Prop :=
  (exists rest, s = concat kept ++ rest)
  /\ (length (concat kept) < Mitm.BODY_LIMIT -> concat kept = s).

Lemma keptOf_onChunk kept s chunk :
  keptOf kept s -> keptOf (Mitm.onChunk kept chunk) (s ++ chunk).
Proof.
  unfold keptOf, Mitm.onChunk. generalize Mitm.BODY_LIMIT.
  intros L [[rest P] F].
  destruct (Nat.ltb_spec (length (concat kept)) L) as [Lt|Ge].
  - rewrite concat_app. simpl. rewrite app_nil_r, (F Lt).
    split; [exists []; now rewrite app_nil_r|reflexivity].
  - split; [|lia]. exists (rest ++ chunk). now rewrite P, app_assoc.
Qed.

Lemma keptOf_foldl chunks : forall kept s,
  keptOf kept s -> keptOf (foldl Mitm.onChunk kept chunks) (s ++ concat chunks).
Proof.
  induction chunks as [|c r IH]; intros kept s H; simpl.
  - now rewrite app_nil_r.
  - rewrite app_assoc. apply IH. now apply keptOf_onChunk.
Qed.

Lemma keptOf_firstn kept s :
  keptOf kept s ->
  firstn Mitm.BODY_LIMIT (concat kept) = firstn Mitm.BODY_LIMIT s.
Proof.
  unfold keptOf. generalize Mitm.BODY_LIMIT. intros L [[rest P] F].
  destruct (Nat.ltb_spec (length (concat kept)) L) as [Lt|Ge].
  - now rewrite (F Lt).
  - rewrite P, firstn_app. replace (L - length (concat kept)) with 0 by lia.
    simpl. now rewrite app_nil_r.
Qed.

Lemma captureLimitedText_toString chunks :
  captureLimitedText chunks = Utf8.toString (concat chunks).
Proof. destruct chunks; reflexivity. Qed.

(** **** X2.  The MITM proxy keeps whole chunks and cuts when it builds the
    record: the captured text is the UTF-8 reading of the first 64 KiB of
    the stream, and it is the text the plain proxy's tee gives for the same
    chunks. *)
Theorem X2_mitm_capture_first_bytes (chunks : list (list Byte.byte)) :
  Mitm.captureLimited (foldl Mitm.onChunk [] chunks)
  = Utf8.toString (firstn Mitm.BODY_LIMIT (concat chunks))
  /\ Mitm.captureLimited (foldl Mitm.onChunk [] chunks)
     = captureLimitedText (Tee.chunks (foldl onData Tee.empty chunks)).
Proof.
  assert (K : keptOf (foldl Mitm.onChunk [] chunks) (concat chunks)).
  { apply (keptOf_foldl chunks [] []). split; [now exists []|reflexivity]. }
  assert (T : teeOf (foldl onData Tee.empty chunks) (concat chunks)).
  { exact (teeOf_foldl chunks Tee.empty [] teeOf_empty). }
  unfold Mitm.captureLimited. rewrite (keptOf_firstn _ _ K).
  split; [reflexivity|].
  rewrite captureLimitedText_toString. destruct T as [C _]. now rewrite C.
Qed.

End TeeFacts.

(** ** The listeners of one exchange, whatever the order of the events *)

Module ListenerFacts.
Import Js Proxy ProxyViews.

(** After [k] failures of the upstream request: [k] records for them, and
    at most one more, pushed by the listener that set [done]. *)
Definition counted (st : Exchange.t) (k : nat) : Prop :=
  (length (Exchange.pushed st) = k
   \/ (length (Exchange.pushed st) = S k /\ Exchange.done st = true))
  /\ (Exchange.pushed st <> [] -> Exchange.done st = true).

Lemma done_safeFail st status : Exchange.done (safeFail st status) = true.
Proof.
  unfold safeFail, finishOnce.
  destruct (Exchange.done st) eqn:D; simpl; [exact D|].
  now destruct (Exchange.headersSent st).
Qed.

Lemma counted_step c st e k :
  counted st k ->
  counted (step c st e) (if requestFailure e then S k else k).
Proof.
  intros [N P]. unfold counted. destruct e; simpl.
  - split; [exact N|exact P].
  - split; [exact N|exact P].
  - destruct (Exchange.upstream st); (split; [exact N|exact P]).
  - destruct (Exchange.upstream st) as [up|]; [|split; [exact N|exact P]].
    unfold finishOnce. destruct (Exchange.done st) eqn:D; simpl.
    + rewrite D. split; [exact N|exact P].
    + split; [|reflexivity]. right.
      rewrite length_app. simpl.
      destruct N as [N|[_ N]]; [|discriminate N].
      split; [lia|reflexivity].
  - destruct (Exchange.upstream st); [|split; [exact N|exact P]].
    rewrite CaptureFacts.pushed_safeFail, done_safeFail.
    split; [|reflexivity].
    destruct N as [N|[N _]]; [left; exact N|right; now split].
  - unfold onUpstreamReqError, pushLog. simpl.
    rewrite CaptureFacts.pushed_safeFail, done_safeFail, length_app. simpl.
    split; [|reflexivity].
    destruct N as [N|[N _]]; [left; lia|right; split; [lia|reflexivity]].
  - unfold onUpstreamReqError, pushLog. simpl.
    rewrite CaptureFacts.pushed_safeFail, done_safeFail, length_app. simpl.
    split; [|reflexivity].
    destruct N as [N|[N _]]; [left; lia|right; split; [lia|reflexivity]].
Qed.

Lemma counted_foldl c events : forall st k,
  counted st k -> counted (foldl (step c) st events) (k + failures events).
Proof.
  induction events as [|e r IH]; intros st k H; simpl.
  - unfold failures. simpl. now rewrite Nat.add_0_r.
  - apply (counted_step c st e k) in H. apply IH in H.
    unfold failures in *. rewrite filter_cons.
    destruct (requestFailure e); simpl.
    + destruct (decide (true = true)) as [_|N]; [|now destruct N].
      simpl. now replace (k + S (length (filter (fun e => requestFailure e = true) r)))
        with (S k + length (filter (fun e => requestFailure e = true) r)) by lia.
    + destruct (decide (false = true)) as [N|_]; [discriminate N|]. exact H.
Qed.

(** **** X3.  Whatever the order in which the listeners of an exchange run,
    every run of the [error] listener of [upstreamReq] (an error or the
    timer) pushes one record, and besides those at most one record is
    pushed, the one of the success path; no record is pushed before [done]
    is set. *)
Theorem X3_records_of_an_exchange (c : Ctx.t) (events : list event) :
  let st := run c events in
  failures events <= length (Exchange.pushed st)
  /\ length (Exchange.pushed st) <= S (failures events)
  /\ (Exchange.pushed st <> [] -> Exchange.done st = true).
Proof.
  assert (H : counted (run c events) (0 + failures events)).
  { apply counted_foldl. split; [now left|intros N; now destruct N]. }
  destruct H as [[N|[N _]] P]; simpl in *; (split; [lia|split; [lia|exact P]]).
Qed.

(** *** The answer to the client *)

(** The status line has been written exactly when a status is recorded. *)
Definition answered (st : Exchange.t) : Prop :=
  Exchange.headersSent st = true <-> is_Some (Exchange.clientStatus st).

Lemma answered_fresh : answered Exchange.fresh.
Proof.
  split; [discriminate|]. intros [s E]. discriminate E.
Qed.

Lemma safeFail_status st status s :
  answered st ->
  Exchange.clientStatus st = Some s ->
  Exchange.clientStatus (safeFail st status) = Some s.
Proof.
  intros A E. unfold safeFail, finishOnce.
  destruct (Exchange.done st); simpl; [exact E|].
  destruct (Exchange.headersSent st) eqn:H; simpl; [exact E|].
  assert (X : is_Some (Exchange.clientStatus st)) by (rewrite E; eauto).
  apply A in X. rewrite H in X. discriminate X.
Qed.

Lemma answered_safeFail st status : answered st -> answered (safeFail st status).
Proof.
  intros A. unfold answered, safeFail, finishOnce.
  destruct (Exchange.done st); simpl; [exact A|].
  destruct (Exchange.headersSent st) eqn:H; simpl.
  - unfold answered in A. rewrite H in A. exact A.
  - split; eauto.
Qed.

Lemma answered_step c st e : answered st -> answered (step c st e).
Proof.
  intros A. destruct e; simpl.
  - exact A.
  - unfold answered. simpl. destruct (Exchange.headersSent st) eqn:H.
    + split; [intros _; now apply A|reflexivity].
    + split; eauto.
  - destruct (Exchange.upstream st); exact A.
  - destruct (Exchange.upstream st); [|exact A].
    unfold finishOnce. destruct (Exchange.done st); exact A.
  - destruct (Exchange.upstream st); [|exact A]. now apply answered_safeFail.
  - unfold onUpstreamReqError. now apply (answered_safeFail st 502).
  - unfold onUpstreamReqError. now apply (answered_safeFail st 502).
Qed.

Lemma status_step c st e s :
  answered st ->
  Exchange.clientStatus st = Some s ->
  Exchange.clientStatus (step c st e) = Some s.
Proof.
  intros A E. destruct e; simpl.
  - exact E.
  - assert (X : is_Some (Exchange.clientStatus st)) by (rewrite E; eauto).
    apply A in X. now rewrite X.
  - destruct (Exchange.upstream st); exact E.
  - destruct (Exchange.upstream st); [|exact E].
    unfold finishOnce. destruct (Exchange.done st); exact E.
  - destruct (Exchange.upstream st); [|exact E]. now apply safeFail_status.
  - unfold onUpstreamReqError. simpl. now apply safeFail_status.
  - unfold onUpstreamReqError. simpl. now apply safeFail_status.
Qed.

Lemma status_foldl c events : forall st s,
  answered st ->
  Exchange.clientStatus st = Some s ->
  Exchange.clientStatus (foldl (step c) st events) = Some s.
Proof.
  induction events as [|e r IH]; intros st s A E; simpl; [exact E|].
  apply IH; [now apply answered_step|now apply status_step].
Qed.

Lemma answered_foldl c events : forall st,
  answered st -> answered (foldl (step c) st events).
Proof.
  induction events as [|e r IH]; intros st A; simpl; [exact A|].
  apply IH. now apply answered_step.
Qed.

(** **** X4.  The client is answered once: when a status line has been
    written (by the response callback, or by [safeFail] with 502), no
    later event of the exchange writes another. *)
Theorem X4_status_written_once (c : Ctx.t) (before after : list event) (s : Z) :
  Exchange.clientStatus (run c before) = Some s ->
  Exchange.clientStatus (run c (before ++ after)) = Some s.
Proof.
  intros E. unfold run. rewrite foldl_app.
  apply status_foldl; [|exact E].
  apply answered_foldl, answered_fresh.
Qed.

Lemma X4_status_written_once_witness :
  let before := [UpstreamResponse (Some 200%Z) ∅] in
  let after := [UpstreamReqError 1700000000500 timeoutError;
                UpstreamResponse (Some 204%Z) ∅] in
  Exchange.clientStatus (run CaptureFacts.sampleCtx before) = Some 200%Z
  /\ Exchange.clientStatus (run CaptureFacts.sampleCtx (before ++ after))
     = Some 200%Z
  /\ Exchange.clientDestroyed (run CaptureFacts.sampleCtx (before ++ after))
     = true.
Proof.
  split; [reflexivity|]. split; [|reflexivity].
  apply (X4_status_written_once CaptureFacts.sampleCtx
           [UpstreamResponse (Some 200%Z) ∅]
           [UpstreamReqError 1700000000500 timeoutError;
            UpstreamResponse (Some 204%Z) ∅] 200%Z).
  reflexivity.
Defined.

(** *** The CONNECT handler *)

Lemma finished_stays Number_truthy c events : forall st,
  Connect.finished st = true ->
  foldl (connectStep Number_truthy c) st events = st.
Proof.
  induction events as [|e r IH]; intros st F; simpl; [reflexivity|].
  assert (E : connectStep Number_truthy c st e = st).
  { destruct e; simpl; unfold finish; now rewrite F. }
  rewrite E. now apply IH.
Qed.

(** **** X5.  A tunnel gives exactly one record, that of the first event:
    status 200 when the connection to the target came first, 502 when a
    socket error came first; whatever follows (errors after the tunnel is
    up, a late connect after an error) pushes nothing. *)
Theorem X5_connect_one_record Number_truthy (c : Connect.ctx)
  (e : connectEvent) (later : list connectEvent) :
  Connect.pushed (connectRun Number_truthy c (e :: later))
  = [connectLog Number_truthy c (connectTime e) (connectStatus e)].
Proof.
  unfold connectRun. simpl.
  rewrite finished_stays; destruct e; reflexivity.
Qed.

End ListenerFacts.

(** ** What [stripHopByHop] keeps *)

Module StripFacts.
Import Js Proxy ProxyViews.

Lemma lowerChar_idem c : lowerChar (lowerChar c) = lowerChar c.
Proof. destruct c as [[] [] [] [] [] [] [] []]; reflexivity. Qed.

Lemma toLowerCase_idem s : toLowerCase (toLowerCase s) = toLowerCase s.
Proof.
  induction s as [|c r IH]; simpl; [reflexivity|].
  now rewrite lowerChar_idem, IH.
Qed.

Lemma connectionTokens_lower conn t :
  In t (connectionTokens conn) -> toLowerCase t = t.
Proof.
  unfold connectionTokens. intros H.
  apply list_elem_of_In, list_elem_of_filter in H as [_ H].
  apply list_elem_of_fmap in H as [s [-> _]]. apply toLowerCase_idem.
Qed.

Lemma foldl_deleteListed_keep ts : forall (m : gmap string hval) k v,
  m !! k = Some v ->
  (forall t, In t ts -> toLowerCase t = t) ->
  ~ In k ts ->
  foldl deleteListed m ts !! k = Some v.
Proof.
  induction ts as [|t ts IH]; intros m k v H L N; simpl; [exact H|].
  apply IH.
  - unfold deleteListed. rewrite (L t (or_introl eq_refl)).
    rewrite !lookup_delete_ne; [exact H| |];
      intros ->; apply N; now left.
  - intros t' I. apply L. now right.
  - intros I. apply N. now right.
Qed.

Lemma listed_spec h k :
  ~ In k (listed h)
  <-> (forall conn, connectionValue h = Some conn -> truthyV conn = true ->
                    ~ In k (connectionTokens conn)).
Proof.
  unfold listed. destruct (connectionValue h) as [conn|].
  - destruct (truthyV conn) eqn:T.
    + split; [intros N conn' [= <-] _; exact N|intros F; now apply F].
    + split; [intros _ conn' [= <-]; congruence|intros _ []].
  - split; [intros _ conn' [=]|intros _ []].
Qed.

Lemma fixed_names_go k :
  toLowerCase k ∉ HOP_BY_HOP ->
  k <> "connection" /\ k <> "Connection"
  /\ k <> "proxy-connection" /\ k <> "Proxy-Connection".
Proof.
  intros N. repeat split; intros ->; apply N; vm_compute; tauto.
Qed.

Lemma stripHopByHop_keeps (h : gmap string hval) k v :
  h !! k = Some v -> toLowerCase k ∉ HOP_BY_HOP -> ~ In k (listed h) ->
  stripHopByHop h !! k = Some v.
Proof.
  intros H F N. unfold stripHopByHop.
  destruct (fixed_names_go k F) as (N1 & N2 & N3 & N4).
  rewrite !lookup_delete_ne by congruence.
  apply map_lookup_filter_Some. split; [|exact F].
  unfold listed in N. destruct (connectionValue h) as [conn|]; [|exact H].
  destruct (truthyV conn); [|exact H].
  apply foldl_deleteListed_keep; [exact H| |exact N].
  intros t. apply connectionTokens_lower.
Qed.

(** **** X6.  [stripHopByHop] takes away nothing else: a header is in the
    output, with the value it had, exactly when its name is not one of the
    seven hop-by-hop names (whatever its letter case) and is not spelled
    like one of the lower-cased items of the [Connection] value the code
    read. *)
Theorem X6_stripHopByHop_keeps_the_rest (h : gmap string hval) (k : string)
  (v : hval) :
  stripHopByHop h !! k = Some v
  <-> h !! k = Some v /\ (toLowerCase k ∉ HOP_BY_HOP) /\ ~ In k (listed h).
Proof.
  split.
  - intros H. apply HopByHopFacts.stripHopByHop_lookup in H as (H & F & N).
    repeat split; [exact H|exact F|]. now apply listed_spec.
  - intros (H & F & N). now apply stripHopByHop_keeps.
Qed.

Lemma stripHopByHop_no_connection h : connectionValue (stripHopByHop h) = None.
Proof.
  unfold connectionValue.
  destruct (stripHopByHop h !! "connection") as [v|] eqn:E1.
  - apply HopByHopFacts.stripHopByHop_lookup in E1 as (_ & F & _).
    exfalso. apply F. vm_compute. tauto.
  - destruct (stripHopByHop h !! "Connection") as [v|] eqn:E2; [|reflexivity].
    apply HopByHopFacts.stripHopByHop_lookup in E2 as (_ & F & _).
    exfalso. apply F. vm_compute. tauto.
Qed.

(** **** X7.  Stripping twice is stripping once: the output has no
    [Connection] header left to read and none of the fixed names. *)
Theorem X7_stripHopByHop_idempotent (h : gmap string hval) :
  stripHopByHop (stripHopByHop h) = stripHopByHop h.
Proof.
  apply map_eq. intros k. apply option_eq. intros v. split.
  - intros H. now apply HopByHopFacts.stripHopByHop_lookup in H as (H & _).
  - intros H. apply stripHopByHop_keeps; [exact H| |].
    + now apply HopByHopFacts.stripHopByHop_lookup in H as (_ & F & _).
    + unfold listed. now rewrite stripHopByHop_no_connection.
Qed.

End StripFacts.

(** ** More on the sanitizer *)

Module MaskFacts.
Import Js Json Sanitize SanitizeViews.

(** *** Substrings *)






Lemma endsWith_unfold p s :
  endsWith p s
  = (String.eqb p s ||
     match s with
     | EmptyString => false
     | String _ r => endsWith p r
     end)%bool.
Proof. destruct s; reflexivity. Qed.





(** *** The query test is a substring test *)






(** *** Fixed points of [deepMaskJson] *)

Section JsonInduction.
Variable P : json -> Prop.
Hypothesis Pnull : P JNull.
Hypothesis Pbool : forall b, P (JBool b).
Hypothesis Pnum : forall n, P (JNum n).
Hypothesis Pstr : forall s, P (JStr s).
Hypothesis Parr : forall items, Forall P items -> P (JArr items).
Hypothesis Pobj :
  forall members, Forall (fun kv : string * json => P kv.2) members ->
                  P (JObj members).


End JsonInduction.





End MaskFacts.

(** ** The form rule of [maskBody] *)

Module FormFacts.
Import Js Json Sanitize.

Definition names (ps : list (string * string)) : list string := map fst ps.

Lemma dropName_names name ps k :
  In k (names (dropName name ps)) <-> In k (names ps) /\ k <> name.
Proof.
  induction ps as [|[k' v'] t IH]; simpl; [tauto|].
  destruct (String.eqb_spec k' name) as [->|N]; simpl; rewrite IH.
  - split; [tauto|]. intros [[E|H] D]; [congruence|tauto].
  - split; [|tauto]. intros [E|H]; [|tauto]. subst k. tauto.
Qed.

Lemma dropName_length name ps : length (dropName name ps) <= length ps.
Proof.
  induction ps as [|[k' v'] t IH]; simpl; [lia|].
  destruct (String.eqb k' name); simpl; lia.
Qed.

Lemma paramsSet_names ps name value k :
  In name (names ps) ->
  In k (names (paramsSet ps name value)) <-> In k (names ps).
Proof.
  induction ps as [|[k' v'] t IH]; simpl; [tauto|].
  destruct (String.eqb_spec k' name) as [->|N]; simpl.
  - intros _. rewrite dropName_names.
    destruct (String.eqb_spec k name) as [->|D]; tauto.
  - intros [E|H]; [congruence|]. rewrite (IH H). tauto.
Qed.

Lemma nth_error_names (ps : list (string * string)) i key v :
  nth_error ps i = Some (key, v) -> In key (names ps).
Proof.
  intros H. apply nth_error_In in H.
  unfold names. apply in_map_iff. now exists (key, v).
Qed.

(** A pair the loop has gone past stays where it is: its name, when
    sensitive, occurs nowhere behind it. *)
Lemma maskParams_past fuel : forall i x t,
  (formHit x.1 = true -> ~ In x.1 (names t)) ->
  maskParams fuel (S i) (x :: t) = x :: maskParams fuel i t.
Proof.
  induction fuel as [|fuel IH]; intros i [k0 v0] t H; simpl; [reflexivity|].
  destruct (nth_error t i) as [[key v]|] eqn:E; [|reflexivity].
  destruct (formHit key) eqn:Hk; [|now apply IH].
  simpl in H. destruct (String.eqb_spec k0 key) as [->|N].
  - exfalso. apply (H Hk). now apply (nth_error_names t i key v).
  - apply (IH (S i) (k0, v0)). simpl. intros F I. apply (H F).
    now apply (paramsSet_names t key DEFAULT_MASK k0 (nth_error_names t i key v E)).
Qed.

(** One turn of the loop at the head of the list. *)
Lemma maskParams_head fuel k v t :
  maskParams (S fuel) 0 ((k, v) :: t)
  = if formHit k then (k, DEFAULT_MASK) :: maskParams fuel 0 (dropName k t)
    else (k, v) :: maskParams fuel 0 t.
Proof.
  simpl. destruct (formHit k) eqn:Hk.
  - rewrite String.eqb_refl. apply (maskParams_past fuel 0 (k, DEFAULT_MASK)).
    simpl. intros _ I. apply dropName_names in I. tauto.
  - apply (maskParams_past fuel 0 (k, v)). simpl. congruence.
Qed.

Lemma maskParams_nil fuel : maskParams fuel 0 [] = [].
Proof. destruct fuel; reflexivity. Qed.

Lemma dropName_plain name ps :
  formHit name = true ->
  filter (fun kv : string * string => formHit kv.1 = false) (dropName name ps)
  = filter (fun kv : string * string => formHit kv.1 = false) ps.
Proof.
  intros H. induction ps as [|[k' v'] t IH]; simpl; [reflexivity|].
  destruct (String.eqb_spec k' name) as [->|N].
  - rewrite (filter_cons_False _ (name, v')); [exact IH|]. simpl. congruence.
  - rewrite !filter_cons. simpl. now rewrite IH.
Qed.

Definition settled (params out : list (string * string)) : Prop :=
  (forall k v, In (k, v) out -> formHit k = true -> v = DEFAULT_MASK)
  /\ filter (fun kv : string * string => formHit kv.1 = false) out
     = filter (fun kv : string * string => formHit kv.1 = false) params
  /\ NoDup (filter (fun k => formHit k = true) (names out))
  /\ (forall k, In k (names out) <-> In k (names params)).

Lemma maskParams_settled fuel : forall params,
  length params <= fuel -> settled params (maskParams fuel 0 params).
Proof.
  induction fuel as [|fuel IH]; intros params L.
  - destruct params; [|simpl in L; lia].
    repeat split; try tauto; [intros ? ? []|constructor].
  - destruct params as [|[k v] t].
    + rewrite maskParams_nil.
      repeat split; try tauto; [intros ? ? []|constructor].
    + rewrite maskParams_head. simpl in L.
      destruct (formHit k) eqn:Hk.
      * destruct (IH (dropName k t)) as (A & B & C & D).
        { pose proof (dropName_length k t). lia. }
        repeat split.
        -- intros k' v' [[= <- <-]|I] F; [reflexivity|now apply (A k' v')].
        -- rewrite (filter_cons_False _ (k, DEFAULT_MASK)) by (simpl; congruence).
           rewrite (filter_cons_False _ (k, v)) by (simpl; congruence).
           rewrite B. now apply dropName_plain.
        -- simpl. rewrite filter_cons_True by exact Hk.
           constructor; [|exact C].
           rewrite list_elem_of_filter. intros [_ I].
           apply list_elem_of_In, D, dropName_names in I. tauto.
        -- simpl. intros [->|I]; [now left|].
           apply D, dropName_names in I. tauto.
        -- simpl. intros [->|I]; [now left|].
           destruct (String.eqb_spec k0 k) as [->|N]; [now left|].
           right. apply D, dropName_names. tauto.
      * destruct (IH t) as (A & B & C & D); [lia|].
        repeat split.
        -- intros k' v' [[= <- <-]|I] F; [congruence|now apply (A k' v')].
        -- rewrite !filter_cons. simpl. now rewrite B.
        -- simpl. rewrite filter_cons_False by congruence. exact C.
        -- simpl. intros [->|I]; [now left|]. right. now apply D.
        -- simpl. intros [->|I]; [now left|]. right. now apply D.
Qed.

(** **** X10.  The loop over [params.keys()] that rewrites the list it
    walks: in what it leaves, every parameter whose lower-cased name
    contains a sensitive key holds the mask and stands once (the later
    parameters of that name are gone); the other parameters are all there,
    with their values, in their order; and no name is lost or added. *)
Theorem X10_form_parameters_masked (params : list (string * string)) :
  let out := maskParams (length params) 0 params in
  (forall k v, In (k, v) out -> formHit k = true -> v = DEFAULT_MASK)
  /\ filter (fun kv : string * string => formHit kv.1 = false) out
     = filter (fun kv : string * string => formHit kv.1 = false) params
  /\ NoDup (filter (fun k => formHit k = true) (map fst out))
  /\ (forall k, In k (map fst out) <-> In k (map fst params)).
Proof. apply (maskParams_settled (length params) params). lia. Qed.

End FormFacts.

(** ** Slashes in and out of [normalizePath] *)

Module SlashFacts.
Import Js Normalize.

Example normalize_two_slashes : normalizePath "//" = EmptyString.
Proof. reflexivity. Qed.

Example normalize_inner_slashes : normalizePath "/a//b/" = "/a//b".
Proof. reflexivity. Qed.

Lemma join_split s : join "/" (split slash s) = s.
Proof.
  induction s as [|c r IH]; [reflexivity|]. simpl.
  destruct (Ascii.eqb_spec c slash) as [->|N].
  - destruct (split slash r) as [|h t] eqn:E.
    + now destruct (NormalizeFacts.split_nonempty slash r).
    + change (join "/" (EmptyString :: h :: t))
        with (EmptyString +:+ "/" +:+ join "/" (h :: t)).
      now rewrite IH.
  - destruct (split slash r) as [|h t] eqn:E.
    + now destruct (NormalizeFacts.split_nonempty slash r).
    + destruct t as [|h' t'].
      * simpl in *. now rewrite IH.
      * change (join "/" (String c h :: h' :: t'))
          with (String c h +:+ "/" +:+ join "/" (h' :: t')).
        change (join "/" (h :: h' :: t'))
          with (h +:+ "/" +:+ join "/" (h' :: t')) in IH.
        rewrite NormalizeFacts.app_cons. now rewrite IH.
Qed.

Definition cleaned (p : string) : string :=
  if Nat.ltb 1 (String.length p) then replaceTrailingSlashes p else p.

Lemma normalizePath_parts p :
  split slash (normalizePath p) = map normalizeSegment (split slash (cleaned p)).
Proof.
  unfold normalizePath. fold (cleaned p). apply NormalizeFacts.split_join.
  - destruct (split slash (cleaned p)) eqn:E; [|discriminate].
    now destruct (NormalizeFacts.split_nonempty slash (cleaned p)).
  - apply Forall_forall. intros x I.
    apply list_elem_of_fmap in I as (y & -> & I).
    apply NormalizeFacts.normalizeSegment_noSlash.
    pose proof (NormalizeFacts.split_noSlash (cleaned p)) as F.
    rewrite Forall_forall in F. now apply F.
Qed.

Lemma all_empty_segments l :
  Forall (fun x => x = EmptyString) (map normalizeSegment l) ->
  map normalizeSegment l = l.
Proof.
  induction l as [|x t IH]; simpl; [reflexivity|].
  intros H. inversion H as [|? ? Hx Ht]; subst.
  rewrite (IH Ht).
  apply NormalizeFacts.normalizeSegment_empty in Hx as ->. reflexivity.
Qed.

(** A result made of empty segments only comes from a cleaned path that is
    the same. *)
Lemma normalizePath_empty_segments p :
  Forall (fun x => x = EmptyString) (split slash (normalizePath p)) ->
  cleaned p = normalizePath p.
Proof.
  intros H. rewrite normalizePath_parts in H.
  apply all_empty_segments in H.
  rewrite <- (join_split (cleaned p)). unfold normalizePath.
  fold (cleaned p). now rewrite H.
Qed.

Lemma replace_tail s :
  replaceTrailingSlashes s = EmptyString
  \/ allSlashes (replaceTrailingSlashes s) = false.
Proof.
  induction s as [|c r IH]; [now left|].
  change (replaceTrailingSlashes (String c r))
    with (if allSlashes (String c r) then EmptyString
          else String c (replaceTrailingSlashes r)).
  destruct (allSlashes (String c r)) eqn:A; [now left|]. right.
  simpl in *. destruct (Ascii.eqb c slash); [|reflexivity]. simpl in *.
  destruct IH as [E|E]; [|exact E].
  apply NormalizeFacts.replace_empty_allSlashes in E. congruence.
Qed.

Lemma replace_allSlashes s :
  allSlashes s = true -> replaceTrailingSlashes s = EmptyString.
Proof. destruct s; [reflexivity|]. intros H. simpl in *. now rewrite H. Qed.

Lemma cleaned_root p : cleaned p = "/" <-> p = "/".
Proof.
  unfold cleaned. destruct (Nat.ltb_spec 1 (String.length p)) as [L|L].
  - split.
    + intros E. destruct (replace_tail p) as [Z|Z]; rewrite E in Z;
        discriminate Z.
    + intros ->. simpl in L. lia.
  - tauto.
Qed.

Lemma cleaned_empty p :
  cleaned p = EmptyString
  <-> p = EmptyString \/ (2 <= String.length p /\ allSlashes p = true).
Proof.
  unfold cleaned. destruct (Nat.ltb_spec 1 (String.length p)) as [L|L].
  - split.
    + intros E. right. split; [lia|].
      now apply NormalizeFacts.replace_empty_allSlashes.
    + intros [->|[_ A]]; [reflexivity|now apply replace_allSlashes].
  - split; [now left|]. intros [E|[L' _]]; [exact E|lia].
Qed.

Lemma fixed_no_trailing s :
  replaceTrailingSlashes s = s -> endsWith "/" s = false.
Proof.
  induction s as [|c r IH]; [reflexivity|].
  change (replaceTrailingSlashes (String c r))
    with (if allSlashes (String c r) then EmptyString
          else String c (replaceTrailingSlashes r)).
  destruct (allSlashes (String c r)) eqn:A; [discriminate|].
  intros [= E]. rewrite MaskFacts.endsWith_unfold, (IH E), orb_false_r.
  destruct r as [|d r'].
  2:{ apply String.eqb_neq. intros Q. injection Q as _ Q. discriminate Q. }
  simpl in A. destruct (Ascii.eqb_spec c slash) as [->|N]; [discriminate A|].
  apply String.eqb_neq. intros [= Q]. now destruct N.
Qed.

(** **** X11.  Slashes around the result of [normalizePath]: it is [/]
    only for the path [/]; any other result does not end in a slash; and
    it is empty exactly for the empty path and for a path of two or more
    characters that are all slashes (so [//] gives the empty string, not
    the root). *)
Theorem X11_normalizePath_slashes (p : string) :
  let out := normalizePath p in
  (out = "/" <-> p = "/")
  /\ (out <> "/" -> endsWith "/" out = false)
  /\ (out = EmptyString
      <-> p = EmptyString \/ (2 <= String.length p /\ allSlashes p = true)).
Proof.
  simpl. split; [|split].
  - split; [|now intros ->].
    intros E. apply cleaned_root. rewrite normalizePath_empty_segments.
    + exact E.
    + rewrite E. repeat constructor.
  - intros N. pose proof (NormalizeFacts.normalizePath_fixed_clean p) as F.
    simpl in F. destruct (Nat.ltb_spec 1 (String.length (normalizePath p)))
      as [L|L]; [now apply fixed_no_trailing|].
    destruct (normalizePath p) as [|c [|d r]]; [reflexivity| |simpl in L; lia].
    rewrite MaskFacts.endsWith_unfold, orb_false_r.
    apply String.eqb_neq. intros [= Q]. subst c. now destruct N.
  - rewrite <- cleaned_empty. split.
    + intros E. rewrite normalizePath_empty_segments.
      * exact E.
      * rewrite E. repeat constructor.
    + intros E. unfold normalizePath. fold (cleaned p). now rewrite E.
Qed.

End SlashFacts.

(** ** More on the catalog merge *)

Module MergeFacts.
Import Js CatalogBuilder CatalogSpec.

(** *** Count maps *)


(** *** The merged report *)

Lemma total_perm f (l l' : list Endpoint.t) :
  l ≡ₚ l' -> total f l = total f l'.
Proof.
  induction 1 as [|x l l' _ IH|x y l|l l' l'' _ IH1 _ IH2]; simpl.
  - reflexivity.
  - now rewrite IH.
  - lia.
  - now rewrite IH1.
Qed.

Lemma total_replace k v : forall m prev,
  mapGet k m = Some prev ->
  total Endpoint.count (map snd (mapReplace k v m))
  = (total Endpoint.count (map snd m) - Endpoint.count prev
     + Endpoint.count v)%Z.
Proof.
  induction m as [|[k' v'] t IH]; intros prev H; simpl in *; [discriminate H|].
  destruct (String.eqb k k').
  - injection H as <-. simpl. lia.
  - simpl. rewrite (IH prev H). lia.
Qed.

Lemma total_addEndpoint m e :
  total Endpoint.count (map snd (addEndpoint m e))
  = (total Endpoint.count (map snd m) + Endpoint.count e)%Z.
Proof.
  unfold addEndpoint. destruct (mapGet (Endpoint.key e) m) as [prev|] eqn:G.
  - rewrite (total_replace _ _ m prev G). simpl. lia.
  - rewrite map_app, CatalogFacts.total_app. simpl. lia.
Qed.

Lemma total_fold es : forall m,
  total Endpoint.count (map snd (fold_left addEndpoint es m))
  = (total Endpoint.count (map snd m) + total Endpoint.count es)%Z.
Proof.
  induction es as [|e r IH]; intros m; simpl; [lia|].
  rewrite IH, total_addEndpoint. lia.
Qed.

Lemma totalLogs_fold reports : forall n,
  fold_left (fun n r => (n + Report.totalLogs r)%Z) reports n
  = (n + foldr Z.add 0%Z (map Report.totalLogs reports))%Z.
Proof.
  induction reports as [|r t IH]; intros n; simpl; [lia|].
  rewrite IH. lia.
Qed.

Lemma Sorted_weaken {A} (R R' : A -> A -> Prop) l :
  (forall a b, R a b -> R' a b) -> Sorted R l -> Sorted R' l.
Proof.
  intros W H. induction H as [|x l _ IH Hd]; constructor; [exact IH|].
  destruct Hd; constructor. now apply W.
Qed.

(** **** X13.  The report [mergeReports] gives for a group: its
    [totalLogs] is the sum of those of the group, its endpoints come in
    descending order of [count], and their counts add up to the counts of
    all the endpoints of the group (nothing is counted twice or lost by the
    merge). *)
Theorem X13_merged_report_totals (now : Z) (routeKey : string)
  (reports : list Report.t) :
  let merged := mergeReports now routeKey reports in
  Report.totalLogs merged = foldr Z.add 0%Z (map Report.totalLogs reports)
  /\ Sorted (fun a b => (Endpoint.count b <= Endpoint.count a)%Z)
            (Report.endpoints merged)
  /\ total Endpoint.count (Report.endpoints merged)
     = total Endpoint.count (endpointsOf reports).
Proof.
  simpl. split; [|split].
  - now rewrite totalLogs_fold.
  - apply (Sorted_weaken
             (fun a b => (Endpoint.count b - Endpoint.count a <= 0)%Z));
      [intros a b; lia|].
    apply (SortFacts.sortWith_sorted
             (fun a b => (Endpoint.count b - Endpoint.count a)%Z)).
    intros a b. lia.
  - rewrite (total_perm _ _ _ (SortFacts.sortWith_perm _ _)).
    rewrite CatalogFacts.fold_reports, total_fold. simpl. lia.
Qed.

(** *** Route keys *)

Definition noLead (s : string) : Prop :=
  match s with
  | EmptyString => True
  | String c _ => isSpace c = false
  end.

Lemma trimStart_noLead s : noLead (trimStart s).
Proof.
  induction s as [|c r IH]; simpl; [exact I|].
  destruct (isSpace c) eqn:E; [exact IH|exact E].
Qed.

Lemma noLead_trimStart s : noLead s -> trimStart s = s.
Proof. destruct s as [|c r]; simpl; [reflexivity|]. now intros ->. Qed.

Lemma trimEnd_unfold c r :
  trimEnd (String c r)
  = if allSpace (String c r) then EmptyString else String c (trimEnd r).
Proof. reflexivity. Qed.

Lemma noLead_trimEnd s : noLead s -> noLead (trimEnd s).
Proof.
  destruct s as [|c r]; [exact id|]. rewrite trimEnd_unfold. simpl.
  intros E. now rewrite E.
Qed.

Lemma allSpace_trimEnd s : allSpace s = false -> allSpace (trimEnd s) = false.
Proof.
  induction s as [|c r IH]; [discriminate|]. intros A.
  rewrite trimEnd_unfold, A. simpl in *.
  destruct (isSpace c); [|reflexivity]. simpl in *. now apply IH.
Qed.

Lemma trimEnd_idem s : trimEnd (trimEnd s) = trimEnd s.
Proof.
  induction s as [|c r IH]; [reflexivity|]. rewrite trimEnd_unfold.
  destruct (allSpace (String c r)) eqn:A; [reflexivity|].
  rewrite trimEnd_unfold, IH.
  assert (B : allSpace (String c (trimEnd r)) = false).
  { simpl in *. destruct (isSpace c); [|reflexivity]. simpl in *.
    now apply allSpace_trimEnd. }
  now rewrite B.
Qed.

Lemma trim_idem s : trim (trim s) = trim s.
Proof.
  unfold trim. rewrite (noLead_trimStart (trimEnd (trimStart s))).
  - apply trimEnd_idem.
  - apply noLead_trimEnd, trimStart_noLead.
Qed.

(** **** X14.  The route key a session is filed under is never empty and
    carries no white space at its ends: [routeKey], else [name], else [/],
    trimmed, and [/] again when trimming leaves nothing. *)
Theorem X14_routeKeyOf_trimmed (s : Session.t) :
  routeKeyOf s <> EmptyString /\ trim (routeKeyOf s) = routeKeyOf s.
Proof.
  unfold routeKeyOf.
  set (first := match Session.routeKey s with
                | Some k => _
                | None => _
                end).
  destruct (truthy (trim first)) eqn:T.
  - split; [now apply HopByHopFacts.truthy_true|apply trim_idem].
  - split; [discriminate|reflexivity].
Qed.

End MergeFacts.

(** ** The route report *)

Module ReportFacts.
Import Js Normalize QueryKeys CatalogBuilder CatalogSpec RouteReport ReportViews.

(** *** Query keys *)

Lemma compare_refl (c : string) : String.compare c c = Eq.
Proof. exact (proj2 (OrderedTypeEx.String_as_OT.cmp_eq c c) eq_refl). Qed.

Lemma compare_lt_trans (a b c : string) :
  String.compare a b = Lt -> String.compare b c = Lt -> String.compare a c = Lt.
Proof.
  intros AB BC. apply (OrderedTypeEx.String_as_OT.cmp_lt a c).
  apply (OrderedTypeEx.String_as_OT.lt_trans a b c).
  - exact (proj1 (OrderedTypeEx.String_as_OT.cmp_lt a b) AB).
  - exact (proj1 (OrderedTypeEx.String_as_OT.cmp_lt b c) BC).
Qed.

Lemma compareStrings_trans a b c :
  (compareStrings a b <= 0)%Z -> (compareStrings b c <= 0)%Z ->
  (compareStrings a c <= 0)%Z.
Proof.
  unfold compareStrings.
  destruct (String.compare a b) eqn:AB; destruct (String.compare b c) eqn:BC;
    try lia; intros _ _.
  - apply String.compare_eq_iff in AB, BC. subst. now rewrite compare_refl.
  - apply String.compare_eq_iff in AB. subst. now rewrite BC.
  - apply String.compare_eq_iff in BC. subst. now rewrite AB.
  - now rewrite (compare_lt_trans a b c AB BC).
Qed.

Lemma sorted_tail_bound (l : list string) x y :
  Sorted (fun a b => (compareStrings a b <= 0)%Z) (x :: l) ->
  y ∈ l -> (compareStrings x y <= 0)%Z.
Proof.
  intros S. apply Sorted_StronglySorted in S.
  - apply StronglySorted_inv in S as [_ F]. rewrite Forall_forall in F.
    intros I. now apply F.
  - intros a b c. apply compareStrings_trans.
Qed.

Lemma queryKeys_sorted u :
  Sorted (fun a b => (compareStrings a b < 0)%Z) (queryKeys u).
Proof.
  unfold queryKeys. apply SortFacts.sorted_NoDup_strict;
    [|apply SortFacts.dedupeFrom_NoDup].
  generalize (SortFacts.sortWith_sorted compareStrings
                (map fst (Url.searchParams u)) SortFacts.compareStrings_total).
  generalize (sortWith compareStrings (map fst (Url.searchParams u))).
  unfold dedupe. intros l. generalize (@nil string).
  induction l as [|x t IH]; intros seen S; simpl; [constructor|].
  assert (St : Sorted (fun a b => (compareStrings a b <= 0)%Z) t)
    by (now inversion S).
  destruct (existsb (String.eqb x) seen); [now apply IH|].
  constructor; [now apply IH|].
  destruct (dedupeFrom (x :: seen) t) as [|y r] eqn:E; constructor.
  apply (sorted_tail_bound t x y S).
  assert (I : y ∈ dedupeFrom (x :: seen) t) by (rewrite E; now left).
  now apply SortFacts.dedupeFrom_elem in I as [I _].
Qed.

Lemma queryKeys_elem u q :
  q ∈ queryKeys u <-> q ∈ map fst (Url.searchParams u).
Proof.
  unfold queryKeys. now rewrite SortFacts.dedupe_elem, SortFacts.sortWith_elem.
Qed.

(** **** X15.  [queryKeys] gives the names of the query parameters of a
    URL in ascending order of code units, each once: nothing but those
    names, and all of them. *)
Theorem X15_queryKeys_sorted_set (u : Url.t) :
  Sorted (fun a b => (compareStrings a b < 0)%Z) (queryKeys u)
  /\ NoDup (queryKeys u)
  /\ (forall q, q ∈ queryKeys u <-> q ∈ map fst (Url.searchParams u)).
Proof.
  split; [apply queryKeys_sorted|]. split; [|apply queryKeys_elem].
  apply SortFacts.dedupeFrom_NoDup.
Qed.

(** *** Count maps that tally *)

Lemma howMany_snoc f x logs l :
  howMany f x (logs ++ [l])
  = (howMany f x logs + if decide (f l = x) then 1 else 0)%Z.
Proof.
  unfold howMany. rewrite filter_app, length_app.
  destruct (decide (f l = x)) as [E|N].
  - rewrite (filter_cons_True _ l []) by exact E. simpl. lia.
  - rewrite (filter_cons_False _ l []) by exact N. simpl. lia.
Qed.

Lemma howMany_nonneg f x logs : (0 <= howMany f x logs)%Z.
Proof. unfold howMany. lia. Qed.

Lemma bump_tally (m : gmap string Z) f logs l :
  (forall x, m !! x = tallyOf f logs x) ->
  forall x, bump m (f l) !! x = tallyOf f (logs ++ [l]) x.
Proof.
  intros H x. unfold bump, tallyOf. rewrite howMany_snoc.
  pose proof (howMany_nonneg f x logs) as P.
  destruct (decide (f l = x)) as [E|N].
  - subst x. rewrite lookup_insert_eq, H. unfold tallyOf.
    destruct (Z.eqb_spec (howMany f (f l) logs) 0) as [Z0|Z0]; simpl.
    + rewrite Z0. reflexivity.
    + destruct (Z.eqb_spec (howMany f (f l) logs + 1) 0); [lia|reflexivity].
  - rewrite lookup_insert_ne by exact N. rewrite H. unfold tallyOf.
    now rewrite Z.add_0_r.
Qed.

Lemma tallyOf_nil f x : tallyOf f [] x = None.
Proof. reflexivity. Qed.

Section Report.
Variable URL_parse : string -> option Url.t.
Variable toUpperCase : string -> string.
Variable Number_toString : Z -> string.
Variable localeCompare : string -> string -> Z.
Variable Object_entries : gmap string string -> list (string * string).
Variable now : Z.

#[local] Set Warnings "-notation-for-abbreviation".
Notation filed := (filedUnder URL_parse toUpperCase).
Notation status := (statusOf Number_toString).
Notation sampled := (sampleOf localeCompare Object_entries).

(** What the summary under the key [k] holds once the records [logs] have
    been gone through. *)
Definition summarizes (k : string) (e : Endpoint.t) (logs : list Log.t) : Prop :=
  let group := filed k logs in
  Endpoint.key e = k
  /\ Endpoint.count e = Z.of_nat (length group)
  /\ (forall x, Endpoint.statuses e !! x = tallyOf status group x)
  /\ (forall x, Endpoint.mimeReq e !! x = tallyOf reqMimeOf group x)
  /\ (forall x, Endpoint.mimeRes e !! x = tallyOf resMimeOf group x)
  /\ sortedKeys (Endpoint.queryKeys e)
  /\ (forall q, q ∈ Endpoint.queryKeys e <-> parameterOf URL_parse group q)
  /\ exists first rest u,
       group = first :: rest
       /\ URL_parse (Log.url first) = Some u
       /\ Endpoint.sample e = Some (sampled first)
       /\ Endpoint.method e = methodOf toUpperCase first
       /\ Endpoint.host e = Url.host u
       /\ Endpoint.path e = normalizePath (Url.pathname u).

Definition tallied (byKey : list (string * Endpoint.t)) (logs : list Log.t)
  : Prop :=
  NoDup (map fst byKey)
  /\ (forall k, k ∈ map fst byKey <-> filed k logs <> [])
  /\ (forall k e, (k, e) ∈ byKey -> summarizes k e logs).

Lemma filed_snoc_same k logs l u :
  URL_parse (Log.url l) = Some u -> keyOf toUpperCase l u = k ->
  filed k (logs ++ [l]) = filed k logs ++ [l].
Proof.
  intros U K. unfold filedUnder. rewrite filter_app. f_equal.
  rewrite filter_cons_True by (rewrite U; simpl; now rewrite K).
  now rewrite filter_nil.
Qed.

Lemma filed_snoc_other k logs l :
  keyOf toUpperCase l <$> URL_parse (Log.url l) <> Some k ->
  filed k (logs ++ [l]) = filed k logs.
Proof.
  intros N. unfold filedUnder. rewrite filter_app.
  rewrite (filter_cons_False _ l []) by exact N.
  now rewrite filter_nil, app_nil_r.
Qed.

Lemma parameterOf_snoc group l u q :
  URL_parse (Log.url l) = Some u ->
  parameterOf URL_parse (group ++ [l]) q
  <-> parameterOf URL_parse group q \/ q ∈ queryKeys u.
Proof.
  intros U. unfold parameterOf. rewrite queryKeys_elem. split.
  - intros (l' & u' & I & U' & Q). apply elem_of_app in I as [I|I].
    + left. now exists l', u'.
    + apply list_elem_of_singleton in I. subst l'. right. congruence.
  - intros [(l' & u' & I & U' & Q)|Q].
    + exists l', u'. split; [apply elem_of_app; now left|now split].
    + exists l, u. split; [apply elem_of_app; right; now left|now split].
Qed.

Lemma summarizes_first l u :
  URL_parse (Log.url l) = Some u ->
  summarizes (keyOf toUpperCase l u)
    (tally Number_toString
       (created toUpperCase localeCompare Object_entries l u) l u) [l].
Proof.
  intros U. unfold summarizes.
  assert (G : filed (keyOf toUpperCase l u) [l] = [l]).
  { unfold filedUnder. rewrite filter_cons_True by (now rewrite U).
    now rewrite filter_nil. }
  rewrite G. simpl. split; [reflexivity|]. split; [reflexivity|].
  split; [exact (bump_tally ∅ status [] l (fun x => lookup_empty x))|].
  split; [exact (bump_tally ∅ reqMimeOf [] l (fun x => lookup_empty x))|].
  split; [exact (bump_tally ∅ resMimeOf [] l (fun x => lookup_empty x))|].
  split; [exact (SortFacts.sorted_union_keys [] (queryKeys u))|]. split.
  - intros q.
    pose proof (SortFacts.union_keys_elem [] (queryKeys u) q) as Q.
    simpl in Q. rewrite Q.
    rewrite (parameterOf_snoc [] l u q U). unfold parameterOf. split.
    + intros [I|I]; [inversion I|now right].
    + intros [(l' & _ & I & _)|I]; [inversion I|now right].
  - exists l, [], u. repeat split. exact U.
Qed.

Lemma summarizes_next k prev logs l u :
  URL_parse (Log.url l) = Some u -> keyOf toUpperCase l u = k ->
  summarizes k prev logs ->
  summarizes k (tally Number_toString prev l u) (logs ++ [l]).
Proof.
  intros U K (Hk & Hc & Hs & Hq & Hr & _ & Hp & first & rest & u0 & Hg & Hrest).
  unfold summarizes. rewrite (filed_snoc_same k logs l u U K). simpl.
  split; [exact Hk|]. split; [rewrite Hc, length_app; simpl; lia|].
  split; [now apply bump_tally|]. split; [now apply bump_tally|].
  split; [now apply bump_tally|].
  split; [apply SortFacts.sorted_union_keys|]. split.
  - intros q. rewrite SortFacts.union_keys_elem, (parameterOf_snoc _ l u q U).
    now rewrite Hp.
  - exists first, (rest ++ [l]), u0. split; [now rewrite Hg|exact Hrest].
Qed.

Lemma summarizes_other k e logs l :
  keyOf toUpperCase l <$> URL_parse (Log.url l) <> Some k ->
  summarizes k e logs -> summarizes k e (logs ++ [l]).
Proof.
  intros N H. unfold summarizes. now rewrite (filed_snoc_other k logs l N).
Qed.

Lemma tallied_observe byKey logs l :
  tallied byKey logs ->
  tallied (observe URL_parse toUpperCase Number_toString localeCompare
                   Object_entries byKey l) (logs ++ [l]).
Proof.
  intros (Hnd & Hkeys & Hall). unfold observe.
  destruct (URL_parse (Log.url l)) as [u|] eqn:U.
  - set (k := keyOf toUpperCase l u).
    assert (Kl : keyOf toUpperCase l <$> URL_parse (Log.url l) = Some k)
      by (now rewrite U).
    destruct (mapGet k byKey) as [prev|] eqn:G.
    + pose proof (CatalogFacts.mapGet_Some _ _ _ G) as Hprev.
      split; [now rewrite CatalogFacts.mapReplace_keys|]. split.
      * intros k'. rewrite CatalogFacts.mapReplace_keys, Hkeys.
        destruct (decide (k' = k)) as [->|N].
        -- rewrite (filed_snoc_same k logs l u U eq_refl). split.
           ++ intros _ E. now destruct (filed k logs).
           ++ intros _. apply Hkeys, list_elem_of_fmap.
              exists (k, prev). now split.
        -- rewrite (filed_snoc_other k' logs l); [reflexivity|].
           rewrite Kl. congruence.
      * intros k' e H.
        apply CatalogFacts.mapReplace_elem in H as [[-> ->]|[N H]];
          [| |exact Hnd].
        -- apply (summarizes_next k prev logs l u U eq_refl). now apply Hall.
        -- apply summarizes_other; [rewrite Kl; congruence|now apply Hall].
    + apply CatalogFacts.mapGet_None in G.
      assert (E : filed k logs = []).
      { destruct (filed k logs) eqn:F; [reflexivity|].
        exfalso. apply G, Hkeys. now rewrite F. }
      split.
      * rewrite map_app. simpl. apply NoDup_app. split; [exact Hnd|].
        split; [|apply NoDup_singleton].
        intros k' Hk Hk'. apply list_elem_of_singleton in Hk'. now subst.
      * split.
        -- intros k'. rewrite map_app, elem_of_app. simpl.
           destruct (decide (k' = k)) as [->|N].
           ++ rewrite (filed_snoc_same k logs l u U eq_refl), E. simpl.
              split; [discriminate|]. intros _. right. now left.
           ++ rewrite (filed_snoc_other k' logs l) by (rewrite Kl; congruence).
              rewrite Hkeys, list_elem_of_singleton. tauto.
        -- intros k' e H. apply elem_of_app in H as [H|H].
           ++ apply summarizes_other; [|now apply Hall].
              rewrite Kl. intros [= <-]. apply G, list_elem_of_fmap.
              exists (k, e). now split.
           ++ apply list_elem_of_singleton in H. injection H as -> ->.
              pose proof (summarizes_first l u U) as S.
              unfold summarizes in *. fold k in S.
              rewrite (filed_snoc_same k logs l u U eq_refl), E. simpl.
              assert (F : filed k [l] = [l]).
              { unfold filedUnder. rewrite filter_cons_True by exact Kl.
                now rewrite filter_nil. }
              now rewrite F in S.
  - assert (N : forall k, keyOf toUpperCase l <$> URL_parse (Log.url l) <> Some k)
      by (intros k; now rewrite U).
    split; [exact Hnd|]. split.
    + intros k. now rewrite (filed_snoc_other k logs l (N k)).
    + intros k e H. apply summarizes_other; [apply N|now apply Hall].
Qed.

Lemma tallied_fold logs2 : forall byKey logs1,
  tallied byKey logs1 ->
  tallied (fold_left (observe URL_parse toUpperCase Number_toString
                              localeCompare Object_entries) logs2 byKey)
          (logs1 ++ logs2).
Proof.
  induction logs2 as [|l t IH]; intros byKey logs1 H; simpl.
  - now rewrite app_nil_r.
  - replace (logs1 ++ l :: t) with ((logs1 ++ [l]) ++ t)
      by (now rewrite <- app_assoc).
    apply IH. now apply tallied_observe.
Qed.

Notation build :=
  (buildRouteReport URL_parse toUpperCase Number_toString localeCompare
                    Object_entries now).

(** The map the loop leaves. *)
Definition summaries (logs : list Log.t) : list (string * Endpoint.t) :=
  fold_left (observe URL_parse toUpperCase Number_toString localeCompare
                     Object_entries) logs [].

Lemma built logs : tallied (summaries logs) logs.
Proof.
  apply (tallied_fold logs [] []). split; [constructor|]. split.
  - intros k. split; [intros H; inversion H|]. intros H. now destruct H.
  - intros k e H. inversion H.
Qed.

Lemma built_endpoints routeKey sessionId logs :
  Report.endpoints (build routeKey sessionId logs)
  = sortWith (fun a b => (Endpoint.count b - Endpoint.count a)%Z)
             (map snd (summaries logs)).
Proof. reflexivity. Qed.

Lemma built_summarizes routeKey sessionId logs e :
  e ∈ Report.endpoints (build routeKey sessionId logs) ->
  summarizes (Endpoint.key e) e logs.
Proof.
  rewrite built_endpoints. destruct (built logs) as (_ & _ & Hall).
  rewrite SortFacts.sortWith_elem. intros H.
  apply list_elem_of_fmap in H as ([k e'] & -> & H). simpl.
  pose proof (Hall k e' H) as S. destruct S as (K & S).
  rewrite K. split; [exact K|exact S].
Qed.

Lemma total_observe byKey l :
  total Endpoint.count
        (map snd (observe URL_parse toUpperCase Number_toString localeCompare
                          Object_entries byKey l))
  = (total Endpoint.count (map snd byKey) + parsed URL_parse [l])%Z.
Proof.
  unfold observe, parsed.
  destruct (URL_parse (Log.url l)) as [u|] eqn:U.
  - rewrite filter_cons_True by (rewrite U; eauto). rewrite filter_nil.
    destruct (mapGet (keyOf toUpperCase l u) byKey) as [prev|] eqn:G.
    + rewrite (MergeFacts.total_replace _ _ byKey prev G). simpl. lia.
    + rewrite map_app, CatalogFacts.total_app. simpl. lia.
  - rewrite filter_cons_False by (rewrite U; intros [? [=]]).
    rewrite filter_nil. simpl. lia.
Qed.

Lemma parsed_cons l logs :
  parsed URL_parse (l :: logs) = (parsed URL_parse [l] + parsed URL_parse logs)%Z.
Proof.
  unfold parsed. rewrite !filter_cons, filter_nil.
  destruct (decide (is_Some (URL_parse (Log.url l)))); simpl; lia.
Qed.

Lemma total_observed logs : forall byKey,
  total Endpoint.count
        (map snd (fold_left (observe URL_parse toUpperCase Number_toString
                                     localeCompare Object_entries) logs byKey))
  = (total Endpoint.count (map snd byKey) + parsed URL_parse logs)%Z.
Proof.
  induction logs as [|l t IH]; intros byKey; simpl.
  - unfold parsed. simpl. lia.
  - rewrite IH, total_observe, (parsed_cons l t). lia.
Qed.

Lemma keys_of_map (byKey : list (string * Endpoint.t)) :
  (forall k e, (k, e) ∈ byKey -> Endpoint.key e = k) ->
  map Endpoint.key (map snd byKey) = map fst byKey.
Proof.
  induction byKey as [|[k e] t IH]; intros H; simpl; [reflexivity|].
  rewrite (H k e) by now left. f_equal. apply IH.
  intros k' e' I. apply H. now right.
Qed.

(** **** X16.  The endpoints of a report: one summary for each key
    [METHOD host path] met among the records whose URL parses, no key
    twice; the [count] of a summary is the number of records of its key;
    the summaries come in descending order of [count]; and the counts add
    up to the number of records whose URL parses (a record whose URL does
    not parse is passed over and counts only in [totalLogs]). *)
Theorem X16_report_endpoints (routeKey sessionId : string) (logs : list Log.t) :
  let report := build routeKey sessionId logs in
  NoDup (map Endpoint.key (Report.endpoints report))
  /\ (forall k, k ∈ map Endpoint.key (Report.endpoints report)
                <-> filed k logs <> [])
  /\ Forall (fun e => Endpoint.count e
                      = Z.of_nat (length (filed (Endpoint.key e) logs)))
            (Report.endpoints report)
  /\ Sorted (fun a b => (Endpoint.count b <= Endpoint.count a)%Z)
            (Report.endpoints report)
  /\ total Endpoint.count (Report.endpoints report) = parsed URL_parse logs
  /\ Report.totalLogs report = Z.of_nat (length logs).
Proof.
  intros report.
  pose proof (built_endpoints routeKey sessionId logs) as E.
  fold report in E. destruct (built logs) as (Hnd & Hkeys & Hall).
  set (byKey := summaries logs) in *.
  assert (K : map Endpoint.key (map snd byKey) = map fst byKey).
  { apply keys_of_map. intros k e I. now destruct (Hall k e I). }
  assert (P : map Endpoint.key (Report.endpoints report) ≡ₚ map fst byKey).
  { rewrite E, <- K. apply fmap_Permutation, SortFacts.sortWith_perm. }
  split; [now rewrite P|]. split; [intros k; now rewrite P|].
  split; [|split; [|split; [|reflexivity]]].
  - apply Forall_forall. intros e I.
    now destruct (built_summarizes routeKey sessionId logs e I) as (_ & C & _).
  - rewrite E.
    apply (MergeFacts.Sorted_weaken
             (fun a b => (Endpoint.count b - Endpoint.count a <= 0)%Z));
      [intros a b; lia|].
    apply (SortFacts.sortWith_sorted
             (fun a b => (Endpoint.count b - Endpoint.count a)%Z)).
    intros a b. lia.
  - rewrite E, (MergeFacts.total_perm _ _ _ (SortFacts.sortWith_perm _ _)).
    pose proof (total_observed logs []) as O. simpl in O. exact O.
Qed.


(** **** X18.  The [queryKeys] of a summary are the names of the query
    parameters met in the URLs of the records of its key, all of them and
    nothing else, in ascending order of code units without repetition (the
    invariant the data model asks of a summary). *)
Theorem X18_report_queryKeys (routeKey sessionId : string) (logs : list Log.t) :
  Forall (fun e =>
            wellFormed e
            /\ (forall q, q ∈ Endpoint.queryKeys e
                          <-> parameterOf URL_parse
                                (filed (Endpoint.key e) logs) q))
         (Report.endpoints (build routeKey sessionId logs)).
Proof.
  apply Forall_forall. intros e I.
  destruct (built_summarizes routeKey sessionId logs e I)
    as (_ & _ & _ & _ & _ & W & P & _).
  now split.
Qed.

(** **** X19.  A summary is made from the first record of its key: its
    [method], [host] and [path] are the upper-cased method ([GET] without
    one), the host and the normalized path of that record's URL, its key is
    the three joined by spaces, and its [sample] is the sample of that
    record; later records of the key change none of them. *)
Theorem X19_report_first_record (routeKey sessionId : string)
  (logs : list Log.t) :
  Forall (fun e =>
            exists first rest u,
              filed (Endpoint.key e) logs = first :: rest
              /\ URL_parse (Log.url first) = Some u
              /\ Endpoint.key e = keyOf toUpperCase first u
              /\ Endpoint.method e = methodOf toUpperCase first
              /\ Endpoint.host e = Url.host u
              /\ Endpoint.path e = normalizePath (Url.pathname u)
              /\ Endpoint.sample e = Some (sampled first))
         (Report.endpoints (build routeKey sessionId logs)).
Proof.
  apply Forall_forall. intros e I.
  destruct (built_summarizes routeKey sessionId logs e I)
    as (_ & _ & _ & _ & _ & _ & _ & first & rest & u & G & U & S & M & H & P).
  exists first, rest, u. repeat split; try assumption.
  assert (F : first ∈ filed (Endpoint.key e) logs) by (rewrite G; now left).
  unfold filedUnder in F. apply list_elem_of_filter in F as [F _].
  rewrite U in F. simpl in F. now injection F as <-.
Qed.

End Report.

End ReportFacts.

(** ** The sample of a summary *)

Module SampleFacts.
Import Js Proxy RouteReport.

Lemma truncatedMark_length : length truncatedMark = 13.
Proof. reflexivity. Qed.

Lemma trimText_short s max : length s <= max -> trimText s max = s.
Proof.
  intros L. unfold trimText. destruct s as [|n r]; [reflexivity|].
  destruct (Nat.ltb_spec max (length (n :: r))); [lia|reflexivity].
Qed.

Lemma trimText_long s max :
  max < length s -> trimText s max = firstn max s ++ truncatedMark.
Proof.
  intros L. unfold trimText. destruct s as [|n r]; [simpl in L; lia|].
  destruct (Nat.ltb_spec max (length (n :: r))); [reflexivity|lia].
Qed.

(** **** X20.  The body text kept in a sample: a text of at most 2048 code
    units is kept as it is; a longer one is cut to its first 2048 code
    units, followed by the thirteen code units of the mark, so that no
    sample text is longer than 2061; the media type is kept. *)
Theorem X20_sample_body_bounded (b : Body.t) :
  let text := default [] (Body.text b) in
  exists kept,
    Body.text (sampleBody b) = Some kept
    /\ Body.mime (sampleBody b) = Body.mime b
    /\ length kept <= MAX_SAMPLE_BODY + 13
    /\ firstn MAX_SAMPLE_BODY kept = firstn MAX_SAMPLE_BODY text
    /\ (length text <= MAX_SAMPLE_BODY -> kept = text)
    /\ (MAX_SAMPLE_BODY < length text ->
        kept = firstn MAX_SAMPLE_BODY text ++ truncatedMark).
Proof.
  cbv zeta. eexists. split; [reflexivity|]. split; [reflexivity|].
  generalize (default [] (Body.text b)). generalize MAX_SAMPLE_BODY.
  intros max text.
  split; [|split; [|split; [apply trimText_short|apply trimText_long]]].
  - destruct (Nat.le_gt_cases (length text) max) as [L|L].
    + rewrite trimText_short by exact L. lia.
    + rewrite trimText_long by exact L.
      rewrite length_app, length_firstn, truncatedMark_length. lia.
  - destruct (Nat.le_gt_cases (length text) max) as [L|L].
    + now rewrite trimText_short.
    + rewrite trimText_long by exact L.
      rewrite firstn_app, firstn_firstn, Nat.min_id, length_firstn.
      replace (max - Nat.min max (length text)) with 0 by lia.
      simpl. now rewrite app_nil_r.
Qed.

(** *** [pickHeaders] *)

Lemma fromEntries_snoc (l : list (string * string)) kv :
  fromEntries (l ++ [kv]) = <[kv.1 := kv.2]> (fromEntries l).
Proof. unfold fromEntries. now rewrite foldl_app. Qed.

Lemma fromEntries_lookup (l : list (string * string)) k v :
  NoDup (map fst l) ->
  fromEntries l !! k = Some v <-> (k, v) ∈ l.
Proof.
  induction l as [|[k' v'] t IH] using rev_ind; intros N.
  - unfold fromEntries. simpl. rewrite lookup_empty. split; [discriminate|].
    intros H. inversion H.
  - rewrite fromEntries_snoc. simpl.
    rewrite map_app in N. apply NoDup_app in N as (Nt & Nk & _).
    rewrite elem_of_app, list_elem_of_singleton.
    destruct (decide (k = k')) as [->|D].
    + rewrite lookup_insert_eq. split.
      * intros [= ->]. now right.
      * intros [I|[= ->]]; [|reflexivity].
        exfalso. apply (Nk k'); [|now left].
        apply list_elem_of_fmap. exists (k', v). now split.
    + rewrite lookup_insert_ne by congruence. rewrite (IH Nt). split.
      * now left.
      * intros [I|[= -> _]]; [exact I|now destruct D].
Qed.

Lemma fromEntries_size (l : list (string * string)) :
  NoDup (map fst l) -> size (fromEntries l) = length l.
Proof.
  induction l as [|[k' v'] t IH] using rev_ind; intros N.
  - reflexivity.
  - rewrite fromEntries_snoc. simpl.
    rewrite map_app in N. apply NoDup_app in N as (Nt & Nk & _).
    rewrite map_size_insert_None.
    + rewrite (IH Nt), length_app. simpl. lia.
    + destruct (fromEntries t !! k') as [v|] eqn:E; [|reflexivity].
      apply (fromEntries_lookup t k' v Nt) in E.
      exfalso. apply (Nk k'); [|now left].
      apply list_elem_of_fmap. exists (k', v). now split.
Qed.

Lemma NoDup_firstn {A} n (l : list A) : NoDup l -> NoDup (firstn n l).
Proof.
  intros N. rewrite <- (firstn_skipn n l) in N.
  now apply NoDup_app in N as (N & _).
Qed.

Section Picked.
Variable localeCompare : string -> string -> Z.
Variable Object_entries : gmap string string -> list (string * string).

(** [Object.entries] gives every entry of the object once, in some order. *)
Hypothesis entries_of_object :
  forall m, Object_entries m ≡ₚ map_to_list m.

Lemma picked_entries headers limit :
  let l := firstn limit
             (sortWith (fun a b : string * string => localeCompare a.1 b.1)
                       (Object_entries (default ∅ headers))) in
  NoDup (map fst l)
  /\ (forall kv, kv ∈ l -> default ∅ headers !! kv.1 = Some kv.2)
  /\ length l = Nat.min limit (size (default ∅ headers)).
Proof.
  simpl. set (m := default ∅ headers).
  set (sorted := sortWith _ (Object_entries m)).
  assert (P : sorted ≡ₚ map_to_list m).
  { unfold sorted. now rewrite SortFacts.sortWith_perm. }
  split; [|split].
  - rewrite <- firstn_map. apply NoDup_firstn. rewrite P.
    apply NoDup_fst_map_to_list.
  - intros [k v] I. simpl. apply elem_of_map_to_list. rewrite <- P.
    apply elem_of_take in I as (i & I & _).
    now apply list_elem_of_lookup_2 in I.
  - rewrite length_firstn. f_equal. rewrite P. apply length_map_to_list.
Qed.

(** **** X21.  [pickHeaders] keeps at most [limit] headers (thirty in a
    sample), each with the value it had: as many as there are when there
    are fewer, never a header that was not there. *)
Theorem X21_pickHeaders_bounded (headers : option (gmap string string))
  (limit : nat) :
  let picked := pickHeaders localeCompare Object_entries headers limit in
  size picked = Nat.min limit (size (default ∅ headers))
  /\ picked ⊆ default ∅ headers.
Proof.
  simpl. destruct (picked_entries headers limit) as (N & I & L).
  unfold pickHeaders. split.
  - now rewrite fromEntries_size.
  - apply map_subseteq_spec. intros k v H.
    apply (fromEntries_lookup _ k v N) in H. exact (I (k, v) H).
Qed.

End Picked.

Lemma X21_pickHeaders_bounded_witness :
  let headers : option (gmap string string) :=
    Some (<["accept" := "*/*"]> (<["host" := "example.com"]> ∅)) in
  (forall m : gmap string string, map_to_list m ≡ₚ map_to_list m)
  /\ (let picked := pickHeaders compareStrings map_to_list headers 1 in
      size picked = Nat.min 1 (size (default ∅ headers))
      /\ picked ⊆ default ∅ headers).
Proof.
  intros headers. split; [reflexivity|].
  exact (X21_pickHeaders_bounded compareStrings map_to_list
           (fun m => reflexivity (map_to_list m)) headers 1).
Defined.

End SampleFacts.

(** ** Media types *)

Module MimeFacts.
Import Js RouteReport ReportViews.

Lemma split_without sep s :
  Forall (fun x => without sep x = true) (split sep s).
Proof.
  induction s as [|c r IH]; simpl; [now repeat constructor|].
  destruct (Ascii.eqb c sep) eqn:E.
  - constructor; [reflexivity|exact IH].
  - destruct (split sep r) as [|h t]; simpl.
    + constructor; [|constructor]. unfold without. simpl. now rewrite E.
    + inversion IH as [|? ? Hh Ht]; subst. constructor; [|exact Ht].
      unfold without in *. simpl. now rewrite E, Hh.
Qed.

Lemma split_single sep s : without sep s = true -> split sep s = [s].
Proof.
  induction s as [|c r IH]; [reflexivity|]. unfold without. simpl.
  intros H. apply andb_true_iff in H as [E H].
  apply negb_true_iff in E. rewrite E. now rewrite (IH H).
Qed.

Lemma forallChars_trimStart f s :
  forallChars f s = true -> forallChars f (trimStart s) = true.
Proof.
  induction s as [|c r IH]; [reflexivity|]. simpl. intros H.
  destruct (isSpace c); [|exact H].
  apply andb_true_iff in H as [_ H]. now apply IH.
Qed.

Lemma forallChars_trimEnd f s :
  forallChars f s = true -> forallChars f (trimEnd s) = true.
Proof.
  induction s as [|c r IH]; [reflexivity|].
  rewrite MergeFacts.trimEnd_unfold. intros H.
  destruct (allSpace (String c r)); [reflexivity|].
  simpl in *. apply andb_true_iff in H as [Hc H].
  now rewrite Hc, (IH H).
Qed.

Lemma isSpace_lowerChar c : isSpace (lowerChar c) = isSpace c.
Proof. destruct c as [[] [] [] [] [] [] [] []]; reflexivity. Qed.

Lemma semicolon_lowerChar c :
  Ascii.eqb (lowerChar c) ";" = Ascii.eqb c ";".
Proof. destruct c as [[] [] [] [] [] [] [] []]; reflexivity. Qed.

Lemma toLowerCase_trimStart s :
  toLowerCase (trimStart s) = trimStart (toLowerCase s).
Proof.
  induction s as [|c r IH]; [reflexivity|]. simpl.
  rewrite isSpace_lowerChar. now destruct (isSpace c).
Qed.

Lemma allSpace_toLowerCase s : allSpace (toLowerCase s) = allSpace s.
Proof.
  induction s as [|c r IH]; [reflexivity|]. simpl.
  now rewrite isSpace_lowerChar, IH.
Qed.

Lemma toLowerCase_trimEnd s :
  toLowerCase (trimEnd s) = trimEnd (toLowerCase s).
Proof.
  induction s as [|c r IH]; [reflexivity|].
  change (toLowerCase (String c r)) with (String (lowerChar c) (toLowerCase r)).
  rewrite !MergeFacts.trimEnd_unfold.
  change (String (lowerChar c) (toLowerCase r)) with (toLowerCase (String c r)).
  rewrite allSpace_toLowerCase.
  destruct (allSpace (String c r)); [reflexivity|]. simpl. now rewrite IH.
Qed.

Lemma toLowerCase_trim s : toLowerCase (trim s) = trim (toLowerCase s).
Proof. unfold trim. now rewrite toLowerCase_trimEnd, toLowerCase_trimStart. Qed.

Lemma split_toLowerCase s :
  split ";" (toLowerCase s) = map toLowerCase (split ";" s).
Proof.
  induction s as [|c r IH]; [reflexivity|]. simpl.
  rewrite semicolon_lowerChar, IH.
  destruct (Ascii.eqb c ";"); [reflexivity|].
  now destruct (split ";" r).
Qed.

Lemma hd_map_toLowerCase l :
  hd EmptyString (map toLowerCase l) = toLowerCase (hd EmptyString l).
Proof. now destruct l. Qed.

(** The media type before it is trimmed. *)
Definition bare (v : option string) : string :=
  hd EmptyString (split ";" (toLowerCase (default EmptyString v))).

Lemma bare_without v : without ";" (bare v) = true.
Proof.
  unfold bare.
  pose proof (split_without ";" (toLowerCase (default EmptyString v))) as F.
  destruct (split ";" (toLowerCase (default EmptyString v))); [reflexivity|].
  now inversion F.
Qed.

Lemma bare_lower v : toLowerCase (bare v) = bare v.
Proof.
  unfold bare. rewrite split_toLowerCase, hd_map_toLowerCase.
  apply StripFacts.toLowerCase_idem.
Qed.

(** **** X22.  The media type a record is tallied under: the [mime] text in
    lower case, cut before its first semicolon and trimmed; so it has no
    semicolon, no white space at its ends and no capital letter, it is the
    empty string for a body without [mime], and reading it again changes
    nothing. *)
Theorem X22_pickMime_bare (v : option string) :
  let m := pickMime v in
  without ";" m = true
  /\ trim m = m
  /\ toLowerCase m = m
  /\ pickMime (Some m) = m
  /\ pickMime None = EmptyString.
Proof.
  cbv zeta. change (pickMime v) with (trim (bare v)).
  assert (W : without ";" (trim (bare v)) = true).
  { unfold trim. apply forallChars_trimEnd, forallChars_trimStart, bare_without. }
  assert (L : toLowerCase (trim (bare v)) = trim (bare v)).
  { now rewrite toLowerCase_trim, bare_lower. }
  split; [exact W|]. split; [apply MergeFacts.trim_idem|].
  split; [exact L|]. split; [|reflexivity].
  unfold pickMime. simpl. rewrite L, (split_single ";" _ W). simpl.
  apply MergeFacts.trim_idem.
Qed.

End MimeFacts.

(** ** The server's store and its clients *)

Module ServerFacts.
Import Js Index.

Lemma firstn_cons_firstn {A} n (x : A) l :
  firstn n (x :: firstn n l) = firstn n (x :: l).
Proof.
  destruct n as [|m]; [reflexivity|]. simpl. f_equal.
  rewrite firstn_firstn. f_equal. lia.
Qed.

Section Server.
Variable rt : Runtime.
Variable stringifyLog : Log.t -> text16.
Variable stringifyHello : string -> text16.

#[local] Set Warnings "-notation-for-abbreviation".
Notation step := (Index.step rt stringifyLog stringifyHello).
Notation run := (Index.run rt stringifyLog stringifyHello).
Notation safe := (Sanitize.sanitizeLog rt).
Notation payload := (logPayload stringifyLog).
Notation hello := (helloPayload stringifyHello).

Lemma run_snoc requests r : run (requests ++ [r]) = step (run requests) r.
Proof. unfold Index.run. now rewrite foldl_app. Qed.

Lemma pushes_snoc requests r :
  pushes (requests ++ [r])
  = pushes requests ++ match r with Push log => [log] | _ => [] end.
Proof. unfold pushes. rewrite omap_app. now destruct r. Qed.

Lemma sinceClear_snoc requests r :
  sinceClear (requests ++ [r])
  = match r with
    | Push log => sinceClear requests ++ [log]
    | Clear => []
    | _ => sinceClear requests
    end.
Proof. unfold sinceClear. rewrite foldl_app. now destruct r. Qed.

Lemma stored requests :
  Server.logs (run requests)
  = firstn MAX_LOGS (rev (map safe (sinceClear requests)))
  /\ Server.appended (run requests) = map safe (pushes requests).
Proof.
  induction requests as [|r requests [IHl IHa]] using rev_ind.
  - split; [|reflexivity]. symmetry. apply firstn_nil.
  - rewrite run_snoc, pushes_snoc, sinceClear_snoc.
    destruct r as [log|id|id|];
      unfold Index.step, pushLog, onEvents, onClose, onClear;
      cbn [Server.logs Server.appended].
    + rewrite IHl, IHa, !map_app, rev_app_distr.
      split; [apply firstn_cons_firstn|reflexivity].
    + now rewrite app_nil_r.
    + now rewrite app_nil_r.
    + rewrite app_nil_r. split; [|exact IHa]. symmetry. apply firstn_nil.
Qed.

(** **** X23.  The in-memory store of the server: after any sequence of
    requests it holds the sanitized copies of the records pushed since the
    last clear, the newest first, and only the 2000 newest of them; every
    record pushed has been handed to the session store, sanitized, in the
    order of arrival; and GET /api/logs answers with the newest of the
    store, at most 2000 and 200 without a limit. *)
Theorem X23_server_store (requests : list request) (limit : option Z) :
  let st := run requests in
  Server.logs st = firstn MAX_LOGS (rev (map safe (sinceClear requests)))
  /\ length (Server.logs st) <= MAX_LOGS
  /\ Server.appended st = map safe (pushes requests)
  /\ (exists older, Server.logs st = apiLogs st limit ++ older)
  /\ length (apiLogs st limit) <= MAX_LOGS
  /\ apiLogs st None = firstn 200 (Server.logs st).
Proof.
  cbv zeta. destruct (stored requests) as [L A].
  split; [exact L|]. split; [rewrite L; apply firstn_le_length|].
  split; [exact A|].
  assert (P : forall n, exists older,
             Server.logs (run requests)
             = firstn n (Server.logs (run requests)) ++ older).
  { intros n. exists (skipn n (Server.logs (run requests))).
    now rewrite firstn_skipn. }
  assert (B : forall n, length (firstn n (Server.logs (run requests)))
                        <= MAX_LOGS).
  { intros n. rewrite length_firstn. rewrite L at 1.
    pose proof (firstn_le_length MAX_LOGS
                  (rev (map safe (sinceClear requests)))). lia. }
  unfold apiLogs, slice0.
  split; [|split; [|reflexivity]];
    destruct (Z.min (default 200%Z limit) 2000 <? 0)%Z; (apply P || apply B).
Qed.

(** *** What is written to the clients *)

Lemma written_only requests id p :
  (id, p) ∈ Server.written (run requests) ->
  p = hello id \/ exists log, In (Push log) requests /\ p = payload (safe log).
Proof.
  induction requests as [|r requests IH] using rev_ind.
  - intros H. inversion H.
  - rewrite run_snoc. intros H.
    assert (Old : (id, p) ∈ Server.written (run requests) ->
                  p = hello id
                  \/ exists log, In (Push log) (requests ++ [r])
                                 /\ p = payload (safe log)).
    { intros I. destruct (IH I) as [E|(log & I' & E)]; [now left|right].
      exists log. split; [apply in_or_app; now left|exact E]. }
    destruct r as [log|id'|id'|]; simpl in H.
    + apply elem_of_app in H as [H|H]; [now apply Old|].
      apply list_elem_of_fmap in H as (c & [= -> ->] & _).
      right. exists log. split; [apply in_or_app; right; now left|reflexivity].
    + apply elem_of_app in H as [H|H]; [now apply Old|].
      apply list_elem_of_singleton in H. injection H as -> ->. now left.
    + now apply Old.
    + now apply Old.
Qed.

Lemma written_grows requests later x :
  x ∈ Server.written (run requests) ->
  x ∈ Server.written (run (requests ++ later)).
Proof.
  induction later as [|r later IH] using rev_ind.
  - now rewrite app_nil_r.
  - intros H. rewrite app_assoc, run_snoc.
    specialize (IH H).
    destruct r; simpl; try exact IH; apply elem_of_app; now left.
Qed.

(** **** X24.  What the SSE clients are sent: nothing but the hello of
    their own id and payloads of sanitized records (the record as the proxy
    pushed it is never written); and a record pushed while a client is in
    the [clients] map is written to that client. *)
Theorem X24_clients_get_sanitized (requests : list request) :
  (forall id p,
      (id, p) ∈ Server.written (run requests) ->
      p = hello id
      \/ exists log, In (Push log) requests /\ p = payload (safe log))
  /\ (forall before log later id,
        requests = before ++ Push log :: later ->
        id ∈ Server.clients (run before) ->
        (id, payload (safe log)) ∈ Server.written (run requests)).
Proof.
  split; [intros id p; apply written_only|].
  intros before log later id -> C.
  replace (before ++ Push log :: later) with ((before ++ [Push log]) ++ later)
    by (now rewrite <- app_assoc).
  apply written_grows. rewrite run_snoc. simpl.
  apply elem_of_app. right. apply list_elem_of_fmap. now exists id.
Qed.

End Server.

(** *** File names *)

Lemma safeUnit_underscore : safeUnit underscore = true.
Proof. reflexivity. Qed.

Lemma separator_unsafe n : separatorUnit n = true -> safeUnit n = false.
Proof.
  unfold separatorUnit. rewrite orb_true_iff, !N.eqb_eq.
  now intros [->| ->].
Qed.

Definition replaced (t : text16) : text16 :=
  map (fun n => if safeUnit n then n else underscore)
      (map (fun n => if separatorUnit n then underscore else n) t).

Lemma replaced_safe t : Forall (fun n => safeUnit n = true) (replaced t).
Proof.
  unfold replaced. apply Forall_forall. intros n I.
  apply list_elem_of_fmap in I as (m & -> & _).
  destruct (safeUnit m) eqn:S; [exact S|reflexivity].
Qed.

Lemma replaced_fixed t :
  Forall (fun n => safeUnit n = true) t -> replaced t = t.
Proof.
  unfold replaced. induction 1 as [|n r S _ IH]; [reflexivity|]. simpl.
  destruct (separatorUnit n) eqn:P.
  - apply separator_unsafe in P. congruence.
  - now rewrite S, IH.
Qed.

Lemma safe_no_leading_slash t :
  Forall (fun n => safeUnit n = true) t -> dropLeadingSlashes t = t.
Proof.
  destruct 1 as [|n r S _]; [reflexivity|]. simpl.
  destruct (N.eqb_spec n 47) as [->|_]; [discriminate S|reflexivity].
Qed.

Lemma route_safe : Forall (fun n => safeUnit n = true) (widen "route").
Proof. repeat constructor. Qed.

Lemma sanitizeFilename_unfold s :
  sanitizeFilename s
  = match firstn 80 (replaced (dropLeadingSlashes
                                 (match s with [] => widen "route" | _ => s end)))
    with
    | [] => widen "route"
    | cut => cut
    end.
Proof. reflexivity. Qed.

Lemma sanitizeFilename_safe s :
  Forall (fun n => safeUnit n = true) (sanitizeFilename s)
  /\ 1 <= length (sanitizeFilename s) <= 80.
Proof.
  rewrite sanitizeFilename_unfold.
  set (c := replaced _).
  assert (S : Forall (fun n => safeUnit n = true) (firstn 80 c)).
  { apply Forall_take, replaced_safe. }
  pose proof (firstn_le_length 80 c) as L.
  destruct (firstn 80 c) as [|n r].
  - split; [apply route_safe|simpl; lia].
  - split; [exact S|simpl in *; lia].
Qed.

Lemma sanitizeFilename_fixed s :
  Forall (fun n => safeUnit n = true) s -> 1 <= length s <= 80 ->
  sanitizeFilename s = s.
Proof.
  intros S L. rewrite sanitizeFilename_unfold.
  destruct s as [|n r]; [simpl in L; lia|].
  rewrite (safe_no_leading_slash _ S), (replaced_fixed _ S).
  rewrite firstn_all2 by lia. reflexivity.
Qed.

(** **** X25.  [sanitizeFilename] always gives a name of 1 to 80 code
    units taken from the letters, the digits, the dot, the underscore and
    the hyphen (so without a slash or a backslash); a name that is already
    such is left as it is, and sanitizing twice changes nothing more. *)
Theorem X25_sanitizeFilename_safe (s : text16) :
  let name := sanitizeFilename s in
  Forall (fun n => safeUnit n = true) name
  /\ 1 <= length name <= 80
  /\ Forall (fun n => separatorUnit n = false) name
  /\ sanitizeFilename name = name
  /\ (Forall (fun n => safeUnit n = true) s -> 1 <= length s <= 80 ->
      name = s).
Proof.
  cbv zeta. destruct (sanitizeFilename_safe s) as [S L].
  split; [exact S|]. split; [exact L|]. split; [|split].
  - eapply Forall_impl; [exact S|]. intros n Sn. simpl in Sn.
    destruct (separatorUnit n) eqn:P; [|reflexivity].
    apply separator_unsafe in P. congruence.
  - now apply sanitizeFilename_fixed.
  - apply sanitizeFilename_fixed.
Qed.

(** *** The HAR export *)

Section ToHar.
Variable toISOString : Z -> option string.
Variable Object_entries : gmap string string -> list (string * string).

#[local] Set Warnings "-notation-for-abbreviation".
Notation entries := (entriesOf toISOString Object_entries).

Lemma entriesOf_thrown items :
  entries items = Completion.Thrown
  <-> exists l, l ∈ items /\ toISOString (Log.ts l) = None.
Proof.
  induction items as [|l rest IH]; simpl.
  - split; [discriminate|]. intros (l & I & _). inversion I.
  - destruct (toISOString (Log.ts l)) as [s|] eqn:E; simpl.
    + destruct (entries rest) as [later|] eqn:R; simpl.
      * split; [discriminate|]. intros (l' & I & N).
        apply elem_of_cons in I as [->|I]; [congruence|].
        assert (X : Completion.Normal later = Completion.Thrown)
          by (apply IH; now exists l').
        discriminate X.
      * split; [|reflexivity]. intros _.
        destruct (proj1 IH eq_refl) as (l' & I & N).
        exists l'. split; [now right|exact N].
    + split; [|reflexivity]. intros _. exists l. split; [now left|exact E].
Qed.

Lemma entriesOf_normal items out :
  entries items = Completion.Normal out ->
  Forall2 (fun l e =>
             exists started,
               toISOString (Log.ts l) = Some started
               /\ e = entryOf Object_entries l started)
          items out.
Proof.
  revert out. induction items as [|l rest IH]; simpl; intros out H.
  - injection H as <-. constructor.
  - destruct (toISOString (Log.ts l)) as [s|] eqn:E; simpl in H; [|discriminate H].
    destruct (entries rest) as [later|] eqn:R; simpl in H; [|discriminate H].
    injection H as <-. constructor; [now exists s|now apply IH].
Qed.

(** **** X26.  [toHar] fails exactly when the time stamp of one of the
    records cannot be printed as a date; otherwise it gives one entry for
    each record, in the order of the records, with the method and the URL
    of the record, its status and its duration ([0] without one) also as
    the [wait] timing, and a [postData] exactly when the request body has a
    non-empty text (with [text/plain] for a body without media type). *)
Theorem X26_toHar_entries (items : list Log.t) :
  (toHar toISOString Object_entries items = Completion.Thrown
   <-> exists l, l ∈ items /\ toISOString (Log.ts l) = None)
  /\ (forall har,
        toHar toISOString Object_entries items = Completion.Normal har ->
        Forall2 (fun l e =>
                   toISOString (Log.ts l) = Some (Har.startedDateTime e)
                   /\ Har.method (Har.request_ e) = Log.method l
                   /\ Har.url (Har.request_ e) = Log.url l
                   /\ Har.status (Har.response_ e) = default 0%Z (Log.status l)
                   /\ Har.time e = default 0%Z (Log.durationMs l)
                   /\ Har.wait (Har.timings_ e) = Har.time e
                   /\ (Har.postData (Har.request_ e) = None
                       <-> requestText l = [])
                   /\ (forall p, Har.postData (Har.request_ e) = Some p ->
                         Har.postText p = requestText l
                         /\ Har.postMime p
                            = default "text/plain"
                                (Request.body (Log.request l) ≫= Body.mime)))
                items (Har.entries har)).
Proof.
  unfold toHar. split.
  - rewrite <- entriesOf_thrown. destruct (entries items); simpl;
      split; congruence.
  - intros har H. destruct (entries items) as [out|] eqn:E; simpl in H;
      [|discriminate H].
    injection H as <-. simpl.
    apply entriesOf_normal in E. eapply Forall2_impl; [exact E|].
    intros l e (started & S & ->). simpl.
    repeat split; try assumption; try reflexivity.
    + destruct (requestText l); [reflexivity|discriminate].
    + intros R. now rewrite R.
    + destruct (requestText l); [discriminate H|]. now injection H as <-.
    + destruct (requestText l); [discriminate H|]. now injection H as <-.
Qed.

End ToHar.

End ServerFacts.

(** ** A session, written and read back *)

Module StoreFacts.
Import Js Json Completion Store.

(** *** Lines *)

Definition lineFeed : N := 10.

(** The text of a log file: every line followed by a line feed. *)
Definition fileOf (lines : list text16) : text16 :=
  concat (map (fun t => t ++ [lineFeed]) lines).

(** The same without the last line feed. *)
Fixpoint joined (lines : list text16) : text16 :=
  match lines with
  | [] => []
  | [t] => t
  | t :: rest => t ++ lineFeed :: joined rest
  end.

Lemma fileOf_joined t rest : fileOf (t :: rest) = joined (t :: rest) ++ [lineFeed].
Proof.
  revert t. induction rest as [|t' r IH]; intros t.
  - unfold fileOf. simpl. now rewrite app_nil_r.
  - change (fileOf (t :: t' :: r)) with ((t ++ [lineFeed]) ++ fileOf (t' :: r)).
    rewrite (IH t'). change (joined (t :: t' :: r))
      with (t ++ lineFeed :: joined (t' :: r)).
    now rewrite <- !app_assoc.
Qed.

Lemma trimStart16_kept t :
  isSpace16 (hd 0%N t) = false -> trimStart16 t = t.
Proof. destruct t as [|n r]; [reflexivity|]. simpl. now intros ->. Qed.

Lemma forallb_last (f : N -> bool) t :
  t <> [] -> f (List.last t 0%N) = false -> forallb f t = false.
Proof.
  induction t as [|n r IH]; [congruence|]. intros _ L.
  destruct r as [|m r'].
  - simpl in *. now rewrite L.
  - change (List.last (n :: m :: r') 0%N) with (List.last (m :: r') 0%N) in L.
    change (forallb f (n :: m :: r')) with (f n && forallb f (m :: r'))%bool.
    rewrite IH by (congruence || exact L). apply andb_false_r.
Qed.

Lemma last_app_nonempty (a b : text16) :
  b <> [] -> List.last (a ++ b) 0%N = List.last b 0%N.
Proof.
  intros N. induction a as [|x a IH]; [reflexivity|].
  simpl. destruct (a ++ b) eqn:E; [|exact IH].
  apply app_eq_nil in E as [_ E]. congruence.
Qed.

Lemma trimEnd16_strip a sp :
  forallb isSpace16 sp = true ->
  a = [] \/ isSpace16 (List.last a 0%N) = false ->
  trimEnd16 (a ++ sp) = a.
Proof.
  intros S. induction a as [|x a IH]; intros L.
  - simpl. destruct sp as [|n r]; [reflexivity|]. simpl in *. now rewrite S.
  - destruct L as [L|L]; [discriminate L|].
    change (trimEnd16 ((x :: a) ++ sp))
      with (if forallb isSpace16 (x :: a ++ sp) then []
            else x :: trimEnd16 (a ++ sp)).
    assert (F : forallb isSpace16 (x :: a ++ sp) = false).
    { change (x :: a ++ sp) with ((x :: a) ++ sp). rewrite forallb_app.
      rewrite (forallb_last isSpace16 (x :: a)) by (congruence || exact L).
      reflexivity. }
    rewrite F. f_equal. apply IH.
    destruct a as [|y a']; [now left|right]. exact L.
Qed.

Lemma split16_single t : ~ In lineFeed t -> split16 lineFeed t = [t].
Proof.
  induction t as [|n r IH]; [reflexivity|]. intros N. simpl.
  destruct (N.eqb_spec n lineFeed) as [->|D]; [exfalso; apply N; now left|].
  rewrite IH; [reflexivity|]. intros I. apply N. now right.
Qed.

Lemma split16_line t rest :
  ~ In lineFeed t ->
  split16 lineFeed (t ++ lineFeed :: rest) = t :: split16 lineFeed rest.
Proof.
  induction t as [|n r IH]; intros N.
  - reflexivity.
  - simpl. destruct (N.eqb_spec n lineFeed) as [->|D];
      [exfalso; apply N; now left|].
    rewrite IH; [reflexivity|]. intros I. apply N. now right.
Qed.

Lemma joined_facts t rest :
  Forall oneLine (t :: rest) ->
  joined (t :: rest) <> []
  /\ isSpace16 (hd 0%N (joined (t :: rest))) = false
  /\ isSpace16 (List.last (joined (t :: rest)) 0%N) = false
  /\ split16 lineFeed (joined (t :: rest)) = t :: rest.
Proof.
  revert t. induction rest as [|t' r IH]; intros t F.
  - apply Forall_inv in F as (N & L & H & E). simpl.
    repeat split; try assumption. now apply split16_single.
  - pose proof (Forall_inv F) as (N & L & H & E).
    apply Forall_inv_tail in F. destruct (IH t' F) as (N' & H' & E' & S').
    change (joined (t :: t' :: r)) with (t ++ lineFeed :: joined (t' :: r)).
    repeat split.
    + destruct t; [congruence|discriminate].
    + destruct t; [congruence|exact H].
    + rewrite last_app_nonempty by discriminate.
      change (lineFeed :: joined (t' :: r))
        with ([lineFeed] ++ joined (t' :: r)).
      now rewrite last_app_nonempty.
    + rewrite split16_line by exact L. now rewrite S'.
Qed.

Lemma filter_all {A} (P : A -> Prop) `{forall x, Decision (P x)} (l : list A) :
  Forall P l -> filter P l = l.
Proof.
  induction 1 as [|x r Px _ IH]; [reflexivity|].
  rewrite filter_cons_True by exact Px. now rewrite IH.
Qed.

(** The lines read from the text of a log file are the lines written. *)
Lemma linesOf_fileOf lines :
  Forall oneLine lines -> SessionStore.linesOf (fileOf lines) = lines.
Proof.
  intros F. destruct lines as [|t rest]; [reflexivity|].
  destruct (joined_facts t rest F) as (N & H & E & S).
  unfold SessionStore.linesOf, trim16. rewrite fileOf_joined.
  rewrite trimStart16_kept.
  - rewrite trimEnd16_strip; [|reflexivity|now right].
    unfold SessionStore.newline16. fold lineFeed. rewrite S.
    apply filter_all. eapply Forall_impl; [exact F|].
    now intros x (Nx & _).
  - destruct (joined (t :: rest)); [congruence|exact H].
Qed.

(** *** The calls of a session *)

Section Session.
Variable rt : Runtime.
Variable stringifyLog : Log.t -> text16.
Variable join2 : string -> string -> string.
Variable join3 : string -> string -> string -> string.
Variable refused : string -> bool.
Variable rootDir : string.

Variable id : string.
Variable sessionName : string.
Variable createdAt : Z.

#[local] Set Warnings "-notation-for-abbreviation".
Notation dir := (join2 rootDir id).
Notation metaPath := (join2 (join2 rootDir id) "meta.json").
Notation logsPath := (join2 (join2 rootDir id) "logs.ndjson").
Notation lineOf := (fun log => stringifyLog log ++ [lineFeed]).

(** The meta of the session after [n] records. *)
Definition metaAt (n : Z) : Meta.t :=
  {| Meta.id := id; Meta.name := sessionName; Meta.createdAt := createdAt;
     Meta.endedAt := None; Meta.logCount := n; Meta.dir := dir;
     Meta.logsPath := logsPath |}.

(** The session is open, [n] records in, [chunks] written to its stream,
    and no log file on disk yet. *)
Definition opened (st : State.t) (n : Z) (chunks : list text16) : Prop :=
  State.current st = Some (metaAt n)
  /\ State.writeStream st
     = Some {| Stream.path := logsPath; Stream.pending := chunks |}
  /\ State.files st !! logsPath = None.

Hypothesis meta_writable : refused metaPath = false.
Hypothesis two_files : metaPath <> logsPath.

Lemma append_opened st n chunks log :
  opened st n chunks ->
  exists st',
    append rt stringifyLog join2 refused log st = (Normal tt, st')
    /\ opened st' (n + 1) (chunks ++ [lineOf log]).
Proof.
  intros (C & W & F). unfold append. rewrite C, W.
  unfold andThen, setWriteStream, setCurrent, writeMeta, writeFile, setFiles.
  cbn [State.files State.current State.writeStream withOneMore Meta.dir metaAt].
  rewrite meta_writable. eexists. split; [reflexivity|].
  split; [reflexivity|]. split; [reflexivity|].
  cbn [State.files]. now rewrite lookup_insert_ne.
Qed.

Lemma appendAll_opened logs : forall st n chunks,
  opened st n chunks ->
  exists st',
    appendAll rt stringifyLog join2 refused logs st = (Normal tt, st')
    /\ opened st' (n + Z.of_nat (length logs)) (chunks ++ map lineOf logs).
Proof.
  induction logs as [|log rest IH]; intros st n chunks O.
  - exists st. split; [reflexivity|]. simpl.
    now rewrite Z.add_0_r, app_nil_r.
  - destruct (append_opened st n chunks log O) as (st1 & E1 & O1).
    destruct (IH st1 (n + 1)%Z (chunks ++ [lineOf log]) O1) as (st2 & E2 & O2).
    exists st2. split.
    + change (appendAll rt stringifyLog join2 refused (log :: rest))
        with (andThen (append rt stringifyLog join2 refused log)
                (fun _ => appendAll rt stringifyLog join2 refused rest)).
      unfold andThen at 1. now rewrite E1.
    + replace (n + Z.of_nat (length (log :: rest)))%Z
        with (n + 1 + Z.of_nat (length rest))%Z by (simpl length; lia).
      change (map lineOf (log :: rest)) with ([lineOf log] ++ map lineOf rest).
      now rewrite app_assoc.
Qed.

Lemma stop_opened st n chunks endedAt :
  opened st n chunks ->
  exists st',
    stop rt join2 refused endedAt st
    = (Normal (Some (withEndedAt (metaAt n) endedAt)), st')
    /\ State.current st' = None
    /\ State.writeStream st' = None
    /\ State.files st' !! metaPath
       = Some (JSON_stringify2 rt (toJson (withEndedAt (metaAt n) endedAt)))
    /\ State.files st' !! logsPath = Some (concat chunks).
Proof.
  intros (C & W & F). unfold stop. rewrite C.
  unfold andThen, writeMeta, writeFile, setFiles, setWriteStream, setCurrent,
    streamEnd, ret.
  cbn [State.files State.current State.writeStream withEndedAt Meta.dir metaAt].
  rewrite meta_writable.
  cbn [State.files State.current State.writeStream]. rewrite W.
  cbn [State.files State.current State.writeStream Stream.path Stream.pending].
  eexists. split; [reflexivity|].
  cbn [State.files State.current State.writeStream].
  split; [reflexivity|]. split; [reflexivity|]. split.
  - rewrite lookup_insert_ne by (intros E; now apply two_files).
    now rewrite lookup_insert_eq.
  - rewrite lookup_insert_eq. rewrite lookup_insert_ne by exact two_files.
    unfold text16 in F. now rewrite F.
Qed.

Hypothesis root_writable : refused rootDir = false.
Hypothesis dir_writable : refused dir = false.

Lemma start_opened name unnamed st stoppedAt :
  sessionNameOf name unnamed = sessionName ->
  State.current st = None ->
  State.files st !! logsPath = None ->
  exists st',
    start rt join2 refused rootDir name id createdAt unnamed stoppedAt st
    = (Normal (metaAt 0), st')
    /\ opened st' 0 [].
Proof.
  intros Hn C F. unfold start, init, mkdir, andThen at 1. rewrite root_writable.
  unfold andThen at 1. rewrite C. unfold andThen at 1. rewrite dir_writable.
  unfold andThen, writeFile, setFiles, setWriteStream, setCurrent, ret.
  rewrite meta_writable, Hn.
  cbn [State.files State.current State.writeStream].
  eexists. split; [reflexivity|].
  split; [reflexivity|]. split; [reflexivity|].
  cbn [State.files]. now rewrite lookup_insert_ne.
Qed.

End Session.

(** *** A session of three records *)

Definition oneLineb (t : text16) : bool :=
  (negb (forallb (fun _ => false) t) && forallb (fun n => negb (N.eqb n 10)) t
   && negb (isSpace16 (hd 0%N t)) && negb (isSpace16 (List.last t 0%N)))%bool.

Lemma oneLineb_sound t : oneLineb t = true -> oneLine t.
Proof.
  unfold oneLineb, oneLine. intros H.
  apply andb_prop in H as [H L]. apply andb_prop in H as [H Hd].
  apply andb_prop in H as [N F].
  repeat split.
  - intros ->. discriminate N.
  - intros I. rewrite forallb_forall in F. apply F in I. discriminate I.
  - now apply negb_true_iff.
  - now apply negb_true_iff.
Qed.

Definition sampleLog (id : string) (ts : Z) : Log.t :=
  {| Log.id := id; Log.ts := ts; Log.method := "GET";
     Log.url := "http://example.test/items"; Log.host := "example.test";
     Log.path := "/items"; Log.status := None; Log.durationMs := None;
     Log.request := {| Request.headers := ∅; Request.query := None;
                       Request.body := None |};
     Log.response := None |}.

Definition emptyDisk : State.t :=
  {| State.files := ∅; State.current := None; State.writeStream := None |}.

Definition sampleFinal (n : Z) : Meta.t :=
  {| Meta.id := "s1"; Meta.name := "demo"; Meta.createdAt := 1700000000000%Z;
     Meta.endedAt := Some 1700000000900%Z; Meta.logCount := n;
     Meta.dir := "data/sessions/s1";
     Meta.logsPath := "data/sessions/s1/logs.ndjson" |}.

Section RoundTrip.
Variable rt : Runtime.
Variable stringifyLog : Log.t -> text16.
Variable join2 : string -> string -> string.
Variable join3 : string -> string -> string -> string.
Variable refused : string -> bool.
Variable rootDir : string.

(** **** X27.  A session, its calls awaited one after the other on a disk
    that takes the writes: [start], an [append] for every record, [stop].
    [stop] gives the meta of the session with [logCount] the number of
    records appended and [endedAt] set, and nothing stays open; after it,
    [read] gives that meta back, and [readLogs] gives what [JSON.parse]
    reads from the lines written for the last [limit] records, in their
    order. *)
Theorem X27_session_round_trip (name : option string) (id unnamed : string)
  (createdAt endedAt limit : Z) (logs : list Log.t) (st0 : State.t) :
  let dir := join2 rootDir id in
  let metaPath := join2 dir "meta.json" in
  let logsPath := join2 dir "logs.ndjson" in
  let final :=
    {| Meta.id := id; Meta.name := sessionNameOf name unnamed;
       Meta.createdAt := createdAt; Meta.endedAt := Some endedAt;
       Meta.logCount := Z.of_nat (length logs); Meta.dir := dir;
       Meta.logsPath := logsPath |} in
  State.current st0 = None ->
  State.files st0 !! logsPath = None ->
  refused rootDir = false -> refused dir = false -> refused metaPath = false ->
  metaPath <> logsPath ->
  join3 rootDir id "meta.json" = metaPath ->
  Forall (fun log => oneLine (stringifyLog log)) logs ->
  JSON_parse rt (JSON_stringify2 rt (toJson final)) = Some (toJson final) ->
  exists st,
    session rt stringifyLog join2 refused rootDir name id createdAt unnamed
            logs endedAt st0
    = (Normal (Some final), st)
    /\ State.current st = None
    /\ State.writeStream st = None
    /\ SessionStore.read rt (filesOf st) join3 rootDir id = Normal (toJson final)
    /\ SessionStore.readLogs rt (filesOf st) join3 rootDir id limit
       = Normal (omap (JSON_parse rt)
                      (SessionStore.lastLines limit (map stringifyLog logs))).
Proof.
  intros dir metaPath logsPath final. subst dir metaPath logsPath.
  intros C0 F0 Rr Rd Rm Two J3 Lines Back.
  destruct (start_opened rt join2 refused rootDir id
              (sessionNameOf name unnamed) createdAt Rm Two Rr Rd
              name unnamed st0 createdAt eq_refl C0 F0) as (st1 & E1 & O1).
  destruct (appendAll_opened rt stringifyLog join2 refused rootDir id
              (sessionNameOf name unnamed) createdAt Rm Two logs st1 0 [] O1)
    as (st2 & E2 & O2).
  destruct (stop_opened rt join2 refused rootDir id
              (sessionNameOf name unnamed) createdAt Rm Two st2 _ _ endedAt O2)
    as (st3 & E3 & C3 & W3 & M3 & L3).
  exists st3.
  match type of M3 with
  | context [withEndedAt ?m ?e] => change (withEndedAt m e) with final in E3, M3
  end.
  assert (R : SessionStore.read rt (filesOf st3) join3 rootDir id
              = Normal (toJson final)).
  { rewrite SessionFacts.read_returns, J3. unfold filesOf.
    rewrite M3. cbn [mbind option_bind]. now rewrite Back. }
  split; [|split; [exact C3|split; [exact W3|split; [exact R|]]]].
  - unfold session, andThen. rewrite E1, E2. exact E3.
  - unfold SessionStore.readLogs. rewrite R. simpl.
    unfold SessionStore.readFile, filesOf. unfold text16 in *.
    rewrite L3. simpl.
    assert (T : concat (map (fun log => stringifyLog log ++ [lineFeed]) logs)
                = fileOf (map stringifyLog logs)).
    { unfold fileOf. now rewrite map_map. }
    rewrite T, linesOf_fileOf by (now apply Forall_map).
    now rewrite SessionFacts.parseLines_omap.
Qed.

(** **** X28.  A report written is the report read: when the meta of the
    session can be read and names its directory, and the disk takes the
    write, [writeReport] writes one file, [report.json] in that directory,
    and [readReport] then gives what [JSON.parse] reads from the text
    written ([null] when it reads nothing); for a session whose meta
    cannot be read, [writeReport] writes nothing and [readReport] gives
    [null]. *)
Theorem X28_report_round_trip (id : string) (report : json) (st : State.t) :
  let meta := default JNull
                (filesOf st (join3 rootDir id "meta.json") ≫= JSON_parse rt) in
  (truthyJ meta = false ->
   writeReport rt join2 join3 refused rootDir id report st = (Normal tt, st)
   /\ readReport rt join2 join3 rootDir (filesOf st) id = Normal JNull)
  /\ (forall d,
        truthyJ meta = true ->
        SessionStore.member "dir" meta = Some (JStr d) ->
        refused (join2 d "report.json") = false ->
        join2 d "report.json" <> join3 rootDir id "meta.json" ->
        exists st',
          writeReport rt join2 join3 refused rootDir id report st
          = (Normal tt, st')
          /\ State.files st'
             = <[join2 d "report.json" := JSON_stringify2 rt report]>
                 (State.files st)
          /\ readReport rt join2 join3 rootDir (filesOf st') id
             = Normal (default JNull
                         (JSON_parse rt (JSON_stringify2 rt report)))).
Proof.
  intros meta. split.
  - intros T. unfold writeReport, readReport.
    rewrite SessionFacts.read_returns. fold meta. simpl. now rewrite T.
  - intros d T D W Ne.
    set (st' := {| State.files :=
                     <[join2 d "report.json" := JSON_stringify2 rt report]>
                       (State.files st);
                   State.current := State.current st;
                   State.writeStream := State.writeStream st |}).
    exists st'. split; [|split; [reflexivity|]].
    + unfold writeReport. rewrite SessionFacts.read_returns. fold meta.
      rewrite T. simpl. unfold reportPath. rewrite D.
      unfold writeFile. now rewrite W.
    + assert (Same : filesOf st' (join3 rootDir id "meta.json")
                     = filesOf st (join3 rootDir id "meta.json")).
      { unfold filesOf, st'. simpl. now rewrite lookup_insert_ne. }
      unfold readReport. rewrite SessionFacts.read_returns, Same. fold meta.
      simpl. rewrite T. simpl. unfold reportPath. rewrite D. simpl.
      unfold SessionStore.readFile, filesOf, st'. simpl.
      rewrite lookup_insert_eq. simpl. unfold SessionStore.JSON_parse_.
      now destruct (JSON_parse rt (JSON_stringify2 rt report)).
Qed.

End RoundTrip.

Lemma X27_session_round_trip_witness :
  let logs := [sampleLog "a1" 1700000000100%Z; sampleLog "a2" 1700000000200%Z;
               sampleLog "a3" 1700000000300%Z] in
  exists st,
    session Reference.runtime ReferenceText.stringifyLog ReferenceText.join2
            (fun _ => false) "data/sessions" (Some " demo ") "s1"
            1700000000000%Z "unnamed" logs 1700000000900%Z emptyDisk
    = (Normal (Some (sampleFinal 3)), st)
    /\ State.current st = None
    /\ State.writeStream st = None
    /\ SessionStore.read Reference.runtime (filesOf st) ReferenceText.join3
         "data/sessions" "s1"
       = Normal (toJson (sampleFinal 3))
    /\ SessionStore.readLogs Reference.runtime (filesOf st) ReferenceText.join3
         "data/sessions" "s1" 2%Z
       = Normal (omap (JSON_parse Reference.runtime)
                      (SessionStore.lastLines 2%Z
                         (map ReferenceText.stringifyLog logs))).
Proof.
  intros logs.
  apply (X27_session_round_trip Reference.runtime ReferenceText.stringifyLog
           ReferenceText.join2 ReferenceText.join3 (fun _ => false)
           "data/sessions" (Some " demo ") "s1" "unnamed"
           1700000000000%Z 1700000000900%Z 2%Z logs emptyDisk).
  - reflexivity.
  - reflexivity.
  - reflexivity.
  - reflexivity.
  - reflexivity.
  - intros E. discriminate E.
  - reflexivity.
  - repeat constructor; apply oneLineb_sound; vm_compute; reflexivity.
  - vm_compute. reflexivity.
Defined.

End StoreFacts.

(** ** Escaping for Markdown *)

Module MarkdownFacts.
Import Js Markdown.

Lemma escapeEvery_head c s :
  match escapeEvery c s with
  | EmptyString => s = EmptyString
  | String x _ =>
      exists y r, s = String y r
                  /\ x = (if Ascii.eqb y c then backslash else y)
  end.
Proof.
  destruct s as [|y r]; [reflexivity|]. simpl.
  destruct (Ascii.eqb y c) eqn:E; exists y, r; now rewrite E.
Qed.

Lemma head_clash c x a b :
  Ascii.eqb backslash c = false -> Ascii.eqb x c = true ->
  String x a = escapeEvery c b -> False.
Proof.
  intros NB Ex H. pose proof (escapeEvery_head c b) as Hb.
  rewrite <- H in Hb. destruct Hb as (z & r & _ & Hz).
  destruct (Ascii.eqb z c) eqn:Ez; subst x; congruence.
Qed.

Lemma escapeEvery_injective c :
  Ascii.eqb backslash c = false ->
  forall a b, escapeEvery c a = escapeEvery c b -> a = b.
Proof.
  intros NB. induction a as [|x a IH]; intros b H.
  - pose proof (escapeEvery_head c b) as Hb. rewrite <- H in Hb. now symmetry.
  - destruct b as [|y b].
    + pose proof (escapeEvery_head c (String x a)) as Ha. rewrite H in Ha.
      exact Ha.
    + simpl in H.
      destruct (Ascii.eqb x c) eqn:Ex; destruct (Ascii.eqb y c) eqn:Ey.
      * injection H as <- H. now rewrite (IH b H).
      * injection H as _ H. exfalso. exact (head_clash c x _ b NB Ex H).
      * injection H as _ H. exfalso. symmetry in H.
        exact (head_clash c y _ a NB Ey H).
      * injection H as <- H. now rewrite (IH b H).
Qed.

Lemma escapeEvery_length c s :
  String.length (escapeEvery c s) = String.length s + occurrences c s.
Proof.
  induction s as [|x r IH]; [reflexivity|]. simpl.
  destruct (Ascii.eqb x c); simpl; rewrite IH; lia.
Qed.

Lemma escapeEvery_after c s :
  Ascii.eqb backslash c = false ->
  forall previous, bareAfter c previous (escapeEvery c s) = false.
Proof.
  intros NB. induction s as [|x r IH]; intros previous; [reflexivity|].
  simpl. destruct (Ascii.eqb x c) eqn:E.
  - change (bareAfter c previous (String backslash (String x (escapeEvery c r))))
      with ((Ascii.eqb backslash c && negb (Ascii.eqb previous backslash))
            || ((Ascii.eqb x c && negb (Ascii.eqb backslash backslash))
                || bareAfter c x (escapeEvery c r)))%bool.
    now rewrite NB, E, Ascii.eqb_refl, IH.
  - change (bareAfter c previous (String x (escapeEvery c r)))
      with ((Ascii.eqb x c && negb (Ascii.eqb previous backslash))
            || bareAfter c x (escapeEvery c r))%bool.
    now rewrite E, IH.
Qed.

Lemma escapeEvery_bare c s :
  Ascii.eqb backslash c = false -> bare c (escapeEvery c s) = false.
Proof.
  intros NB. destruct s as [|x r]; [reflexivity|]. simpl.
  destruct (Ascii.eqb x c) eqn:E.
  - change (bare c (String backslash (String x (escapeEvery c r))))
      with (Ascii.eqb backslash c
            || ((Ascii.eqb x c && negb (Ascii.eqb backslash backslash))
                || bareAfter c x (escapeEvery c r)))%bool.
    now rewrite NB, E, Ascii.eqb_refl, escapeEvery_after.
  - change (bare c (String x (escapeEvery c r)))
      with (Ascii.eqb x c || bareAfter c x (escapeEvery c r))%bool.
    now rewrite E, escapeEvery_after.
Qed.

(** **** X29.  [mdEscape] puts a backslash in front of every pipe and does
    nothing else: the result is longer by the number of pipes, no pipe of
    it stands without a backslash in front, and two texts are escaped to
    the same text only when they are the same; [mdCode] does the same with
    backticks, between two backticks. *)
Theorem X29_markdown_escapes (s : string) :
  String.length (mdEscape s) = String.length s + occurrences pipe s
  /\ bare pipe (mdEscape s) = false
  /\ (forall t, mdEscape s = mdEscape t -> s = t)
  /\ (forall t, mdCode s = mdCode t -> s = t)
  /\ bare backtick (escapeEvery backtick s) = false.
Proof.
  split; [apply escapeEvery_length|]. split; [|split; [|split]].
  - now apply escapeEvery_bare.
  - intros t. now apply escapeEvery_injective.
  - intros t H. unfold mdCode in H. injection H as H.
    apply (escapeEvery_injective backtick); [reflexivity|].
    revert H. generalize (escapeEvery backtick s) (escapeEvery backtick t).
    induction s0 as [|x a IH]; intros b H.
    + destruct b as [|y b]; [reflexivity|]. simpl in H.
      injection H as _ H. destruct b; discriminate H.
    + destruct b as [|y b].
      * simpl in H. injection H as _ H. destruct a; discriminate H.
      * rewrite !NormalizeFacts.app_cons in H. injection H as -> H.
        now rewrite (IH b H).
  - now apply escapeEvery_bare.
Qed.

End MarkdownFacts.

(** ** The header record of the MITM proxy *)

Module RecordFacts.
Import Js Proxy ProxyViews.

Lemma toRecord_snoc entries kv :
  Mitm.toRecord (Some (entries ++ [kv]))
  = <[toLowerCase kv.1 := recordText kv.2]> (Mitm.toRecord (Some entries)).
Proof.
  unfold Mitm.toRecord. rewrite foldl_app. simpl. now destruct kv.2.
Qed.

Lemma snoc_split {A} (l before after : list A) (x y : A) :
  l ++ [x] = before ++ y :: after ->
  (after = [] /\ l = before /\ x = y)
  \/ exists after', after = after' ++ [x] /\ l = before ++ y :: after'.
Proof.
  intros H. destruct after as [|z after _] using rev_ind.
  - left. apply app_inj_tail in H as [-> ->]. now repeat split.
  - right. exists after.
    change (before ++ y :: after ++ [z])
      with (before ++ (y :: after) ++ [z]) in H.
    rewrite app_assoc in H. apply app_inj_tail in H as [-> ->].
    now split.
Qed.

(** **** X30.  The header record of the MITM proxy: a name has an entry
    exactly when it is the lower-cased name of one of the headers, and its
    value is the text of the last header with that lower-cased name (the
    items of an array joined by a comma and a space); so every name of the
    record is in lower case. *)
Theorem X30_toRecord_last_wins (entries : list (string * hval)) (k v : string) :
  Mitm.toRecord (Some entries) !! k = Some v
  <-> exists before name value after,
        entries = before ++ (name, value) :: after
        /\ toLowerCase name = k
        /\ v = recordText value
        /\ Forall (fun kv : string * hval => toLowerCase kv.1 <> k) after.
Proof.
  induction entries as [|kv entries IH] using rev_ind.
  - split; [intros H; discriminate H|].
    intros (before & name & value & after & E & _).
    now destruct before.
  - rewrite toRecord_snoc.
    destruct (decide (toLowerCase kv.1 = k)) as [K|K].
    + rewrite K, lookup_insert_eq. split.
      * intros [= <-]. exists entries, kv.1, kv.2, [].
        repeat split; [now destruct kv|exact K|constructor].
      * intros (before & name & value & after & E & _ & -> & F).
        apply snoc_split in E as [(-> & _ & ->)|(after' & -> & _)];
          [reflexivity|].
        apply Forall_app in F as [_ F]. apply Forall_inv in F.
        now destruct F.
    + rewrite lookup_insert_ne by exact K. rewrite IH. split.
      * intros (before & name & value & after & -> & N & -> & F).
        exists before, name, value, (after ++ [kv]).
        repeat split; [now rewrite <- app_assoc|exact N|].
        apply Forall_app. split; [exact F|]. now constructor.
      * intros (before & name & value & after & E & N & -> & F).
        apply snoc_split in E as [(_ & _ & ->)|(after' & -> & ->)].
        -- now destruct K.
        -- apply Forall_app in F as [F _].
           now exists before, name, value, after'.
Qed.

End RecordFacts.
